(** * mesa-solps: the simulation-run lifecycle of [mesa_solps/simulation.py]

    A shallow embedding of [SolpsRun] (status, cleanup, get_results),
    [Solps.launch] and [build_solps_case], over an explicit model of the
    things the Python code talks to: the file system, the process working
    directory, the batch scheduler and the clock.

    Conventions.
    - A Python [str] that is processed character by character (file
      contents, scheduler output, job ids) is a [list ascii]; names used as
      dictionary keys or directory entries are [string]s.
    - A [pathlib.Path] is its list of parts plus the flag saying whether it
      is anchored at the root; the file system is a finite map from
      absolute part lists to nodes.  Paths hold no [.] or [..] parts and
      the tree has no symbolic links.
    - A time is a Python float: an IEEE 754 binary64 value with the
      arithmetic of [SpecFloat] at 53 bits (round to nearest, ties to
      even).  Float values that the code only hands on (parameter values,
      transport bounds) are carried as rationals.
    - A raised exception is the [Err] branch of [result]; operations that
      touch the file system return the new file system next to it. *)

From Stdlib Require Import ZArith QArith String Ascii List Lia SpecFloat.
From stdpp Require Import base decidable option list gmap strings pretty fin_maps fin_sets.

Open Scope Z_scope.
Open Scope list_scope.

(** ** Python text *)

Abbreviation text := (list ascii).

Definition txt (s : string) : text := list_ascii_of_string s.

Definition nl : ascii := "010"%char.
Definition tab : ascii := "009"%char.
Definition cr : ascii := "013"%char.
Definition squote : ascii := "039"%char.
Definition dquote : ascii := "034"%char.
Definition backslash : ascii := "092"%char.

(** [pat in s] on Python strings. *)
Fixpoint contains (pat s : text) : bool :=
  if bool_decide (pat `prefix_of` s) then true
  else match s with
       | [] => false
       | _ :: s' => contains pat s'
       end.

(** [s.find(pat)]: index of the first occurrence, or -1. *)
Fixpoint find_from (i : Z) (pat s : text) : Z :=
  if bool_decide (pat `prefix_of` s) then i
  else match s with
       | [] => -1
       | _ :: s' => find_from (i + 1) pat s'
       end.

Definition find (s pat : text) : Z := find_from 0 pat s.

(** Python's treatment of a slice bound: negative bounds count from the
    end, and everything is clamped into [0, len]. *)
Definition slice_bound (len i : Z) : Z :=
  if i <? 0 then Z.max 0 (i + len) else Z.min i len.

(** [s[a:b]] *)
Definition py_slice (s : text) (a b : Z) : text :=
  let len := Z.of_nat (length s) in
  let lo := slice_bound len a in
  let hi := slice_bound len b in
  take (Z.to_nat (hi - lo)) (drop (Z.to_nat lo) s).

(** [s.replace(old, new)] for a non-empty [old]: occurrences are replaced
    left to right and do not overlap.  [skip] counts the characters of an
    occurrence that are still to be dropped. *)
Fixpoint replace_go (old new : text) (skip : nat) (s : text) : text :=
  match s with
  | [] => []
  | c :: s' =>
      match skip with
      | S k => replace_go old new k s'
      | O =>
          if bool_decide (old `prefix_of` s)
          then new ++ replace_go old new (length old - 1) s'
          else c :: replace_go old new 0 s'
      end
  end.

Definition str_replace (s old new : text) : text := replace_go old new 0 s.

(** *** [str(b)] for a bytes object [b]

    CPython's [bytes.__repr__]: the quote is the apostrophe unless the
    bytes hold an apostrophe and no double quote; the quote and the
    backslash are escaped with a backslash, tab, newline and carriage
    return by their letter, every other byte outside the printable ASCII
    range as [\xhh] with lower-case digits. *)

Definition hex_digit (n : nat) : ascii :=
  nth n (txt "0123456789abcdef") "0"%char.

Definition escape_char (q c : ascii) : text :=
  if bool_decide (c = q) || bool_decide (c = backslash) then [backslash; c]
  else if bool_decide (c = tab) then [backslash; "t"%char]
  else if bool_decide (c = nl) then [backslash; "n"%char]
  else if bool_decide (c = cr) then [backslash; "r"%char]
  else if (nat_of_ascii c <? 32)%nat || (127 <=? nat_of_ascii c)%nat
       then [backslash; "x"%char;
             hex_digit (nat_of_ascii c / 16); hex_digit (nat_of_ascii c mod 16)]
  else [c].

Definition bytes_text (b : list Byte.byte) : text := map ascii_of_byte b.

Definition repr_quote (b : text) : ascii :=
  if bool_decide (squote ∈ b) && negb (bool_decide (dquote ∈ b))
  then dquote else squote.

Definition bytes_repr (b : list Byte.byte) : text :=
  let q := repr_quote (bytes_text b) in
  "b"%char :: q :: flat_map (escape_char q) (bytes_text b) ++ [q].

(** The bytes of an ASCII literal. *)
Definition bytes_of (s : string) : list Byte.byte := list_byte_of_string s.


(** ** Exceptions and results *)

Abbreviation abspath := (list string).

Inductive exn : Type :=
  | FileExistsError (p : abspath)
  | FileNotFoundError (p : abspath)
  | NotADirectoryError (p : abspath)
  | IsADirectoryError (p : abspath)
  | SameFileError (p : abspath)
  | TypeError
  (* [int too large to convert to float] *)
  | OverflowError
  | KeyError (k : string)
  (* the [FileNotFoundError] raised by [build_solps_case] itself; its
     message shows [optional_params] *)
  | MesaFileNotFoundError (optional_params : gset string)
  (* the [ValueError] raised by [build_solps_case]; its message shows
     [unwritten_params] *)
  | MesaValueError (unwritten_params : gset string)
  (* an exception raised inside a collaborator that is not part of this
     module *)
  | CollaboratorError (what : string).

Inductive result (A : Type) : Type :=
  | Ok (a : A)
  | Err (e : exn).
Arguments Ok {A} a.
Arguments Err {A} e.

#[global] Instance result_ret : MRet result := λ A a, Ok a.
#[global] Instance result_bind : MBind result :=
  λ A B k r, match r with Ok a => k a | Err e => Err e end.

(** ** Paths and the file system *)

(** A [pathlib.Path]: anchored at the root or relative, and its parts. *)
Record Path : Type := mkPath { is_absolute : bool; parts : list string }.

(** [p / name] for a single-component [name]. *)
Definition pjoin (p : Path) (name : string) : Path :=
  mkPath (is_absolute p) (parts p ++ [name]).
Infix "//" := pjoin (at level 40, left associativity).

Inductive node : Type :=
  | File (content : text)
  | Dir.

(** The state the code acts on: the file tree, keyed by absolute part
    lists, and the working directory of the process. *)
Record World : Type := mkWorld { fs : gmap abspath node; cwd : abspath }.

Definition resolve (wd : abspath) (p : Path) : abspath :=
  if is_absolute p then parts p else wd ++ parts p.

(** The root always exists and is a directory. *)
Definition node_at (t : gmap abspath node) (a : abspath) : option node :=
  match a with
  | [] => Some Dir
  | _ => t !! a
  end.

Definition is_file (t : gmap abspath node) (a : abspath) : bool :=
  match node_at t a with Some (File _) => true | _ => false end.

Definition is_dir (t : gmap abspath node) (a : abspath) : bool :=
  match node_at t a with Some Dir => true | _ => false end.

(** Every entry lies in a directory. *)
Definition fs_wf (t : gmap abspath node) : Prop :=
  map_Forall (λ k _, is_dir t (removelast k) = true) t.

(** ** The monad of the code: state [World], errors [exn] *)

Definition M (A : Type) : Type := World → World * result A.

#[global] Instance M_ret : MRet M := λ A a w, (w, Ok a).
#[global] Instance M_bind : MBind M :=
  λ A B k m w, match m w with
               | (w', Ok a) => k a w'
               | (w', Err e) => (w', Err e)
               end.

Definition raise {A : Type} (e : exn) : M A := λ w, (w, Err e).
Definition lift {A : Type} (r : result A) : M A := λ w, (w, r).

(** A collaborator that works on the files, seen from the working
    directory, and cannot change that directory. *)
Definition with_files {A : Type}
    (f : abspath → gmap abspath node → gmap abspath node * result A) : M A :=
  λ w, let '(t, r) := f (cwd w) (fs w) in (mkWorld t (cwd w), r).

(** [for x in xs: body(x)] *)
Fixpoint for_each {A : Type} (xs : list A) (body : A → M unit) : M unit :=
  match xs with
  | [] => mret tt
  | x :: xs' => body x ;; for_each xs' body
  end.

(** [[x for x in xs if test(x)]] with a test that looks at the world *)
Fixpoint filter_m {A : Type} (test : A → M bool) (xs : list A) : M (list A) :=
  match xs with
  | [] => mret []
  | x :: xs' =>
      test x ≫= λ b : bool,
      filter_m test xs' ≫= λ rest,
      mret (if b then x :: rest else rest)
  end.

(** a loop that carries an accumulator *)
Fixpoint fold_m {A S : Type} (body : S → A → M S) (acc : S) (xs : list A) : M S :=
  match xs with
  | [] => mret acc
  | x :: xs' => acc' ← body acc x; fold_m body acc' xs'
  end.

(** *** File operations *)

(** [os.path.isfile(p)] *)
Definition isfile (p : Path) : M bool :=
  λ w, (w, Ok (is_file (fs w) (resolve (cwd w) p))).

(** Opening a path for writing (or creating it) needs its parent directory. *)
Definition parent_check (t : gmap abspath node) (a : abspath) : result unit :=
  match node_at t (removelast a) with
  | Some Dir => Ok tt
  | Some (File _) => Err (NotADirectoryError a)
  | None => Err (FileNotFoundError a)
  end.

(** [p.mkdir()] with the defaults [parents=False, exist_ok=False] *)
Definition mkdir (p : Path) : M unit :=
  λ w, let a := resolve (cwd w) p in
       match node_at (fs w) a with
       | Some _ => (w, Err (FileExistsError a))
       | None =>
           match parent_check (fs w) a with
           | Ok _ => (mkWorld (<[a := Dir]> (fs w)) (cwd w), Ok tt)
           | Err e => (w, Err e)
           end
       end.

(** [open(p, 'w')] followed by writing [content] and closing *)
Definition write_text (p : Path) (content : text) : M unit :=
  λ w, let a := resolve (cwd w) p in
       match node_at (fs w) a with
       | Some Dir => (w, Err (IsADirectoryError a))
       | _ =>
           match parent_check (fs w) a with
           | Ok _ => (mkWorld (<[a := File content]> (fs w)) (cwd w), Ok tt)
           | Err e => (w, Err e)
           end
       end.

(** [open(p)] and reading the whole file *)
Definition read_text (p : Path) : M text :=
  λ w, let a := resolve (cwd w) p in
       match node_at (fs w) a with
       | Some (File c) => (w, Ok c)
       | Some Dir => (w, Err (IsADirectoryError a))
       | None => (w, Err (FileNotFoundError a))
       end.

(** [shutil.copy(src, dst)]: a directory [dst] means "into it, under the
    source's name"; copying a file onto itself is refused. *)
Definition copy (src dst : Path) : M unit :=
  λ w, let s := resolve (cwd w) src in
       let d0 := resolve (cwd w) dst in
       let d := if is_dir (fs w) d0 then d0 ++ [default EmptyString (last s)] else d0 in
       match node_at (fs w) s with
       | None => (w, Err (FileNotFoundError s))
       | Some n =>
           if bool_decide (s = d) then (w, Err (SameFileError s))
           else match n with
                | Dir => (w, Err (IsADirectoryError s))
                | File c =>
                    match node_at (fs w) d with
                    | Some Dir => (w, Err (IsADirectoryError d))
                    | _ =>
                        match parent_check (fs w) d with
                        | Ok _ => (mkWorld (<[d := File c]> (fs w)) (cwd w), Ok tt)
                        | Err e => (w, Err e)
                        end
                    end
                end
       end.

(** The name under which [k] is an entry of directory [d], if it is one. *)
Definition entry_name (d k : abspath) : option string :=
  if bool_decide (removelast k = d) then last k else None.

Definition entries (t : gmap abspath node) (d : abspath) : list string :=
  omap (entry_name d) (elements (dom t)).

(** [os.listdir(p)]; the order of the names is the file system's. *)
Definition listdir (p : Path) : M (list string) :=
  λ w, let a := resolve (cwd w) p in
       match node_at (fs w) a with
       | Some Dir => (w, Ok (entries (fs w) a))
       | Some (File _) => (w, Err (NotADirectoryError a))
       | None => (w, Err (FileNotFoundError a))
       end.

(** [os.remove(p)] *)
Definition remove (p : Path) : M unit :=
  λ w, let a := resolve (cwd w) p in
       match node_at (fs w) a with
       | Some (File _) => (mkWorld (delete a (fs w)) (cwd w), Ok tt)
       | Some Dir => (w, Err (IsADirectoryError a))
       | None => (w, Err (FileNotFoundError a))
       end.

(** [os.chdir(p)] *)
Definition chdir (p : Path) : M unit :=
  λ w, let a := resolve (cwd w) p in
       match node_at (fs w) a with
       | Some Dir => (mkWorld (fs w) a, Ok tt)
       | Some (File _) => (w, Err (NotADirectoryError a))
       | None => (w, Err (FileNotFoundError a))
       end.

(** ** Values, lines and placeholders *)

(** What a parameter dictionary holds: the optimiser supplies floats, a
    caller may also supply text. *)
Inductive pyval : Type :=
  | PyStr (s : text)
  | PyFloat (x : Q).

(** [d[k]] *)
Definition getitem (d : gmap string pyval) (k : string) : result pyval :=
  match d !! k with
  | Some v => Ok v
  | None => Err (KeyError k)
  end.

(** [[d[k] for k in ks]] *)
Fixpoint getitems (d : gmap string pyval) (ks : list string) : result (list pyval) :=
  match ks with
  | [] => Ok []
  | k :: ks' => v ← getitem d k; vs ← getitems d ks'; Ok (v :: vs)
  end.

(** [s.replace(old, new)] as a method call: the replacement has to be a
    [str]. *)
Definition replace_method (s old : text) (new : pyval) : result text :=
  match new with
  | PyStr n => Ok (str_replace s old n)
  | PyFloat _ => Err TypeError
  end.

(** Text mode reading translates [\r\n] and a lone [\r] to [\n]. *)
Fixpoint universal_newlines (s : text) : text :=
  match s with
  | [] => []
  | c :: s' =>
      if bool_decide (c = cr) then
        match s' with
        | c' :: _ => if bool_decide (c' = nl) then universal_newlines s'
                     else nl :: universal_newlines s'
        | [] => [nl]
        end
      else c :: universal_newlines s'
  end.

(** The lines of a text, each with its newline (the last one may lack it). *)
Fixpoint text_lines (s : text) : list text :=
  match s with
  | [] => []
  | c :: s' =>
      if bool_decide (c = nl) then [nl] :: text_lines s'
      else match text_lines s' with
           | [] => [[c]]
           | l :: ls => (c :: l) :: ls
           end
  end.

(** [for line in f] over a file opened in text mode *)
Definition file_lines (content : text) : list text :=
  text_lines (universal_newlines content).

(** ['{' + p + '}'] *)
Definition placeholder (p : string) : text := "{"%char :: txt p ++ ["}"%char].

(** [s.rstrip()] *)
Definition is_space (c : ascii) : bool :=
  let n := nat_of_ascii c in
  ((9 <=? n)%nat && (n <=? 13)%nat) || ((28 <=? n)%nat && (n <=? 32)%nat).

Fixpoint lstrip (s : text) : text :=
  match s with
  | c :: s' => if is_space c then lstrip s' else s
  | [] => []
  end.

Definition rstrip (s : text) : text := rev (lstrip (rev s)).

(** ** Python floats *)

(** A [float] is an IEEE 754 binary64 value: 53 bits of precision and
    exponents below 1024.  [SpecFloat] gives the operations on them; they
    round to nearest, ties to even. *)
Abbreviation float := spec_float.

(** the values the format has: the mantissa is the normalised one for its
    exponent, and the exponent is in range *)
Definition float_valid (x : float) : Prop := valid_binary 53 1024 x = true.

(** the double nearest to [m * 2 ^ e] *)
Definition dyadic (m e : Z) : float := binary_normalize 53 1024 m e false.

(** [float(n)], the conversion of the [int] operand of a mixed product; an
    [int] that rounds beyond the largest double raises ["int too large to
    convert to float"] *)
Definition float_of_int (n : Z) : result float :=
  match dyadic n 0 with
  | S754_infinity _ => Err OverflowError
  | x => Ok x
  end.

(** [a - b], [a * b], [a > b] and [a <= b] *)
Definition float_sub (a b : float) : float := SFsub 53 1024 a b.
Definition float_mul (a b : float) : float := SFmul 53 1024 a b.
Definition float_gt (a b : float) : bool := SFltb b a.
Definition float_le (a b : float) : bool := SFleb a b.

(** ** The run handle and the simulation settings *)

Record SolpsRun : Type := mkSolpsRun {
  parameters : gmap string pyval;
  run_number : Z;
  directory : Path;
  launch_time : float;
  run_id : text;
  timeout_hours : Z
}.

Module Solps.
Record t : Type := mk {
  reference_directory : Path;
  transport_bounds : Q * Q;
  set_div_transport : bool;
  n_proc : Z;
  memory : Z;
  timeout_hours : Z
}.
End Solps.

Definition input_files : list string :=
  [ "input.dat"; "fort.1"; "fort.13"; "b2.neutrals.parameters";
    "b2.boundary.parameters"; "b2.numerics.parameters";
    "b2.transport.parameters"; "b2mn.dat" ]%string.

Definition allowed_files : list string :=
  [ "balance.nc"; "input.dat"; "b2.neutrals.parameters";
    "b2.boundary.parameters"; "b2.numerics.parameters";
    "b2.transport.parameters"; "b2.transport.inputfile"; "b2mn.dat" ]%string.

(** The result object.  The class [SolpsInterface] of the package [sims]
    is not part of the sources; the spec's data model describes the
    result as "an opaque handle over a produced output artifact (the
    result file location)". *)
Record SimulationResult : Type := mkSimulationResult { balance_filepath : Path }.

(** Modelled from the spec: the constructor
    [SolpsInterface(balance_filepath=...)] of the package [sims], which is
    not part of the sources.  The spec asks of [get_results] that it
    "should fail fast with a NotFound error if the artifact does not
    exist, rather than returning a handle to nothing", and that it "must
    not validate the artifact's internal structure".  [get_results] has no
    check of its own, so the check is the constructor's: it looks for the
    file it is given, and the handle it returns is bound to that path. *)
Definition SolpsInterface (balance_filepath : Path) : M SimulationResult :=
  λ w, let a := resolve (cwd w) balance_filepath in
       if is_file (fs w) a then (w, Ok (mkSimulationResult balance_filepath))
       else (w, Err (FileNotFoundError a)).
Section Lifecycle.

(** Names and collaborators imported from modules that are not part of
    the sources ([.parameters], [.models], [.transport], [sims]), and the
    outside world (scheduler commands). *)
Variable required_parameters : gset string.
Variables conductivity_profile diffusivity_profile : list string.
Variable axis : Type.
Variable profile_radius_axis : list pyval → Q * Q → result axis.
Variable linear_transport_profile : axis → list pyval → Q * Q → result axis.
(** writes a file; cannot move the process to another directory *)
Variable write_solps_transport_inputfile :
  abspath → Path → axis → axis → axis → axis → axis → axis →
  bool → bool → bool → gmap abspath node → gmap abspath node * result unit.
(** [Popen(command, stdout=PIPE, shell=True).communicate()[0]], with the
    exit status next to it: decided by the command, the directory it runs
    in and the files it sees; it may write files. *)
Variable shell :
  text → abspath → gmap abspath node → gmap abspath node * (Z * list Byte.byte).

(** *** [SolpsRun.status] *)

(** [whoami] and [squeue] stand for the two [subprocess.run] calls: what
    the command printed, or the exception raised when it could not be
    started; [now] is what [time()] returns.  The right operand of [>] is
    evaluated after the left one, and only when the job is in the queue:
    this is where an [int] too large for a float raises. *)
Definition status (whoami : result text) (squeue : text → result text) (now : float)
    (self : SolpsRun) : M string :=
  whoami_stdout ← lift whoami;
  let username := rstrip whoami_stdout in
  job_queue ← lift (squeue username);
  if negb (contains (run_id self) job_queue) then
    isfile (directory self // "balance.nc") ≫= λ balance_created : bool,
    mret (if balance_created then "complete" else "crashed")%string
  else
    hours ← lift (float_of_int (timeout_hours self));
    if float_gt (float_sub now (launch_time self)) (float_mul hours (dyadic 3600 0))
    then mret "timed-out"%string
    else mret "running"%string.

(** *** [SolpsRun.cleanup] *)
Definition cleanup (self : SolpsRun) : M unit :=
  names ← listdir (directory self);
  output_files ← filter_m (λ f, isfile (directory self // f)) names;
  let deletions := filter (λ f, f ∉ allowed_files) output_files in
  for_each deletions (λ f, remove (directory self // f)).

(** *** [SolpsRun.get_results] *)
Definition get_results (self : SolpsRun) : M SimulationResult :=
  let results_path := directory self // "balance.nc" in
  SolpsInterface results_path.

(** *** [build_solps_case] *)

(** The body of [for p in optional_params] for one [p]: the result of
    [line.replace] is dropped, the line stays as it was read. *)
Definition substitute (parameter_dictionary : gmap string pyval) (line : text)
    (written_params : gset string) (p : string) : result (gset string) :=
  if contains (placeholder p) line then
    val_string ← getitem parameter_dictionary p;
    _ ← replace_method line (placeholder p) val_string;
    Ok ({[p]} ∪ written_params)
  else Ok written_params.

Fixpoint substitute_all (parameter_dictionary : gmap string pyval) (line : text)
    (written_params : gset string) (ps : list string) : result (gset string) :=
  match ps with
  | [] => Ok written_params
  | p :: ps' =>
      w ← substitute parameter_dictionary line written_params p;
      substitute_all parameter_dictionary line w ps'
  end.

(** [for line in f: ...; output.append(line)] *)
Fixpoint process_lines (parameter_dictionary : gmap string pyval)
    (optional_params : gset string) (written_params : gset string)
    (lines : list text) : result (gset string * list text) :=
  match lines with
  | [] => Ok (written_params, [])
  | line :: lines' =>
      w ← substitute_all parameter_dictionary line written_params
             (elements optional_params);
      '(w', output) ← process_lines parameter_dictionary optional_params w lines';
      Ok (w', line :: output)
  end.

(** [for item in output: f.write("%s\n" % item)] *)
Definition written_content (output : list text) : text :=
  concat (map (λ item, item ++ [nl]) output).

(** The body of [for mif in mesa_input_files]. *)
Definition process_template (reference_directory case_directory : Path)
    (parameter_dictionary : gmap string pyval) (optional_params : gset string)
    (written_params : gset string) (mif : string) : M (gset string) :=
  content ← read_text (reference_directory // mif);
  '(w, output) ← lift (process_lines parameter_dictionary optional_params
                         written_params (file_lines content));
  write_text (case_directory // mif) (written_content output) ;;
  mret w.

Definition build_solps_case (reference_directory case_directory : Path)
    (parameter_dictionary : gmap string pyval) : M unit :=
  mkdir case_directory ;;
  copy (reference_directory // "b2fstate") (case_directory // "b2fstati") ;;
  for_each input_files (λ input,
    isfile (reference_directory // input) ≫= λ present : bool,
    if present then copy (reference_directory // input) (case_directory // input)
    else mret tt) ;;
  let optional_params := dom parameter_dictionary ∖ required_parameters in
  let written_params : gset string := ∅ in
  let mesa_input_files := map (λ f, f +:+ ".mesa") input_files in
  mesa_input_files ← filter_m (λ f, isfile (reference_directory // f)) mesa_input_files;
  if negb (bool_decide (size optional_params = 0%nat)) then
    (if bool_decide (length mesa_input_files = 0%nat)
     then raise (MesaFileNotFoundError optional_params)
     else mret tt) ;;
    written_params ←
      fold_m (process_template reference_directory case_directory
                parameter_dictionary optional_params)
             written_params mesa_input_files;
    let unwritten_params := optional_params ∖ written_params in
    if bool_decide (0 < size unwritten_params)%nat
    then raise (MesaValueError unwritten_params)
    else mret tt
  else mret tt.

(** *** [Solps.launch] *)

Definition findstr : text := txt "Submitted batch job".

Definition submit_command (self : Solps.t) : text :=
  if bool_decide (Solps.n_proc self = 1) then txt "itmsubmit"
  else txt "itmsubmit -m " ++ [dquote] ++ txt "-np " ++ txt (pretty (Solps.n_proc self))
       ++ [dquote] ++ txt " -M " ++ txt (pretty (Solps.memory self)) ++ txt "GB".

(** The job id cut out of [str(start_run_output)]. *)
Definition parse_job_id (start_run_output : list Byte.byte) : text :=
  let tmp := find (bytes_repr start_run_output) findstr in
  py_slice (bytes_repr start_run_output)
           (tmp + Z.of_nat (length findstr) + 1) (-3).

Definition popen (command : text) : M (list Byte.byte) :=
  λ w, let '(t, (_, out)) := shell command (cwd w) (fs w) in
       (mkWorld t (cwd w), Ok out).

(** "produce transport profiles defined by new point" and write them:
    the part of [launch] between the case builder and the first
    [os.chdir]. *)
Definition write_transport_input (self : Solps.t) (case_dir : Path)
    (parameters : gmap string pyval) : M unit :=
  chi_params ← lift (getitems parameters conductivity_profile);
  chi_radius ← lift (profile_radius_axis chi_params (Solps.transport_bounds self));
  chi ← lift (linear_transport_profile chi_radius chi_params (Solps.transport_bounds self));
  D_params ← lift (getitems parameters diffusivity_profile);
  D_radius ← lift (profile_radius_axis D_params (Solps.transport_bounds self));
  D ← lift (linear_transport_profile D_radius D_params (Solps.transport_bounds self));
  with_files (λ wd, write_solps_transport_inputfile wd
                      (case_dir // "b2.transport.inputfile")
                      D_radius D chi_radius chi chi_radius chi
                      false true (Solps.set_div_transport self)).

Definition launch (self : Solps.t) (now : float) (run_number : Z)
    (simulations_directory : Path) (parameters : gmap string pyval) : M SolpsRun :=
  let case_dir := simulations_directory // ("run_" +:+ pretty run_number) in
  build_solps_case (Solps.reference_directory self) case_dir parameters ;;
  write_transport_input self case_dir parameters ;;
  chdir case_dir ;;
  let command := submit_command self in
  start_run_output ← popen command;
  chdir simulations_directory ;;
  let job_id := parse_job_id start_run_output in
  mret (mkSolpsRun parameters run_number case_dir now job_id
                   (Solps.timeout_hours self)).

End Lifecycle.

(** ** Vocabulary of the statements *)

(** [pat] occurs somewhere in [s]. *)
Definition occurs_in (pat s : text) : Prop := ∃ pre suf, s = pre ++ pat ++ suf.

(** ** Vocabulary for the arithmetic of the clock *)

(** neither an infinity nor a NaN *)
Definition float_finite (x : float) : bool :=
  match x with
  | S754_zero _ | S754_finite _ _ _ => true
  | _ => false
  end.

(** The value of a finite double, counted in units of [2 ^ -1074] (the
    distance between the smallest doubles), so that it is an integer; the
    infinities are put beyond every finite value. *)
Definition float_scaled (x : float) : Z :=
  match x with
  | S754_zero _ => 0
  | S754_finite s m e => cond_Zopp s (Zpos m * 2 ^ (e + 1074))
  | S754_infinity s => cond_Zopp s (2 ^ 2100)
  | S754_nan => 0
  end.

(** Rounding a positive number of units [D] to 53 significant bits:
    [s] low bits are dropped; the result goes up when the dropped part is
    more than half of [2 ^ s], or exactly half with an odd quotient. *)
Definition round_up (D s : Z) : bool :=
  (2 ^ s <? 2 * (D mod 2 ^ s)) || ((2 ^ s =? 2 * (D mod 2 ^ s)) && Z.odd (D / 2 ^ s)).

Definition nearest (D : Z) : Z :=
  let s := Z.max (Z.log2 D + 1 - 53) 0 in
  (D / 2 ^ s + (if round_up D s then 1 else 0)) * 2 ^ s.

(** ... and past the largest double the result is the infinity *)
Definition rounded (D : Z) : Z :=
  if 2 ^ 2098 <=? nearest D then 2 ^ 2100 else nearest D.

Definition rounded_signed (D : Z) : Z :=
  match D with
  | 0 => 0
  | Zpos _ => rounded D
  | Zneg p => - rounded (Zpos p)
  end.

(** where the [n] low bits of [M] lie with respect to half of [2 ^ n] *)
Definition shift_location (M n : Z) : SpecFloat.location :=
  if M mod 2 ^ n =? 0 then loc_Exact
  else loc_Inexact (2 * (M mod 2 ^ n) ?= 2 ^ n).

(** what [squeue -u <user>] printed, when both commands could be run *)
Definition job_queue (whoami : result text) (squeue : text → result text) : result text :=
  whoami_stdout ← whoami; squeue (rstrip whoami_stdout).

(** [time() - self.launch_time] and [self.timeout_hours * 3600.], as the
    code computes them *)
Definition elapsed (now : float) (self : SolpsRun) : float :=
  float_sub now (launch_time self).

Definition time_limit (self : SolpsRun) : result float :=
  hours ← float_of_int (timeout_hours self); Ok (float_mul hours (dyadic 3600 0)).

(** Following the claims' words, in exact arithmetic: the time since
    launch exceeds [timeout_hours] hours (both sides in units of
    [2 ^ -1074] seconds). *)
Definition exactly_overdue (now : float) (self : SolpsRun) : Prop :=
  timeout_hours self * 3600 * 2 ^ 1074
  < float_scaled now - float_scaled (launch_time self).

(** [s.split()]: the fields of a text, cut at white space *)
Fixpoint fields_from (field : text) (s : text) : list text :=
  match s with
  | [] => match field with [] => [] | _ => [rev field] end
  | c :: s' =>
      if is_space c then
        match field with
        | [] => fields_from [] s'
        | _ => rev field :: fields_from [] s'
        end
      else fields_from (c :: field) s'
  end.

Definition fields (s : text) : list text := fields_from [] s.

(** Following the claim's words: a job is in the queue when its id is one
    of the fields of the text that [squeue] printed. *)
Definition listed (id queue : text) : Prop := id ∈ fields queue.

(** where the result artifact of a run is looked for *)
Definition artifact (self : SolpsRun) (w : World) : abspath :=
  resolve (cwd w) (directory self) ++ ["balance.nc"%string].

(** [w'] is [w] with entries added or rewritten, none removed, and the
    process still in the same directory *)
Definition grows (w w' : World) : Prop :=
  cwd w' = cwd w ∧ ∀ a, is_Some (fs w !! a) → is_Some (fs w' !! a).

Definition growing {A : Type} (m : M A) : Prop := ∀ w, grows w (m w).1.

(** The template files of a reference directory [r], their lines, and
    whether the placeholder of [p] occurs in one of these lines. *)
Definition mesa_names : list string := map (λ f, f +:+ ".mesa") input_files.

Definition present_templates (t : gmap abspath node) (r : abspath) : list string :=
  filter (λ f, is_file t (r ++ [f]) = true) mesa_names.

Definition lines_of (t : gmap abspath node) (p : abspath) : list text :=
  match t !! p with
  | Some (File c) => file_lines c
  | _ => []
  end.

Definition mentioned (t : gmap abspath node) (r : abspath) (p : string) : Prop :=
  ∃ mif line, mif ∈ present_templates t r ∧ line ∈ lines_of t (r ++ [mif])
              ∧ occurs_in (placeholder p) line.

(** The state of a case directory [a] while it is being populated from the
    tree [t0]: it is a directory, holds no sub-directory, and nothing
    outside it has changed. *)
Definition case_inv (t0 : gmap abspath node) (a : abspath) (t : gmap abspath node) : Prop :=
  t !! a = Some Dir
  ∧ (∀ n, t !! (a ++ [n]) ≠ Some Dir)
  ∧ (∀ p, p ≠ a → (∀ n, p ≠ a ++ [n]) → t !! p = t0 !! p).

(** every parameter among [ps] whose placeholder occurs in [line] has a
    text value *)
Definition text_valued (parameter_dictionary : gmap string pyval)
    (ps : list string) (line : text) : Prop :=
  ∀ p, p ∈ ps → contains (placeholder p) line = true →
       ∃ s, parameter_dictionary !! p = Some (PyStr s).

(** a computation that leaves the process where it is *)
Definition stays {A : Type} (m : M A) : Prop := ∀ w, cwd (m w).1 = cwd w.

(** the characters that can follow the backslash of an escape *)
Definition escape_letters : text := backslash :: txt "tnrx0123456789abcdef".

(** the acknowledgement line of the scheduler, as bytes *)
Definition marker_line : list Byte.byte :=
  bytes_of "Submitted batch job 12345" ++ [Byte.x0a].

(** [mentioned], computed *)
Definition mentionedb (t : gmap abspath node) (r : abspath) (p : string) : bool :=
  existsb (λ mif, existsb (λ line, contains (placeholder p) line)
                          (lines_of t (r ++ [mif])))
          (present_templates t r).

(** ** The intended template resolution *)

(** Following the spec's words (section 4.2, step 3): "substitute every
    literal placeholder token (parameter name wrapped in a fixed delimiter
    pair) with the parameter's formatted value".  The format of a value is
    left open by the spec and is a parameter here. *)
Definition spec_resolved_line (format : pyval → text)
    (parameter_dictionary : gmap string pyval) (optional_params : list string)
    (line : text) : text :=
  foldl (λ l p, match parameter_dictionary !! p with
                | Some v => str_replace l (placeholder p) (format v)
                | None => l
                end) line optional_params.

Definition spec_resolved_content (format : pyval → text)
    (parameter_dictionary : gmap string pyval) (optional_params : list string)
    (content : text) : text :=
  concat (map (spec_resolved_line format parameter_dictionary optional_params)
              (file_lines content)).

(** a format that prints text values as they are *)
Definition plain_format (v : pyval) : text :=
  match v with
  | PyStr s => s
  | PyFloat _ => txt "<float>"
  end.

(** ** A test bench: a small tree, stand-ins for the collaborators *)

Definition bench_reference : Path := mkPath true ["ref"]%string.
Definition bench_simulations : Path := mkPath true ["tmp"; "sim"]%string.

Definition bench_tree : gmap abspath node :=
  list_to_map
    [ (["ref"], Dir); (["tmp"], Dir); (["tmp"; "sim"], Dir); (["home"], Dir);
      (["ref"; "b2fstate"], File (txt "state"));
      (["ref"; "input.dat"], File (txt "x = 0" ++ [nl]));
      (["ref"; "input.dat.mesa"], File (txt "x = {X}" ++ [nl])) ]%string.

(** the same reference directory without its template *)
Definition bench_tree_no_template : gmap abspath node :=
  delete ["ref"; "input.dat.mesa"]%string bench_tree.

Definition bench_world : World := mkWorld bench_tree ["home"%string].
Definition bench_world_no_template : World :=
  mkWorld bench_tree_no_template ["home"%string].

Definition bench_required : gset string := list_to_set ["chi"; "D"]%string.

Definition bench_parameters : gmap string pyval :=
  list_to_map [ ("chi", PyFloat 1); ("D", PyFloat 2);
                ("X", PyStr (txt "1.5")) ]%string.

(** as above, with the optional value as the optimiser would pass it *)
Definition bench_parameters_float : gmap string pyval :=
  list_to_map [ ("chi", PyFloat 1); ("D", PyFloat 2); ("X", PyFloat 1.5) ]%string.

(** as [bench_parameters], with a second optional name no template knows *)
Definition bench_parameters_extra : gmap string pyval :=
  list_to_map [ ("chi", PyFloat 1); ("D", PyFloat 2);
                ("X", PyStr (txt "1.5")); ("Y", PyStr (txt "2.5")) ]%string.

(** what [time()] returns at a whole number of seconds *)
Definition clock (seconds : Z) : float := dyadic seconds 0.

(** the case directory of run number 3, as [launch] names it *)
Definition bench_case : Path := bench_simulations // ("run_" +:+ pretty 3).

Definition bench_solps : Solps.t :=
  Solps.mk bench_reference (- (1 # 4), 6 # 25)%Q true 36 20 24.

Definition bench_axis (_ : list pyval) (_ : Q * Q) : result unit := Ok tt.
Definition bench_profile (_ : unit) (_ : list pyval) (_ : Q * Q) : result unit := Ok tt.

Definition bench_writer (wd : abspath) (filename : Path) (_ _ _ _ _ _ : unit)
    (_ _ _ : bool) (t : gmap abspath node) : gmap abspath node * result unit :=
  (<[resolve wd filename := File (txt "profiles")]> t, Ok tt).

(** a scheduler that answers every command with the given status and bytes *)
Definition bench_scheduler (code : Z) (out : list Byte.byte) (_ : text) (_ : abspath)
    (t : gmap abspath node) : gmap abspath node * (Z * list Byte.byte) :=
  (t, (code, out)).

Definition bench_launch (code : Z) (out : list Byte.byte) : M SolpsRun :=
  launch bench_required ["chi"%string] ["D"%string] unit bench_axis bench_profile
    bench_writer (bench_scheduler code out) bench_solps (clock 1000) 3
    bench_simulations bench_parameters.

(** the world after the case builder, and after the transport input *)
Definition bench_built : World :=
  (build_solps_case bench_required bench_reference bench_case bench_parameters
     bench_world).1.

Definition bench_prepared : World :=
  (write_transport_input ["chi"%string] ["D"%string] unit bench_axis bench_profile
     bench_writer bench_solps bench_case bench_parameters bench_built).1.

(** a run directory after the simulation, with and without its result *)
Definition bench_run : SolpsRun :=
  mkSolpsRun bench_parameters 3 bench_case (clock 1000) (txt "12345") 24.

Definition bench_tree_finished : gmap abspath node :=
  list_to_map
    [ (["tmp"], Dir); (["tmp"; "sim"], Dir); (["tmp"; "sim"; "run_3"], Dir);
      (["tmp"; "sim"; "run_3"; "balance.nc"], File (txt "results"));
      (["tmp"; "sim"; "run_3"; "input.dat"], File (txt "x = 0" ++ [nl]));
      (["tmp"; "sim"; "run_3"; "b2fstati"], File (txt "state"));
      (["tmp"; "sim"; "run_3"; "run.log"], File (txt "done"));
      (["tmp"; "sim"; "run_3"; "plots"], Dir);
      (["tmp"; "sim"; "run_3"; "plots"; "te.png"], File (txt "png")) ]%string.

Definition bench_world_finished : World :=
  mkWorld bench_tree_finished ["tmp"; "sim"]%string.

Definition bench_world_crashed : World :=
  mkWorld (delete ["tmp"; "sim"; "run_3"; "balance.nc"]%string bench_tree_finished)
          ["tmp"; "sim"]%string.

(** ** Further vocabulary *)

(** A computation started in directory [wd] that stays there and changes
    no entry outside the subtree rooted at [a]. *)
Definition confined {A : Type} (wd a : abspath) (m : M A) : Prop :=
  ∀ w, cwd w = wd →
       cwd (m w).1 = wd ∧ ∀ p, ¬ a `prefix_of` p → fs (m w).1 !! p = fs w !! p.

(** What the case builder puts under the name [n] of the case directory,
    read from the reference directory [r] of the tree [t0]: the base state
    under its new name, the input files that are present, and, when
    templates are processed, for each present template the lines as they
    were written. *)
Definition case_entry (t0 : gmap abspath node) (r : abspath) (templated : bool)
    (n : string) : option node :=
  if bool_decide (n = "b2fstati"%string) then t0 !! (r ++ ["b2fstate"%string])
  else if bool_decide (n ∈ input_files) && is_file t0 (r ++ [n]) then t0 !! (r ++ [n])
  else if templated && bool_decide (n ∈ present_templates t0 r)
       then Some (File (written_content (lines_of t0 (r ++ [n]))))
  else None.

(** the marker as the scheduler prints it *)
Definition marker_bytes : list Byte.byte := bytes_of "Submitted batch job".

(** a decimal digit *)
Definition is_digit (c : ascii) : bool :=
  (48 <=? nat_of_ascii c)%nat && (nat_of_ascii c <=? 57)%nat.

Definition digits (id : list Byte.byte) : Prop :=
  Forall (λ b, is_digit (ascii_of_byte b) = true) id.

(** ** More of the test bench *)



Definition bench_parameters_required : gmap string pyval :=
  list_to_map [ ("chi", PyFloat 1); ("D", PyFloat 2) ]%string.

(** no value for the key of the conductivity profile *)
Definition bench_parameters_no_chi : gmap string pyval :=
  list_to_map [ ("D", PyFloat 2); ("X", PyStr (txt "1.5")) ]%string.

Definition bench_built_no_chi : World :=
  (build_solps_case bench_required bench_reference bench_case
     bench_parameters_no_chi bench_world).1.

(** a queue that lists the job of [bench_run] *)
Definition bench_queue (_ : text) : result text := Ok (txt "JOBID NAME 12345 solps").

(** a queue that lists another job, whose id has the id of [bench_run]
    inside it *)
Definition bench_queue_other (_ : text) : result text :=
  Ok (txt "JOBID NAME 9123456 other").

(** runs launched at [9 * 2 ^ -40] seconds, the second one without a job
    id, and the clock at [86400 + 2 ^ -36] seconds *)
Definition bench_run_early : SolpsRun :=
  mkSolpsRun bench_parameters 3 bench_case (dyadic 9 (-40)) (txt "12345") 24.


Definition bench_clock_late : float := dyadic (86400 * 2 ^ 36 + 1) (-36).

(** every value a float, as the optimiser passes them; no template knows
    [Y] *)
Definition bench_parameters_floats : gmap string pyval :=
  list_to_map [ ("chi", PyFloat 1); ("D", PyFloat 2);
                ("X", PyFloat 1.5); ("Y", PyFloat 2.5) ]%string.


(** the simulations directory given relative to [/tmp] *)
Definition bench_simulations_relative : Path := mkPath false ["sim"%string].
Definition bench_world_tmp : World := mkWorld bench_tree ["tmp"%string].
Definition bench_relative_case : Path :=
  bench_simulations_relative // ("run_" +:+ pretty 3).

Definition bench_relative_built : World :=
  (build_solps_case bench_required bench_reference bench_relative_case
     bench_parameters bench_world_tmp).1.

Definition bench_relative_prepared : World :=
  (write_transport_input ["chi"%string] ["D"%string] unit bench_axis bench_profile
     bench_writer bench_solps bench_relative_case bench_parameters
     bench_relative_built).1.

(** * Properties *)

(** settle a closed decidable statement by evaluating it *)
Ltac by_evaluation := apply (bool_decide_unpack _); vm_compute; exact I.

(** ** Text lemmas *)

Lemma occurs_in_cons pat c s :
  occurs_in pat (c :: s) ↔ pat `prefix_of` (c :: s) ∨ occurs_in pat s.
Proof.
  split.
  - intros ([|c' pre] & suf & E).
    + left. by exists suf.
    + right. exists pre, suf. by simplify_eq/=.
  - intros [[suf E]|(pre & suf & E)].
    + by exists [], suf.
    + exists (c :: pre), suf. by rewrite E.
Qed.

Lemma contains_occurs pat s : contains pat s = true ↔ occurs_in pat s.
Proof.
  induction s as [|c s IH]; simpl.
  - case_bool_decide as Hp.
    + split; [intros _|done]. destruct Hp as [k Hk].
      exists [], k. done.
    + split; [done|]. intros (pre & suf & E). destruct Hp.
      destruct pre; [|done]. by exists suf.
  - rewrite occurs_in_cons. case_bool_decide as Hp; [tauto|].
    rewrite IH. tauto.
Qed.

Lemma contains_false pat s : contains pat s = false ↔ ¬ occurs_in pat s.
Proof. rewrite <- contains_occurs. by destruct (contains pat s). Qed.


Lemma resolve_pjoin wd p name : resolve wd (p // name) = resolve wd p ++ [name].
Proof. unfold resolve, pjoin; simpl. destruct (is_absolute p); by rewrite ?app_assoc. Qed.

(** ** Doubles *)

Lemma digits2_pos_spec m :
  2 ^ (Zpos (digits2_pos m) - 1) ≤ Zpos m < 2 ^ Zpos (digits2_pos m).
Proof.
  induction m as [m IH|m IH|]; simpl digits2_pos.
  - rewrite Pos2Z.inj_succ, Z.pow_succ_r by lia.
    replace (Z.succ (Zpos (digits2_pos m)) - 1) with (Z.succ (Zpos (digits2_pos m) - 1)) by lia.
    rewrite Z.pow_succ_r by lia. lia.
  - rewrite Pos2Z.inj_succ, Z.pow_succ_r by lia.
    replace (Z.succ (Zpos (digits2_pos m)) - 1) with (Z.succ (Zpos (digits2_pos m) - 1)) by lia.
    rewrite Z.pow_succ_r by lia. lia.
  - simpl. lia.
Qed.

Lemma digits2_pos_log2 m : Zpos (digits2_pos m) = Z.log2 (Zpos m) + 1.
Proof.
  pose proof (digits2_pos_spec m) as H.
  rewrite (Z.log2_unique (Zpos m) (Zpos (digits2_pos m) - 1)); [lia|lia|].
  replace (Z.succ (Zpos (digits2_pos m) - 1)) with (Zpos (digits2_pos m)) by lia. done.
Qed.

Lemma iter_xO m k : Zpos (Pos.iter xO m k) = Zpos m * 2 ^ Zpos k.
Proof.
  induction k as [|k IH] using Pos.peano_ind.
  - simpl. lia.
  - rewrite Pos.iter_succ, Pos2Z.inj_xO, IH, Pos2Z.inj_succ, Z.pow_succ_r by lia. lia.
Qed.

Lemma shl_align_spec m e e' :
  e' ≤ e →
  ∃ m', shl_align m e e' = (m', e') ∧ Zpos m' = Zpos m * 2 ^ (e - e').
Proof.
  intros He. unfold shl_align.
  destruct (e' - e) as [|d|d] eqn:Hd; [|lia|].
  - assert (e' = e) as -> by lia. exists m. rewrite Z.sub_diag. split; [done|]. simpl. lia.
  - exists (Pos.iter xO m d). split; [done|].
    rewrite iter_xO. f_equal. f_equal. lia.
Qed.

Lemma iter_pos_nat {A : Type} (f : A → A) p x :
  SpecFloat.iter_pos f p x = Nat.iter (Pos.to_nat p) f x.
Proof.
  revert x. induction p as [p IH|p IH|]; intros x; simpl SpecFloat.iter_pos.
  - rewrite !IH, Pos2Nat.inj_xI. 
    replace (S (2 * Pos.to_nat p))%nat with (Pos.to_nat p + (Pos.to_nat p + 1))%nat by lia.
    rewrite !Nat.iter_add. done.
  - rewrite !IH, Pos2Nat.inj_xO.
    replace (2 * Pos.to_nat p)%nat with (Pos.to_nat p + Pos.to_nat p)%nat by lia.
    rewrite Nat.iter_add. done.
  - done.
Qed.

Lemma shr_1_spec m r s :
  0 ≤ m → shr_1 (Build_shr_record m r s) = Build_shr_record (m / 2) (Z.odd m) (r || s).
Proof.
  intros Hm. rewrite <- Z.div2_div.
  destruct m as [|[p|p|]|]; try done; lia.
Qed.

Lemma location_step M n r s :
  0 ≤ M → 0 ≤ n →
  loc_of_shr_record (Build_shr_record (M / 2 ^ n) r s) = shift_location M n →
  loc_of_shr_record (Build_shr_record (M / 2 ^ n / 2) (Z.odd (M / 2 ^ n)) (r || s))
    = shift_location M (n + 1).
Proof.
  intros HM Hn. unfold shift_location.
  assert (Hp : 0 < 2 ^ n) by (apply Z.pow_pos_nonneg; lia).
  rewrite Z.pow_add_r, Z.pow_1_r by lia.
  rewrite (Z.rem_mul_r M (2 ^ n) 2) by lia.
  rewrite (Zmod_odd (M / 2 ^ n)).
  pose proof (Z.mod_pos_bound M (2 ^ n) Hp) as Hlow.
  set (low := M mod 2 ^ n) in *. set (p := 2 ^ n) in *.
  destruct (Z.eqb_spec low 0) as [H0|H0].
  - destruct r, s; simpl; try done; intros _.
    destruct (Z.odd _); simpl.
    + destruct (Z.eqb_spec (low + p * 1) 0); [lia|].
      f_equal. symmetry. apply Z.compare_eq_iff. lia.
    + destruct (Z.eqb_spec (low + p * 0) 0); [done|lia].
  - intros Hl. assert (r || s = true) as ->.
    { destruct r, s; try done. }
    destruct (Z.odd _); simpl.
    + destruct (Z.eqb_spec (low + p * 1) 0); [lia|].
      f_equal. symmetry. apply Z.compare_gt_iff. lia.
    + destruct (Z.eqb_spec (low + p * 0) 0); [lia|].
      f_equal. symmetry. apply Z.compare_lt_iff. lia.
Qed.

Lemma shr_iter M n :
  0 ≤ M →
  ∃ r s, Nat.iter n shr_1 (Build_shr_record M false false)
           = Build_shr_record (M / 2 ^ Z.of_nat n) r s
         ∧ loc_of_shr_record (Build_shr_record (M / 2 ^ Z.of_nat n) r s)
           = shift_location M (Z.of_nat n).
Proof.
  intros HM. induction n as [|n (r & s & E & L)].
  - exists false, false. simpl. rewrite Z.div_1_r. split; [done|].
    unfold shift_location. simpl. by rewrite Z.mod_1_r.
  - exists (Z.odd (M / 2 ^ Z.of_nat n)), (r || s).
    assert (Hp : 0 < 2 ^ Z.of_nat n) by (apply Z.pow_pos_nonneg; lia).
    rewrite Nat2Z.inj_succ, <- Z.add_1_r.
    replace (M / 2 ^ (Z.of_nat n + 1)) with (M / 2 ^ Z.of_nat n / 2).
    2:{ rewrite Z.pow_add_r, Z.pow_1_r by lia. rewrite Z.div_div by lia. done. }
    split.
    + simpl Nat.iter. rewrite E. apply shr_1_spec. apply Z.div_pos; lia.
    + apply location_step; [lia|lia|done].
Qed.

Lemma round_nearest_even_spec M n r s :
  0 ≤ M → 0 ≤ n →
  loc_of_shr_record (Build_shr_record (M / 2 ^ n) r s) = shift_location M n →
  round_nearest_even (M / 2 ^ n) (loc_of_shr_record (Build_shr_record (M / 2 ^ n) r s))
    = M / 2 ^ n + (if round_up M n then 1 else 0).
Proof.
  intros HM Hn ->. unfold shift_location, round_up, round_nearest_even.
  assert (Hp : 0 < 2 ^ n) by (apply Z.pow_pos_nonneg; lia).
  pose proof (Z.mod_pos_bound M (2 ^ n) Hp) as Hlow.
  set (low := M mod 2 ^ n) in *. set (p := 2 ^ n) in *. set (q := M / p).
  destruct (Z.eqb_spec low 0) as [H0|H0].
  - destruct (Z.ltb_spec p (2 * low)); [lia|].
    destruct (Z.eqb_spec p (2 * low)); [lia|]. simpl. lia.
  - destruct (Z.compare_spec (2 * low) p).
    + destruct (Z.ltb_spec p (2 * low)); [lia|].
      destruct (Z.eqb_spec p (2 * low)); [|lia]. simpl.
      rewrite <- Z.negb_odd. destruct (Z.odd q); simpl; lia.
    + destruct (Z.ltb_spec p (2 * low)); [lia|].
      destruct (Z.eqb_spec p (2 * low)); [lia|]. simpl. lia.
    + destruct (Z.ltb_spec p (2 * low)); [|lia]. simpl. lia.
Qed.

Lemma fexp_eq e : fexp 53 1024 e = Z.max (e - 53) (-1074).
Proof. reflexivity. Qed.

Lemma pow2_pos n : 0 ≤ n → 0 < 2 ^ n.
Proof. intros. apply Z.pow_pos_nonneg; lia. Qed.

Lemma digits2_pos_unique m d :
  2 ^ (d - 1) ≤ Zpos m < 2 ^ d → Zpos (digits2_pos m) = d.
Proof.
  intros H. assert (0 < d).
  { destruct (Z.lt_trichotomy d 0) as [Hd|[->|Hd]]; [|simpl in H; lia|done].
    rewrite (Z.pow_neg_r 2 d) in H by lia. lia. }
  rewrite digits2_pos_log2, (Z.log2_unique (Zpos m) (d - 1)); [lia|lia|].
  by replace (Z.succ (d - 1)) with d by lia.
Qed.

(** a mantissa that is canonical for its exponent *)
Lemma canonical_range m e :
  fexp 53 1024 (Zpos (digits2_pos m) + e) = e →
  -1074 ≤ e ∧ Zpos m < 2 ^ 53 ∧ (-1074 < e → 2 ^ 52 ≤ Zpos m).
Proof.
  rewrite fexp_eq. intros H. pose proof (digits2_pos_spec m) as Hd.
  split; [lia|]. split.
  - eapply Z.lt_le_trans; [apply Hd|]. apply Z.pow_le_mono_r; lia.
  - intros He. assert (Zpos (digits2_pos m) = 53) as Hd53 by lia.
    rewrite Hd53 in Hd. apply Hd.
Qed.

Lemma range_canonical m e :
  -1074 ≤ e → 2 ^ 52 ≤ Zpos m < 2 ^ 53 →
  fexp 53 1024 (Zpos (digits2_pos m) + e) = e.
Proof.
  intros He Hm. rewrite (digits2_pos_unique m 53) by (simpl Z.sub; lia).
  rewrite fexp_eq. lia.
Qed.

Lemma canonical_bound m e :
  fexp 53 1024 (Zpos (digits2_pos m) + e) = e →
  (e ≤ 971 ↔ Zpos m * 2 ^ (e + 1074) < 2 ^ 2098).
Proof.
  intros H. destruct (canonical_range m e H) as (He & Hm & Hn).
  assert (Hp : 0 < 2 ^ (e + 1074)) by (apply pow2_pos; lia).
  split.
  - intros Hle. apply Z.lt_le_trans with (2 ^ 53 * 2 ^ (e + 1074)).
    + apply Z.mul_lt_mono_pos_r; lia.
    + rewrite <- Z.pow_add_r by lia. apply Z.pow_le_mono_r; lia.
  - intros Hlt. destruct (Z.le_gt_cases e 971) as [|Hgt]; [done|].
    exfalso. apply (Z.lt_irrefl (2 ^ 2098)).
    eapply Z.le_lt_trans; [|exact Hlt].
    apply Z.le_trans with (2 ^ 52 * 2 ^ (e + 1074)).
    + rewrite <- Z.pow_add_r by lia. apply Z.pow_le_mono_r; lia.
    + apply Z.mul_le_mono_nonneg_r; [lia|]. apply Hn. lia.
Qed.

Lemma shr_fexp_canonical m e :
  fexp 53 1024 (Zpos (digits2_pos m) + e) = e →
  shr_fexp 53 1024 (Zpos m) e loc_Exact = (Build_shr_record (Zpos m) false false, e).
Proof.
  intros H. unfold shr_fexp. simpl Zdigits2. rewrite H, Z.sub_diag. done.
Qed.

Lemma binary_round_aux_canonical sx m e :
  fexp 53 1024 (Zpos (digits2_pos m) + e) = e →
  binary_round_aux 53 1024 sx (Zpos m) e loc_Exact
    = if e <=? 971 then S754_finite sx m e else S754_infinity sx.
Proof.
  intros H. unfold binary_round_aux.
  rewrite (shr_fexp_canonical m e H). simpl.
  rewrite (shr_fexp_canonical m e H). done.
Qed.

Lemma shr_fexp_shift m e n :
  fexp 53 1024 (Zpos (digits2_pos m) + e) - e = n → 0 < n →
  ∃ r s, shr_fexp 53 1024 (Zpos m) e loc_Exact
           = (Build_shr_record (Zpos m / 2 ^ n) r s, e + n)
         ∧ loc_of_shr_record (Build_shr_record (Zpos m / 2 ^ n) r s)
           = shift_location (Zpos m) n.
Proof.
  intros Hn Hpos. unfold shr_fexp. simpl Zdigits2. rewrite Hn.
  destruct n as [|p|p]; [lia| |lia].
  unfold shr. simpl shr_record_of_loc. rewrite iter_pos_nat.
  destruct (shr_iter (Zpos m) (Pos.to_nat p)) as (r & s & E & L); [lia|].
  rewrite positive_nat_Z in E, L. exists r, s. by rewrite E.
Qed.

Lemma round_up_scale M n k :
  0 ≤ n → 0 ≤ k →
  (M * 2 ^ k) / 2 ^ (n + k) = M / 2 ^ n ∧ round_up (M * 2 ^ k) (n + k) = round_up M n.
Proof.
  intros Hn Hk. unfold round_up.
  assert (Hpn : 0 < 2 ^ n) by (by apply pow2_pos).
  assert (Hpk : 0 < 2 ^ k) by (by apply pow2_pos).
  rewrite Z.pow_add_r by lia.
  rewrite Z.div_mul_cancel_r by lia.
  rewrite Z.mul_mod_distr_r by lia.
  split; [done|].
  set (low := M mod 2 ^ n). set (p := 2 ^ n) in *. set (c := 2 ^ k) in *.
  f_equal; [|f_equal].
  - destruct (Z.ltb_spec (p * c) (2 * (low * c))), (Z.ltb_spec p (2 * low)); try done; nia.
  - destruct (Z.eqb_spec (p * c) (2 * (low * c))), (Z.eqb_spec p (2 * low)); try done; nia.
Qed.

Lemma nearest_scaled M n k :
  0 < M → 0 ≤ n → 0 ≤ k →
  Z.max (Z.log2 (M * 2 ^ k) + 1 - 53) 0 = n + k →
  nearest (M * 2 ^ k) = (M / 2 ^ n + (if round_up M n then 1 else 0)) * 2 ^ (n + k).
Proof.
  intros HM Hn Hk Hs. unfold nearest. cbv zeta. rewrite Hs.
  destruct (round_up_scale M n k Hn Hk) as [-> ->]. done.
Qed.

Lemma digits2_pos_scaled m m' k :
  0 ≤ k → Zpos m' = Zpos m * 2 ^ k →
  Zpos (digits2_pos m') = Zpos (digits2_pos m) + k.
Proof.
  intros Hk E. rewrite !digits2_pos_log2, E, Z.log2_mul_pow2 by lia. lia.
Qed.

Lemma nearest_canonical m e :
  fexp 53 1024 (Zpos (digits2_pos m) + e) = e →
  nearest (Zpos m * 2 ^ (e + 1074)) = Zpos m * 2 ^ (e + 1074).
Proof.
  intros H. rewrite fexp_eq in H.
  rewrite (nearest_scaled (Zpos m) 0 (e + 1074)); [|lia|lia|lia|].
  - rewrite Z.add_0_l. unfold round_up. rewrite Z.pow_0_r, Z.mod_1_r, Z.div_1_r.
    change ((1 <? 2 * 0) || (1 =? 2 * 0) && Z.odd (Zpos m)) with false. lia.
  - rewrite Z.log2_mul_pow2 by lia. rewrite digits2_pos_log2 in H. lia.
Qed.

(** what a canonical mantissa and exponent are turned into *)
Lemma round_canonical sx m e :
  fexp 53 1024 (Zpos (digits2_pos m) + e) = e →
  let R := if e <=? 971 then S754_finite sx m e else S754_infinity sx in
  valid_binary 53 1024 R = true ∧ R ≠ S754_nan ∧
  float_scaled R = cond_Zopp sx (rounded (Zpos m * 2 ^ (e + 1074))).
Proof.
  intros H R. subst R. unfold rounded. rewrite (nearest_canonical m e H).
  pose proof (canonical_bound m e H) as Hb.
  destruct (Z.leb_spec e 971) as [Hle|Hgt].
  - split; [|split; [done|]].
    + simpl. unfold bounded, canonical_mantissa. rewrite H, Z.eqb_refl. simpl.
      by apply Z.leb_le.
    + destruct (Z.leb_spec (2 ^ 2098) (Zpos m * 2 ^ (e + 1074))); [lia|done].
  - split; [done|]. split; [done|].
    destruct (Z.leb_spec (2 ^ 2098) (Zpos m * 2 ^ (e + 1074))); [done|lia].
Qed.

Lemma binary_round_spec sx mx ex :
  -1074 ≤ ex →
  valid_binary 53 1024 (binary_round 53 1024 sx mx ex) = true ∧
  binary_round 53 1024 sx mx ex ≠ S754_nan ∧
  float_scaled (binary_round 53 1024 sx mx ex)
    = cond_Zopp sx (rounded (Zpos mx * 2 ^ (ex + 1074))).
Proof.
  intros He. unfold binary_round.
  pose proof (digits2_pos_spec mx) as Hd.
  set (d := Zpos (digits2_pos mx)) in *.
  pose proof (fexp_eq (d + ex)) as HE.
  set (E := fexp 53 1024 (d + ex)) in *.
  destruct (Z.le_gt_cases E ex) as [Hle|Hgt].
  - destruct (shl_align_spec mx ex E Hle) as (mz & -> & Hmz).
    assert (Hc : fexp 53 1024 (Zpos (digits2_pos mz) + E) = E).
    { rewrite (digits2_pos_scaled mx mz (ex - E)) by (done || lia).
      fold d. replace (d + (ex - E) + E) with (d + ex) by lia. done. }
    rewrite (binary_round_aux_canonical sx mz E Hc).
    replace (Zpos mx * 2 ^ (ex + 1074)) with (Zpos mz * 2 ^ (E + 1074)).
    { apply (round_canonical sx mz E Hc). }
    rewrite Hmz, <- Z.mul_assoc, <- Z.pow_add_r by lia. f_equal. f_equal. lia.
  - assert (shl_align mx ex E = (mx, ex)) as ->.
    { unfold shl_align. destruct (E - ex) eqn:?; try done; lia. }
    assert (Hn : 0 < E - ex) by lia.
    assert (HEd : E = d + ex - 53) by lia.
    set (n := E - ex) in *.
    assert (Hnd : d = n + 53) by lia.
    assert (Hq : 2 ^ 52 ≤ Zpos mx / 2 ^ n < 2 ^ 53).
    { assert (0 < 2 ^ n) by (apply pow2_pos; lia). split.
      - apply Z.div_le_lower_bound; [lia|].
        rewrite <- Z.pow_add_r by lia. replace (n + 52) with (d - 1) by lia. lia.
      - apply Z.div_lt_upper_bound; [lia|].
        rewrite <- Z.pow_add_r by lia. replace (n + 53) with d by lia. lia. }
    destruct (shr_fexp_shift mx ex n) as (r & s & Hshr & Hloc); [done|done|].
    unfold binary_round_aux. rewrite Hshr. cbv beta iota.
    change (shr_m {| shr_m := Zpos mx / 2 ^ n; shr_r := r; shr_s := s |})
      with (Zpos mx / 2 ^ n).
    rewrite (round_nearest_even_spec (Zpos mx) n r s) by (lia || done).
    replace (ex + n) with E by lia.
    assert (Hnear : nearest (Zpos mx * 2 ^ (ex + 1074))
              = (Zpos mx / 2 ^ n + (if round_up (Zpos mx) n then 1 else 0))
                * 2 ^ (E + 1074)).
    { rewrite (nearest_scaled (Zpos mx) n (ex + 1074)); [|lia|lia|lia|].
      - f_equal. f_equal. lia.
      - rewrite Z.log2_mul_pow2 by lia. 
        pose proof (digits2_pos_log2 mx). fold d in H. lia. }
    set (m1 := Zpos mx / 2 ^ n + (if round_up (Zpos mx) n then 1 else 0)) in *.
    assert (Hm1 : 2 ^ 52 ≤ m1 ≤ 2 ^ 53) by (subst m1; destruct (round_up _ _); lia).
    destruct (Z.eq_dec m1 (2 ^ 53)) as [Heq|Hne].
    + rewrite Heq in *. 
      assert (Hc : fexp 53 1024 (Zpos (digits2_pos 4503599627370496) + (E + 1)) = E + 1).
      { apply range_canonical; [lia|]. split; [done|]. done. }
      assert (shr_fexp 53 1024 (2 ^ 53) E loc_Exact
              = (Build_shr_record 4503599627370496 false false, E + 1)) as ->.
      { change (2 ^ 53) with 9007199254740992. unfold shr_fexp.
        change (Zdigits2 9007199254740992) with 54.
        rewrite fexp_eq. replace (Z.max (54 + E - 53) (-1074) - E) with 1 by lia.
        done. }
      cbv beta iota. 
      change (shr_m {| shr_m := 4503599627370496; shr_r := false; shr_s := false |})
        with 4503599627370496. cbv beta iota.
      change (1024 - 53) with 971.
      unfold rounded. rewrite Hnear.
      replace (2 ^ 53 * 2 ^ (E + 1074)) with (4503599627370496 * 2 ^ (E + 1 + 1074)).
      2:{ replace (E + 1 + 1074) with (1 + (E + 1074)) by lia.
          rewrite Z.pow_add_r by lia. change (2 ^ 53) with 9007199254740992.
          change (2 ^ 1) with 2. lia. }
      pose proof (round_canonical sx 4503599627370496 (E + 1) Hc) as HR.
      unfold rounded in HR. rewrite (nearest_canonical _ _ Hc) in HR. exact HR.
    + destruct m1 as [|p|p] eqn:Hp; [lia| |lia].
      assert (Hc : fexp 53 1024 (Zpos (digits2_pos p) + E) = E).
      { apply range_canonical; lia. }
      rewrite (shr_fexp_canonical p E Hc). cbv beta iota.
      change (shr_m {| shr_m := Zpos p; shr_r := false; shr_s := false |}) with (Zpos p).
      cbv beta iota. change (1024 - 53) with 971.
      unfold rounded. rewrite Hnear.
      pose proof (round_canonical sx p E Hc) as HR.
      unfold rounded in HR. rewrite (nearest_canonical _ _ Hc) in HR. exact HR.
Qed.

Lemma rounded_signed_pos D : 0 < D → rounded_signed D = rounded D.
Proof. destruct D; done || lia. Qed.

Lemma rounded_signed_neg D : D < 0 → rounded_signed D = - rounded (- D).
Proof. destruct D; done || lia. Qed.

Lemma binary_normalize_spec M e :
  -1074 ≤ e →
  valid_binary 53 1024 (binary_normalize 53 1024 M e false) = true ∧
  binary_normalize 53 1024 M e false ≠ S754_nan ∧
  float_scaled (binary_normalize 53 1024 M e false) = rounded_signed (M * 2 ^ (e + 1074)).
Proof.
  intros He. assert (Hp : 0 < 2 ^ (e + 1074)) by (apply pow2_pos; lia).
  destruct M as [|m|m]; unfold binary_normalize.
  - done.
  - rewrite rounded_signed_pos by lia. apply (binary_round_spec false m e He).
  - rewrite rounded_signed_neg by lia.
    replace (- (Zneg m * 2 ^ (e + 1074))) with (Zpos m * 2 ^ (e + 1074)) by lia.
    apply (binary_round_spec true m e He).
Qed.

(** rounding keeps the order *)

Lemma nearest_bounds D :
  0 < D → 2 ^ Z.log2 D ≤ nearest D ≤ 2 ^ (Z.log2 D + 1).
Proof.
  intros HD. unfold nearest. cbv zeta.
  pose proof (Z.log2_spec D HD) as Hl. pose proof (Z.log2_nonneg D) as Hl0.
  rewrite <- Z.add_1_r in Hl.
  set (l := Z.log2 D) in *. set (s := Z.max (l + 1 - 53) 0).
  assert (Hs : 0 ≤ s ≤ l) by lia.
  assert (Hp : 0 < 2 ^ s) by (apply pow2_pos; lia).
  assert (Hlo : 2 ^ (l - s) ≤ D / 2 ^ s).
  { apply Z.div_le_lower_bound; [lia|]. rewrite <- Z.pow_add_r by lia.
    replace (s + (l - s)) with l by lia. lia. }
  assert (Hhi : D / 2 ^ s < 2 ^ (l + 1 - s)).
  { apply Z.div_lt_upper_bound; [lia|]. rewrite <- Z.pow_add_r by lia.
    replace (s + (l + 1 - s)) with (l + 1) by lia. lia. }
  replace (2 ^ l) with (2 ^ (l - s) * 2 ^ s)
    by (rewrite <- Z.pow_add_r by lia; f_equal; lia).
  replace (2 ^ (l + 1)) with (2 ^ (l + 1 - s) * 2 ^ s)
    by (rewrite <- Z.pow_add_r by lia; f_equal; lia).
  split; apply Z.mul_le_mono_nonneg_r; try lia; destruct (round_up D s); lia.
Qed.

Lemma nearest_monotone D1 D2 : 0 < D1 → D1 ≤ D2 → nearest D1 ≤ nearest D2.
Proof.
  intros H1 H12.
  pose proof (Z.log2_le_mono D1 D2 H12) as Hl.
  destruct (Z.eq_dec (Z.log2 D1) (Z.log2 D2)) as [Heq|Hne].
  - unfold nearest. cbv zeta. rewrite Heq.
    set (s := Z.max (Z.log2 D2 + 1 - 53) 0).
    assert (Hp : 0 < 2 ^ s) by (apply pow2_pos; lia).
    apply Z.mul_le_mono_nonneg_r; [lia|].
    pose proof (Z.div_le_mono D1 D2 (2 ^ s) Hp H12) as Hq.
    destruct (Z.eq_dec (D1 / 2 ^ s) (D2 / 2 ^ s)) as [Hqe|Hqn].
    + assert (Hr : D1 mod 2 ^ s ≤ D2 mod 2 ^ s).
      { rewrite !Z.mod_eq by lia. rewrite Hqe. lia. }
      unfold round_up. rewrite Hqe.
      set (r1 := D1 mod 2 ^ s) in *. set (r2 := D2 mod 2 ^ s) in *.
      destruct (Z.ltb_spec (2 ^ s) (2 * r1)), (Z.ltb_spec (2 ^ s) (2 * r2));
        destruct (Z.eqb_spec (2 ^ s) (2 * r1)), (Z.eqb_spec (2 ^ s) (2 * r2));
        destruct (Z.odd (D2 / 2 ^ s)); simpl; lia.
    + destruct (round_up D1 s), (round_up D2 s); lia.
  - apply Z.le_trans with (2 ^ (Z.log2 D1 + 1)); [apply nearest_bounds; lia|].
    apply Z.le_trans with (2 ^ Z.log2 D2); [|apply nearest_bounds; lia].
    apply Z.pow_le_mono_r; lia.
Qed.

Lemma rounded_pos D : 0 < D → 0 < rounded D.
Proof.
  intros HD. unfold rounded. pose proof (nearest_bounds D HD) as [Hn _].
  assert (0 < 2 ^ Z.log2 D) by (apply pow2_pos, Z.log2_nonneg).
  destruct (_ <=? _); [done|lia].
Qed.

Lemma rounded_monotone D1 D2 : 0 < D1 → D1 ≤ D2 → rounded D1 ≤ rounded D2.
Proof.
  intros H1 H12. unfold rounded. pose proof (nearest_monotone D1 D2 H1 H12).
  assert (2 ^ 2098 ≤ 2 ^ 2100) by (apply Z.pow_le_mono_r; lia).
  destruct (Z.leb_spec (2 ^ 2098) (nearest D1)), (Z.leb_spec (2 ^ 2098) (nearest D2)); lia.
Qed.

Lemma rounded_signed_monotone D1 D2 :
  D1 ≤ D2 → rounded_signed D1 ≤ rounded_signed D2.
Proof.
  intros H.
  destruct (Z.lt_trichotomy D1 0) as [H1|[->|H1]];
    destruct (Z.lt_trichotomy D2 0) as [H2|[->|H2]]; try lia.
  - rewrite (rounded_signed_neg D1), (rounded_signed_neg D2) by lia.
    pose proof (rounded_monotone (- D2) (- D1)). lia.
  - rewrite (rounded_signed_neg D1) by lia. simpl rounded_signed.
    pose proof (rounded_pos (- D1)). lia.
  - rewrite (rounded_signed_neg D1), (rounded_signed_pos D2) by lia.
    pose proof (rounded_pos (- D1)). pose proof (rounded_pos D2). lia.
  - rewrite (rounded_signed_pos D2) by lia. simpl rounded_signed.
    pose proof (rounded_pos D2). lia.
  - rewrite !rounded_signed_pos by lia. by apply rounded_monotone.
Qed.

(** comparison of valid floats is comparison of their values *)

Lemma valid_finite_inv s m e :
  valid_binary 53 1024 (S754_finite s m e) = true →
  fexp 53 1024 (Zpos (digits2_pos m) + e) = e ∧ e ≤ 971.
Proof.
  simpl. unfold bounded, canonical_mantissa. intros H.
  apply andb_prop in H as [H1 H2]. apply Z.eqb_eq in H1. apply Z.leb_le in H2.
  split; [done|]. exact H2.
Qed.

Lemma valid_finite_scaled s m e :
  valid_binary 53 1024 (S754_finite s m e) = true →
  0 < Zpos m * 2 ^ (e + 1074) < 2 ^ 2098.
Proof.
  intros H. apply valid_finite_inv in H as [Hc He].
  destruct (canonical_range m e Hc) as (He' & _).
  split; [|by apply canonical_bound].
  apply Z.mul_pos_pos; [lia|]. apply pow2_pos. lia.
Qed.

Lemma canonical_lt m1 e1 m2 e2 :
  fexp 53 1024 (Zpos (digits2_pos m1) + e1) = e1 →
  fexp 53 1024 (Zpos (digits2_pos m2) + e2) = e2 →
  e1 < e2 → Zpos m1 * 2 ^ (e1 + 1074) < Zpos m2 * 2 ^ (e2 + 1074).
Proof.
  intros H1 H2 Hlt.
  destruct (canonical_range m1 e1 H1) as (He1 & Hm1 & _).
  destruct (canonical_range m2 e2 H2) as (He2 & _ & Hm2).
  assert (0 < 2 ^ (e1 + 1074)) by (apply pow2_pos; lia).
  assert (0 < 2 ^ (e2 + 1074)) by (apply pow2_pos; lia).
  apply Z.lt_le_trans with (2 ^ 53 * 2 ^ (e1 + 1074)).
  { apply Z.mul_lt_mono_pos_r; lia. }
  apply Z.le_trans with (2 ^ 52 * 2 ^ (e2 + 1074)).
  { rewrite <- !Z.pow_add_r by lia. apply Z.pow_le_mono_r; lia. }
  apply Z.mul_le_mono_nonneg_r; [lia|]. apply Hm2. lia.
Qed.

Lemma canonical_compare m1 e1 m2 e2 :
  fexp 53 1024 (Zpos (digits2_pos m1) + e1) = e1 →
  fexp 53 1024 (Zpos (digits2_pos m2) + e2) = e2 →
  match e1 ?= e2 with
  | Lt => Lt
  | Gt => Gt
  | Eq => Pos.compare_cont Eq m1 m2
  end = (Zpos m1 * 2 ^ (e1 + 1074) ?= Zpos m2 * 2 ^ (e2 + 1074)).
Proof.
  intros H1 H2. destruct (Z.compare_spec e1 e2) as [->|Hlt|Hgt].
  - destruct (canonical_range m2 e2 H2) as (He2 & _).
    assert (0 < 2 ^ (e2 + 1074)) by (apply pow2_pos; lia).
    change (Pos.compare_cont Eq m1 m2) with (m1 ?= m2)%positive.
    destruct (Pos.compare_spec m1 m2) as [->|Hm|Hm]; symmetry.
    + apply Z.compare_eq_iff. done.
    + apply Z.compare_lt_iff. apply Z.mul_lt_mono_pos_r; lia.
    + apply Z.compare_gt_iff. apply Z.mul_lt_mono_pos_r; lia.
  - symmetry. apply Z.compare_lt_iff. by apply canonical_lt.
  - symmetry. apply Z.compare_gt_iff. by apply canonical_lt.
Qed.

Lemma some_compare_lt a b : a < b → Some Lt = Some (a ?= b).
Proof. intros H. apply Z.compare_lt_iff in H. by rewrite H. Qed.

Lemma some_compare_gt a b : b < a → Some Gt = Some (a ?= b).
Proof. intros H. apply Z.compare_gt_iff in H. by rewrite H. Qed.

Lemma some_compare_eq a b : a = b → Some Eq = Some (a ?= b).
Proof. intros H. apply Z.compare_eq_iff in H. by rewrite H. Qed.

Lemma compare_scaled x y :
  float_valid x → float_valid y → x ≠ S754_nan → y ≠ S754_nan →
  SFcompare x y = Some (float_scaled x ?= float_scaled y).
Proof.
  unfold float_valid. intros Hx Hy Nx Ny.
  assert (B : 2 ^ 2098 < 2 ^ 2100) by (apply Z.pow_lt_mono_r; lia).
  assert (B0 : 0 < 2 ^ 2098) by (apply pow2_pos; lia).
  destruct x as [sx|sx| |sx mx ex]; [| |by destruct Nx|];
    (destruct y as [sy|sy| |sy my ey]; [| |by destruct Ny|]);
    try (pose proof (valid_finite_scaled _ _ _ Hx));
    try (pose proof (valid_finite_scaled _ _ _ Hy));
    unfold SFcompare, float_scaled, cond_Zopp.
  - by apply some_compare_eq.
  - destruct sy; [apply some_compare_gt | apply some_compare_lt]; lia.
  - destruct sy; [apply some_compare_gt | apply some_compare_lt]; lia.
  - destruct sx; [apply some_compare_lt | apply some_compare_gt]; lia.
  - destruct sx, sy;
      [apply some_compare_eq | apply some_compare_lt
      | apply some_compare_gt | apply some_compare_eq]; lia.
  - destruct sx, sy;
      [apply some_compare_lt | apply some_compare_lt
      | apply some_compare_gt | apply some_compare_gt]; lia.
  - destruct sx; [apply some_compare_lt | apply some_compare_gt]; lia.
  - destruct sx, sy;
      [apply some_compare_gt | apply some_compare_lt
      | apply some_compare_gt | apply some_compare_lt]; lia.
  - apply valid_finite_inv in Hx as [Hcx _]. apply valid_finite_inv in Hy as [Hcy _].
    destruct sx, sy.
    + rewrite Z.compare_opp, <- (canonical_compare my ey mx ex Hcy Hcx).
      rewrite (Z.compare_antisym ex ey). f_equal.
      destruct (ex ?= ey); simpl; try done.
      symmetry. apply (Pos.compare_antisym mx my).
    + apply some_compare_lt. lia.
    + apply some_compare_gt. lia.
    + f_equal. by apply canonical_compare.
Qed.

(** the order of the comparison is transitive, valid or not *)
Lemma float_lt_le_trans a b c :
  SFltb a b = true → SFleb b c = true → SFltb a c = true.
Proof.
  unfold SFltb, SFleb, SFcompare.
  destruct a as [sa|sa| |sa ma ea], b as [sb|sb| |sb mb eb], c as [sc|sc| |sc mc ec];
    try done;
    try (destruct sa; try done); try (destruct sb; try done);
    try (destruct sc; try done);
    change (Pos.compare_cont Eq) with Pos.compare;
    repeat match goal with
      | |- context [Z.compare ?x ?y] => destruct (Z.compare_spec x y)
      | |- context [Pos.compare ?x ?y] => destruct (Pos.compare_spec x y)
      end; simpl; try done; lia.
Qed.

(** subtraction *)

Lemma rounded_signed_valid x :
  float_valid x → float_finite x = true →
  rounded_signed (float_scaled x) = float_scaled x.
Proof.
  unfold float_valid. intros Hx Fx. destruct x as [s|s| |s m e]; try done.
  pose proof (valid_finite_scaled s m e Hx) as Hv.
  apply valid_finite_inv in Hx as [Hc _].
  assert (Hr : rounded (Zpos m * 2 ^ (e + 1074)) = Zpos m * 2 ^ (e + 1074)).
  { unfold rounded. rewrite (nearest_canonical m e Hc).
    destruct (Z.leb_spec (2 ^ 2098) (Zpos m * 2 ^ (e + 1074))); [lia|done]. }
  unfold float_scaled, cond_Zopp. destruct s.
  - rewrite rounded_signed_neg by lia. rewrite Z.opp_involutive, Hr. done.
  - rewrite rounded_signed_pos by lia. done.
Qed.

Lemma float_sub_finite x z :
  float_valid x → float_valid z → float_finite x = true → float_finite z = true →
  float_valid (SFsub 53 1024 x z) ∧ SFsub 53 1024 x z ≠ S754_nan ∧
  float_scaled (SFsub 53 1024 x z) = rounded_signed (float_scaled x - float_scaled z).
Proof.
  intros Hx Hz Fx Fz.
  destruct x as [sx|sx| |sx mx ex]; try done;
    destruct z as [sz|sz| |sz mz ez]; try done.
  - split; [by destruct sx, sz|]. split; [by destruct sx, sz|]. by destruct sx, sz.
  - change (SFsub 53 1024 (S754_zero sx) (S754_finite sz mz ez))
      with (S754_finite (negb sz) mz ez).
    assert (Hv : float_valid (S754_finite (negb sz) mz ez)) by exact Hz.
    split; [done|]. split; [done|].
    rewrite <- (rounded_signed_valid _ Hv) by done.
    f_equal. unfold float_scaled, cond_Zopp. destruct sz; simpl negb; cbv iota; lia.
  - change (SFsub 53 1024 (S754_finite sx mx ex) (S754_zero sz))
      with (S754_finite sx mx ex).
    split; [done|]. split; [done|].
    rewrite <- (rounded_signed_valid _ Hx) at 1 by done.
    f_equal. unfold float_scaled at 3. lia.
  - unfold SFsub.
    apply valid_finite_inv in Hx as [Hcx _]. apply valid_finite_inv in Hz as [Hcz _].
    destruct (canonical_range mx ex Hcx) as (Hex & _).
    destruct (canonical_range mz ez Hcz) as (Hez & _).
    cbv zeta.
    destruct (shl_align_spec mx ex (Z.min ex ez)) as (mx' & -> & Hmx); [lia|].
    destruct (shl_align_spec mz ez (Z.min ex ez)) as (mz' & -> & Hmz); [lia|].
    cbn [fst].
    assert (He : -1074 ≤ Z.min ex ez) by lia.
    destruct (binary_normalize_spec
                (cond_Zopp sx (Zpos mx') - cond_Zopp sz (Zpos mz')) (Z.min ex ez) He)
      as (Hv & Hn & Ho).
    split; [done|]. split; [done|]. rewrite Ho. f_equal.
    assert (Ax : Zpos mx' * 2 ^ (Z.min ex ez + 1074) = Zpos mx * 2 ^ (ex + 1074)).
    { rewrite Hmx, <- Z.mul_assoc, <- Z.pow_add_r by lia. f_equal. f_equal. lia. }
    assert (Az : Zpos mz' * 2 ^ (Z.min ex ez + 1074) = Zpos mz * 2 ^ (ez + 1074)).
    { rewrite Hmz, <- Z.mul_assoc, <- Z.pow_add_r by lia. f_equal. f_equal. lia. }
    unfold float_scaled, cond_Zopp. rewrite Z.mul_sub_distr_r.
    destruct sx, sz; rewrite ?Z.mul_opp_l, Ax, Az; done.
Qed.

Lemma SFltb_nan_r a : SFltb a S754_nan = false.
Proof. by destruct a. Qed.

Lemma SFltb_neg_infinity a : SFltb a (S754_infinity true) = false.
Proof. by destruct a as [s|[|]| |s m e]. Qed.

Lemma SFltb_infinity a b :
  SFltb a b = true → SFltb a (S754_infinity false) = true.
Proof.
  destruct a as [s|[|]| |s m e]; try done.
  by destruct b as [s|[|]| |s m e].
Qed.

Lemma SFleb_scaled x y :
  float_valid x → float_valid y → x ≠ S754_nan → y ≠ S754_nan →
  SFleb x y = true ↔ float_scaled x ≤ float_scaled y.
Proof.
  intros Hx Hy Nx Ny. unfold SFleb. rewrite (compare_scaled x y Hx Hy Nx Ny).
  destruct (Z.compare_spec (float_scaled x) (float_scaled y)); split; try done; lia.
Qed.

(** [time() - launch_time] does not go down when the clock goes up *)
Lemma float_sub_monotone limit x y z :
  float_valid x → float_valid y → float_valid z →
  SFleb x y = true →
  SFltb limit (SFsub 53 1024 x z) = true →
  SFltb limit (SFsub 53 1024 y z) = true.
Proof.
  intros Hx Hy Hz Hle Hlt.
  destruct (float_finite z) eqn:Fz.
  - destruct (float_finite x) eqn:Fx.
    + destruct (float_finite y) eqn:Fy.
      * destruct (float_sub_finite x z Hx Hz Fx Fz) as (Vx & Nx & Ox).
        destruct (float_sub_finite y z Hy Hz Fy Fz) as (Vy & Ny & Oy).
        apply (float_lt_le_trans _ _ _ Hlt).
        apply SFleb_scaled; try done. rewrite Ox, Oy.
        apply rounded_signed_monotone.
        assert (float_scaled x ≤ float_scaled y); [|lia].
        apply SFleb_scaled; try done; by destruct x, y.
      * destruct y as [sy|[|]| |sy my ey]; try done.
        -- by destruct x.
        -- replace (SFsub 53 1024 (S754_infinity false) z) with (S754_infinity false)
             by (by destruct z).
           by apply SFltb_infinity with (SFsub 53 1024 x z).
        -- by destruct x.
    + destruct x as [sx|[|]| |sx mx ex]; try done.
      * replace (SFsub 53 1024 (S754_infinity true) z) with (S754_infinity true) in Hlt
          by (by destruct z).
        by rewrite SFltb_neg_infinity in Hlt.
      * destruct y as [sy|[|]| |sy my ey]; try done.
  - destruct z as [sz|[|]| |sz mz ez]; try done.
    + destruct x as [sx|[|]| |sx mx ex], y as [sy|[|]| |sy my ey]; try done;
        simpl in Hlt; by rewrite ?SFltb_nan_r in Hlt.
    + destruct x as [sx|[|]| |sx mx ex]; simpl in Hlt;
        rewrite ?SFltb_nan_r, ?SFltb_neg_infinity in Hlt; done.
    + destruct x; simpl in Hlt; by rewrite SFltb_nan_r in Hlt.
Qed.

(** *** Numbers that need no rounding *)

Lemma round_up_0 M : round_up M 0 = false.
Proof. unfold round_up. by rewrite Z.pow_0_r, Z.mod_1_r. Qed.

Lemma nearest_exact M k :
  0 < M < 2 ^ 53 → 0 ≤ k → nearest (M * 2 ^ k) = M * 2 ^ k.
Proof.
  intros HM Hk.
  assert (Hl : Z.log2 M < 53) by (apply Z.log2_lt_pow2; lia).
  pose proof (Z.log2_nonneg M) as Hl0.
  set (s := Z.max (Z.log2 (M * 2 ^ k) + 1 - 53) 0).
  assert (Hs : 0 ≤ s ≤ k) by (subst s; rewrite Z.log2_mul_pow2 by lia; lia).
  assert (E : M * 2 ^ k = M * 2 ^ (k - s) * 2 ^ s).
  { rewrite <- Z.mul_assoc, <- Z.pow_add_r by lia. do 2 f_equal. lia. }
  assert (0 < 2 ^ (k - s)) by (apply pow2_pos; lia).
  rewrite E at 1. rewrite (nearest_scaled (M * 2 ^ (k - s)) 0 s); [|lia|lia|lia|].
  - rewrite round_up_0, Z.pow_0_r, Z.div_1_r, Z.add_0_l, Z.add_0_r. by rewrite <- E.
  - rewrite <- E. fold s. lia.
Qed.

Lemma rounded_signed_exact M k :
  Z.abs M < 2 ^ 53 → 0 ≤ k ≤ 2045 → rounded_signed (M * 2 ^ k) = M * 2 ^ k.
Proof.
  intros HM Hk.
  assert (Hp : 0 < 2 ^ k) by (apply pow2_pos; lia).
  assert (Hr : ∀ N, 0 < N < 2 ^ 53 → rounded (N * 2 ^ k) = N * 2 ^ k).
  { intros N HN. unfold rounded. rewrite (nearest_exact N k) by lia.
    assert (N * 2 ^ k < 2 ^ 2098); [|by destruct (Z.leb_spec (2 ^ 2098) (N * 2 ^ k)); [lia|]].
    apply Z.lt_le_trans with (2 ^ 53 * 2 ^ k); [apply Z.mul_lt_mono_pos_r; lia|].
    rewrite <- Z.pow_add_r by lia. apply Z.pow_le_mono_r; lia. }
  destruct (Z.lt_trichotomy M 0) as [H|[->|H]].
  - rewrite rounded_signed_neg by lia.
    replace (- (M * 2 ^ k)) with (- M * 2 ^ k) by lia. rewrite Hr by lia. lia.
  - done.
  - rewrite rounded_signed_pos by lia. apply Hr. lia.
Qed.

Lemma dyadic_exact M k :
  Z.abs M < 2 ^ 53 → -1074 ≤ k ≤ 971 →
  float_valid (dyadic M k) ∧ float_finite (dyadic M k) = true ∧
  float_scaled (dyadic M k) = M * 2 ^ (k + 1074).
Proof.
  intros HM Hk. unfold dyadic, float_valid.
  destruct (binary_normalize_spec M k) as (Hv & Hn & Ho); [lia|].
  rewrite rounded_signed_exact in Ho by lia.
  split; [done|]. split; [|done].
  assert (Hb : Z.abs (M * 2 ^ (k + 1074)) < 2 ^ 2098).
  { rewrite Z.abs_mul, (Z.abs_eq (2 ^ (k + 1074))) by (apply Z.pow_nonneg; lia).
    assert (0 < 2 ^ (k + 1074)) by (apply pow2_pos; lia).
    apply Z.le_lt_trans with (Z.abs M * 2 ^ 2045).
    - apply Z.mul_le_mono_nonneg_l; [lia|]. apply Z.pow_le_mono_r; lia.
    - apply Z.lt_le_trans with (2 ^ 53 * 2 ^ 2045).
      + apply Z.mul_lt_mono_pos_r; [by apply pow2_pos|lia].
      + by rewrite <- Z.pow_add_r. }
  assert (B : 2 ^ 2098 < 2 ^ 2100) by (apply Z.pow_lt_mono_r; lia).
  destruct (binary_normalize 53 1024 M k false) as [s|s| |s m e]; try done.
  unfold float_scaled, cond_Zopp in Ho. destruct s; lia.
Qed.

Lemma binary_round_aux_round s M E :
  E ≤ fexp 53 1024 (Zpos (digits2_pos M) + E) →
  binary_round_aux 53 1024 s (Zpos M) E loc_Exact = binary_round 53 1024 s M E.
Proof.
  intros H. unfold binary_round, shl_align.
  by destruct (fexp 53 1024 (Zpos (digits2_pos M) + E) - E) eqn:?; try lia.
Qed.

(** [timeout_hours * 3600.] is exact for every sensible number of hours *)
Lemma time_limit_exact (self : SolpsRun) :
  Z.abs (timeout_hours self) * 3600 < 2 ^ 53 →
  ∃ limit, time_limit self = Ok limit ∧ float_valid limit ∧ limit ≠ S754_nan
           ∧ float_scaled limit = timeout_hours self * 3600 * 2 ^ 1074.
Proof.
  intros Hh. unfold time_limit, float_of_int.
  destruct (dyadic_exact (timeout_hours self) 0) as (Hv & Hf & Ho); [lia|lia|].
  change (0 + 1074) with 1074 in Ho.
  change (dyadic 3600 0) with (S754_finite false 7916483719987200 (-41)).
  destruct (dyadic (timeout_hours self) 0) as [s|s| |s m e]; try done.
  - eexists. split; [done|]. split; [done|]. split; [done|].
    simpl in *. lia.
  - eexists. split; [reflexivity|].
    unfold float_mul, SFmul.
    pose proof (valid_finite_scaled s m e Hv) as Hm.
    apply valid_finite_inv in Hv as [Hc _].
    destruct (canonical_range m e Hc) as (He & Hm53 & _).
    assert (Hpos : 2 ^ 1074 ≤ Zpos m * 2 ^ (e + 1074)).
    { unfold float_scaled, cond_Zopp in Ho.
      assert (0 < 2 ^ 1074) by (by apply pow2_pos).
      destruct s; nia. }
    assert (He52 : -53 < e).
    { destruct (Z.le_gt_cases e (-53)) as [Hle|]; [|lia]. exfalso.
      assert (0 < 2 ^ (e + 1074)) by (apply pow2_pos; lia).
      assert (Zpos m * 2 ^ (e + 1074) < 2 ^ 53 * 2 ^ (e + 1074))
        by (apply Z.mul_lt_mono_pos_r; lia).
      assert (2 ^ 53 * 2 ^ (e + 1074) ≤ 2 ^ 1074).
      { rewrite <- Z.pow_add_r by lia. apply Z.pow_le_mono_r; lia. }
      lia. }
    assert (Hd : 53 ≤ Zpos (digits2_pos (m * 7916483719987200))).
    { rewrite digits2_pos_log2.
      assert (52 ≤ Z.log2 (Zpos (m * 7916483719987200))); [|lia].
      apply Z.log2_le_pow2; [done|]. rewrite Pos2Z.inj_mul.
      change (2 ^ 52) with 4503599627370496. lia. }
    rewrite binary_round_aux_round by (rewrite fexp_eq; lia).
    destruct (binary_round_spec (xorb s false) (m * 7916483719987200) (e + -41))
      as (Hv' & Hn' & Ho'); [lia|].
    split; [done|]. split; [done|]. rewrite Ho'.
    assert (Hp : 0 < 2 ^ 1074) by (by apply pow2_pos).
    assert (HA : Zpos m * 2 ^ (e + 1074) = Z.abs (timeout_hours self) * 2 ^ 1074).
    { unfold float_scaled, cond_Zopp in Ho. destruct s; nia. }
    assert (E : Zpos (m * 7916483719987200) * 2 ^ (e + -41 + 1074)
                = Z.abs (timeout_hours self) * 3600 * 2 ^ 1074).
    { rewrite Pos2Z.inj_mul.
      change (Zpos 7916483719987200) with (3600 * 2 ^ 41).
      replace (e + -41 + 1074) with (e + 1033) by lia.
      replace (Zpos m * (3600 * 2 ^ 41) * 2 ^ (e + 1033))
        with (3600 * (Zpos m * (2 ^ 41 * 2 ^ (e + 1033)))) by ring.
      rewrite <- Z.pow_add_r by lia.
      replace (41 + (e + 1033)) with (e + 1074) by lia.
      rewrite HA. ring. }
    rewrite E.
    pose proof (rounded_signed_exact (Z.abs (timeout_hours self) * 3600) 1074) as Hr.
    assert (0 < Z.abs (timeout_hours self)) by nia.
    rewrite rounded_signed_pos in Hr by nia. rewrite Hr by lia.
    unfold float_scaled in Ho. clear -Ho HA Hp.
    set (P := 2 ^ 1074) in *. clearbody P.
    set (A := Zpos m * 2 ^ (e + 1074)) in *. clearbody A.
    unfold cond_Zopp in *. destruct s; simpl xorb; cbv iota; lia.
Qed.

(** [status()] does not answer ["timed-out"] before the time is up *)
Lemma timed_out_is_overdue (now : float) (self : SolpsRun) (limit : float) :
  float_valid now → float_valid (launch_time self) →
  float_finite now = true → float_finite (launch_time self) = true →
  Z.abs (timeout_hours self) * 3600 < 2 ^ 53 →
  time_limit self = Ok limit →
  float_gt (elapsed now self) limit = true →
  exactly_overdue now self.
Proof.
  intros Vn Vt Fn Ft Hh Hl Hgt.
  destruct (time_limit_exact self Hh) as (limit' & Hl' & Vl & Nl & Ol).
  rewrite Hl in Hl'. injection Hl' as <-.
  destruct (float_sub_finite now (launch_time self) Vn Vt Fn Ft) as (Ve & Ne & Oe).
  unfold float_gt, elapsed, float_sub, SFltb in Hgt.
  rewrite (compare_scaled _ _ Vl Ve Nl Ne) in Hgt.
  destruct (Z.compare_spec (float_scaled limit)
              (float_scaled (SFsub 53 1024 now (launch_time self)))) as [|Hlt|];
    try done.
  rewrite Oe, Ol in Hlt. unfold exactly_overdue.
  destruct (Z.le_gt_cases (float_scaled now - float_scaled (launch_time self))
              (timeout_hours self * 3600 * 2 ^ 1074)) as [Hle|]; [|lia].
  apply rounded_signed_monotone in Hle.
  rewrite (rounded_signed_exact (timeout_hours self * 3600) 1074) in Hle by lia.
  lia.
Qed.

(** ** File-system lemmas *)(** ** File-system lemmas *)

Lemma node_at_snoc t d n : node_at t (d ++ [n]) = t !! (d ++ [n]).
Proof. by destruct d. Qed.

Lemma is_file_lookup t d n :
  is_file t (d ++ [n]) = true ↔ ∃ c, t !! (d ++ [n]) = Some (File c).
Proof.
  unfold is_file. rewrite node_at_snoc.
  destruct (t !! (d ++ [n])) as [[c|]|]; split; try done; eauto; by intros [? ?].
Qed.

(** ** The run handle *)

Section RunHandle.

Variables (whoami : result text) (squeue : text → result text) (now : float).

Lemma status_no_queue (self : SolpsRun) (w : World) (e : exn) :
  job_queue whoami squeue = Err e →
  status whoami squeue now self w = (w, Err e).
Proof.
  unfold job_queue, status, mbind, M_bind, lift. intros Hq.
  destruct whoami as [who|e']; simpl in Hq.
  - by rewrite Hq.
  - by inversion Hq.
Qed.

Lemma status_absent (self : SolpsRun) (w : World) (queue : text) :
  job_queue whoami squeue = Ok queue →
  contains (run_id self) queue = false →
  status whoami squeue now self w
  = (w, Ok (if is_file (fs w) (artifact self w) then "complete" else "crashed")%string).
Proof.
  unfold job_queue, status, mbind, M_bind, lift, artifact. intros Hq Hc.
  destruct whoami as [who|e']; simpl in Hq; [|done].
  rewrite Hq, Hc. simpl. unfold isfile. by rewrite resolve_pjoin.
Qed.

Lemma status_present (self : SolpsRun) (w : World) (queue : text) :
  job_queue whoami squeue = Ok queue →
  contains (run_id self) queue = true →
  status whoami squeue now self w
  = (w, limit ← time_limit self;
        Ok (if float_gt (elapsed now self) limit then "timed-out" else "running")%string).
Proof.
  unfold job_queue, status, time_limit, elapsed, mbind, M_bind, lift. intros Hq Hc.
  destruct whoami as [who|e']; simpl in Hq; [|done].
  rewrite Hq, Hc. simpl.
  destruct (float_of_int (timeout_hours self)) as [hours|e]; [|done].
  simpl. by destruct (float_gt _ _).
Qed.

(** C3 (as amended).  When [whoami] and [squeue] ran and [timeout_hours]
    converts to a float, [status()] answers and leaves the world as it
    was.  The answer is ["complete"] exactly when [run_id] does not occur
    in the text that [squeue] printed and [balance.nc] is a file of the
    run directory; ["crashed"] exactly when it does not occur and there is
    no such file; ["timed-out"] exactly when it occurs somewhere in the
    text and the double [time() - launch_time] is greater than the double
    [timeout_hours * 3600.]; ["running"] exactly when it occurs and that
    comparison is false. *)
Theorem status_table (self : SolpsRun) (w : World) (queue : text) (limit : float) :
  job_queue whoami squeue = Ok queue →
  time_limit self = Ok limit →
  ∃ s, status whoami squeue now self w = (w, Ok s) ∧
    (s = "complete"%string ↔
       ¬ occurs_in (run_id self) queue ∧ is_file (fs w) (artifact self w) = true) ∧
    (s = "crashed"%string ↔
       ¬ occurs_in (run_id self) queue ∧ is_file (fs w) (artifact self w) = false) ∧
    (s = "timed-out"%string ↔
       occurs_in (run_id self) queue ∧ float_gt (elapsed now self) limit = true) ∧
    (s = "running"%string ↔
       occurs_in (run_id self) queue ∧ float_gt (elapsed now self) limit = false).
Proof.
  intros Hq Hl.
  destruct (contains (run_id self) queue) eqn:Hc.
  - rewrite (status_present self w queue Hq Hc), Hl. simpl.
    apply contains_occurs in Hc.
    destruct (float_gt _ _); eexists; (split; [reflexivity|]);
      intuition (try done; try congruence).
  - rewrite (status_absent self w queue Hq Hc).
    apply contains_false in Hc.
    destruct (is_file _ _); eexists; (split; [reflexivity|]);
      intuition (try done; try congruence).
Qed.


End RunHandle.

(** The rows of the table on a small tree.  In the fifth row the id
    [12345] is found inside the id of another job; in the last two the
    call raises: the [int] is too large for a float, or [squeue] could not
    be started. *)
Example status_rows :
  let queue_of (s : string) : text → result text := λ _, Ok (txt s) in
  let forever := mkSolpsRun bench_parameters 3 bench_case (clock 1000) (txt "12345")
                   (2 ^ 1024) in
  (status (Ok (txt "user")) (queue_of "JOBID NAME") (clock 2000) bench_run
     bench_world_finished).2 = Ok "complete"%string
  ∧ (status (Ok (txt "user")) (queue_of "JOBID NAME") (clock 2000) bench_run
       bench_world_crashed).2 = Ok "crashed"%string
  ∧ (status (Ok (txt "user")) (queue_of "JOBID NAME 12345 solps") (clock 90000) bench_run
       bench_world_crashed).2 = Ok "timed-out"%string
  ∧ (status (Ok (txt "user")) (queue_of "JOBID NAME 12345 solps") (clock 2000) bench_run
       bench_world_crashed).2 = Ok "running"%string
  ∧ (status (Ok (txt "user")) (queue_of "JOBID NAME 9123456 other") (clock 2000) bench_run
       bench_world_finished).2 = Ok "running"%string
  ∧ (status (Ok (txt "user")) (queue_of "JOBID NAME 12345 solps") (clock 2000) forever
       bench_world_finished).2 = Err OverflowError
  ∧ (status (Ok (txt "user")) (λ _, Err (FileNotFoundError ["squeue"%string]))
       (clock 2000) bench_run bench_world_finished).2
    = Err (FileNotFoundError ["squeue"%string]).
Proof. by vm_compute. Qed.

(** C3, counterexample.  The queue lists one job, [9123456]; the job
    [12345] of the run is not in it and [balance.nc] exists, yet the
    answer is ["running"], not ["complete"].  And for a run launched at
    [9 * 2 ^ -40] seconds whose job is listed, at [86400 + 2 ^ -36]
    seconds the time since launch exceeds the 24 hours, yet the answer
    is ["running"], not ["timed-out"]: the difference of the two doubles
    is rounded to [86400.0]. *)
Lemma status_unlisted_job_running :
  (¬ listed (run_id bench_run) (txt "JOBID NAME 9123456 other")
   ∧ is_file (fs bench_world_finished) (artifact bench_run bench_world_finished) = true
   ∧ status (Ok (txt "user")) bench_queue_other (clock 2000) bench_run
       bench_world_finished
     = (bench_world_finished, Ok "running"%string))
  ∧ (listed (run_id bench_run_early) (txt "JOBID NAME 12345 solps")
     ∧ exactly_overdue bench_clock_late bench_run_early
     ∧ elapsed bench_clock_late bench_run_early = clock 86400
     ∧ status (Ok (txt "user")) bench_queue bench_clock_late bench_run_early
         bench_world_crashed
       = (bench_world_crashed, Ok "running"%string)).
Proof.
  split; split_and!.
  - unfold listed. by_evaluation.
  - vm_compute. reflexivity.
  - vm_compute. reflexivity.
  - unfold listed. by_evaluation.
  - vm_compute. reflexivity.
  - vm_compute. reflexivity.
  - vm_compute. reflexivity.
Qed.

Lemma status_table_witness :
  ∃ s, status (Ok (txt "user")) bench_queue (clock 90000) bench_run bench_world_crashed
       = (bench_world_crashed, Ok s) ∧
    (s = "complete"%string ↔
       ¬ occurs_in (run_id bench_run) (txt "JOBID NAME 12345 solps")
       ∧ is_file (fs bench_world_crashed) (artifact bench_run bench_world_crashed) = true) ∧
    (s = "crashed"%string ↔
       ¬ occurs_in (run_id bench_run) (txt "JOBID NAME 12345 solps")
       ∧ is_file (fs bench_world_crashed) (artifact bench_run bench_world_crashed) = false) ∧
    (s = "timed-out"%string ↔
       occurs_in (run_id bench_run) (txt "JOBID NAME 12345 solps")
       ∧ float_gt (elapsed (clock 90000) bench_run) (clock 86400) = true) ∧
    (s = "running"%string ↔
       occurs_in (run_id bench_run) (txt "JOBID NAME 12345 solps")
       ∧ float_gt (elapsed (clock 90000) bench_run) (clock 86400) = false).
Proof.
  refine (status_table (Ok (txt "user")) bench_queue (clock 90000) bench_run
            bench_world_crashed (txt "JOBID NAME 12345 solps") (clock 86400) _ _).
  - reflexivity.
  - vm_compute. reflexivity.
Defined.




Lemma entry_name_spec d k n : entry_name d k = Some n ↔ k = d ++ [n].
Proof.
  unfold entry_name. split.
  - case_bool_decide as E; [|done]. intros [l' ->]%last_Some.
    by rewrite removelast_last in E; subst.
  - intros ->. rewrite removelast_last, bool_decide_eq_true_2 by done.
    apply last_snoc.
Qed.

Lemma elem_of_entries t d n : n ∈ entries t d ↔ is_Some (t !! (d ++ [n])).
Proof.
  unfold entries. rewrite list_elem_of_omap. split.
  - intros (k & Hk & ->%entry_name_spec). by apply elem_of_dom, elem_of_elements.
  - intros H. exists (d ++ [n]). split; [|by apply entry_name_spec].
    by apply elem_of_elements, elem_of_dom.
Qed.

Lemma NoDup_omap_inj {A B : Type} (f : A → option B) (l : list A) :
  (∀ x y z, f x = Some z → f y = Some z → x = y) → NoDup l → NoDup (omap f l).
Proof.
  intros Hinj. induction 1 as [|x l Hx Hl IH]; simpl; [constructor|].
  destruct (f x) as [z|] eqn:Hfx; [|done].
  constructor; [|done]. rewrite list_elem_of_omap. intros (y & Hy & Hfy).
  by rewrite (Hinj _ _ _ Hfx Hfy) in Hx.
Qed.

Lemma NoDup_entries t d : NoDup (entries t d).
Proof.
  apply NoDup_omap_inj; [|apply NoDup_elements].
  intros x y z Hx%entry_name_spec Hy%entry_name_spec. congruence.
Qed.

(** A test that only looks at the files is a plain [filter]. *)
Lemma filter_m_isfile dir names w :
  filter_m (λ f, isfile (dir // f)) names w
  = (w, Ok (filter (λ f, is_file (fs w) (resolve (cwd w) dir ++ [f]) = true) names)).
Proof.
  induction names as [|f names IH]; [done|].
  simpl. unfold mbind, M_bind at 1. unfold isfile at 1. rewrite resolve_pjoin.
  unfold M_bind at 1. rewrite IH. unfold mret, M_ret.
  rewrite filter_cons. by destruct (is_file _ _).
Qed.

(** Removing a duplicate-free list of files of one directory. *)
Lemma for_each_remove dir names : ∀ t c,
  NoDup names →
  (∀ n, n ∈ names → is_file t (resolve c dir ++ [n]) = true) →
  ∃ t', for_each names (λ f, remove (dir // f)) (mkWorld t c) = (mkWorld t' c, Ok tt)
        ∧ (∀ n, n ∈ names → t' !! (resolve c dir ++ [n]) = None)
        ∧ (∀ a, (∀ n, n ∈ names → a ≠ resolve c dir ++ [n]) → t' !! a = t !! a).
Proof.
  induction names as [|n names IH]; intros t c Hnd Hfiles.
  - exists t. split_and!; [done| |done]. by intros n ?%elem_of_nil.
  - apply NoDup_cons in Hnd as [Hn Hnd].
    destruct (IH (delete (resolve c dir ++ [n]) t) c Hnd) as (t' & Hrun & Hgone & Hkept).
    { intros m Hm. apply is_file_lookup.
      destruct (proj1 (is_file_lookup _ _ _) (Hfiles m (list_elem_of_further _ _ _ Hm))) as [x Hx].
      exists x. rewrite lookup_delete_ne; [done|].
      intros E. apply app_inj_tail in E as [_ ->]. done. }
    exists t'. split_and!.
    + simpl. unfold mbind, M_bind at 1. unfold remove at 1. simpl.
      rewrite resolve_pjoin, node_at_snoc.
      destruct (proj1 (is_file_lookup _ _ _) (Hfiles n (list_elem_of_here _ _))) as [x ->].
      apply Hrun.
    + intros m [->|Hm]%elem_of_cons; [|by apply Hgone].
      rewrite Hkept; [apply lookup_delete_eq|].
      intros m Hm E. apply app_inj_tail in E as [_ ->]. done.
    + intros a Ha. rewrite Hkept.
      * apply lookup_delete_ne. intros E. by apply (Ha n); [left|].
      * intros m Hm. apply Ha. by right.
Qed.

(** C6. In an existing run directory [cleanup()] succeeds, and afterwards
    every regular file of the directory whose name is not on the allow-list
    is gone, while every other path is exactly as before: the allow-listed
    files, the directory itself, its sub-directories and everything outside
    it. *)
Theorem cleanup_removes_exactly (self : SolpsRun) (w : World) :
  let d := resolve (cwd w) (directory self) in
  is_dir (fs w) d = true →
  ∃ w', cleanup self w = (w', Ok tt) ∧ cwd w' = cwd w
    ∧ (∀ n, is_file (fs w) (d ++ [n]) = true → n ∉ allowed_files →
             fs w' !! (d ++ [n]) = None)
    ∧ (∀ a, ¬ (∃ n, a = d ++ [n] ∧ is_file (fs w) a = true ∧ n ∉ allowed_files) →
             fs w' !! a = fs w !! a)
    ∧ is_dir (fs w') d = true.
Proof.
  intros d Hd. destruct w as [t c]; simpl in *.
  set (names := filter (λ f, f ∉ allowed_files)
                  (filter (λ f, is_file t (d ++ [f]) = true) (entries t d))).
  destruct (for_each_remove (directory self) names t c) as (t' & Hrun & Hgone & Hkept).
  { unfold names. apply NoDup_filter, NoDup_filter, NoDup_entries. }
  { intros n Hn. unfold names in Hn.
    by apply list_elem_of_filter in Hn as [_ [? _]%list_elem_of_filter]. }
  assert (Hin : ∀ n, n ∈ names ↔ is_file t (d ++ [n]) = true ∧ n ∉ allowed_files).
  { intros n. unfold names. rewrite !list_elem_of_filter, elem_of_entries. split.
    - tauto.
    - intros [Hf Hn]. split_and!; try done.
      apply is_file_lookup in Hf as [x ->]. by eexists. }
  assert (Hsame : ∀ a, ¬ (∃ n, a = d ++ [n] ∧ is_file t a = true ∧ n ∉ allowed_files) →
                       t' !! a = t !! a).
  { intros a Ha. apply Hkept. intros n [Hf Hn]%Hin ->. apply Ha. by exists n. }
  exists (mkWorld t' c). split_and!; simpl.
  - unfold cleanup. unfold mbind, M_bind at 1. unfold listdir at 1. simpl.
    fold d. unfold is_dir in Hd. destruct (node_at t d) as [[]|]; try done.
    unfold M_bind at 1. rewrite filter_m_isfile. simpl. apply Hrun.
  - done.
  - intros n Hf Hn. apply Hgone, Hin. done.
  - done.
  - unfold is_dir, node_at in *. destruct d as [|x d'] eqn:Ed; [done|].
    rewrite Hsame; [done|].
    intros (n & E & _). rewrite <- Ed in E.
    apply (f_equal length) in E. rewrite length_app in E. simpl in E. lia.
Qed.

(** ** The case builder *)

(** *** What the builder never does: move the process, or remove an entry *)

Lemma grows_refl w : grows w w.
Proof. by split. Qed.

Lemma grows_trans w1 w2 w3 : grows w1 w2 → grows w2 w3 → grows w1 w3.
Proof. intros [E1 H1] [E2 H2]. split; [congruence|]. intros a Ha. by apply H2, H1. Qed.

Lemma grows_insert t c a x : grows (mkWorld t c) (mkWorld (<[a := x]> t) c).
Proof.
  split; [done|]. simpl. intros b Hb.
  destruct (decide (a = b)) as [->|]; [rewrite lookup_insert_eq | rewrite lookup_insert_ne]; eauto.
Qed.

Lemma growing_ret {A : Type} (a : A) : growing (mret a).
Proof. intros w. apply grows_refl. Qed.

Lemma growing_raise {A : Type} e : growing (raise e : M A).
Proof. intros w. apply grows_refl. Qed.

Lemma growing_lift {A : Type} (r : result A) : growing (lift r).
Proof. intros w. apply grows_refl. Qed.

Lemma growing_bind {A B : Type} (m : M A) (k : A → M B) :
  growing m → (∀ a, growing (k a)) → growing (m ≫= k).
Proof.
  intros Hm Hk w. unfold mbind, M_bind. specialize (Hm w).
  destruct (m w) as [w' [a|e]]; simpl in *; [|done].
  eapply grows_trans; [done|apply Hk].
Qed.

Lemma growing_for_each {A : Type} (xs : list A) body :
  (∀ x, growing (body x)) → growing (for_each xs body).
Proof.
  intros Hb. induction xs; simpl; [apply growing_ret|].
  apply growing_bind; [apply Hb|done].
Qed.

Lemma growing_filter_m {A : Type} (xs : list A) test :
  (∀ x, growing (test x)) → growing (filter_m test xs).
Proof.
  intros Ht. induction xs; simpl; [apply growing_ret|].
  apply growing_bind; [apply Ht|]. intros b.
  apply growing_bind; [done|]. intros rest. apply growing_ret.
Qed.

Lemma growing_fold_m {A S : Type} (xs : list A) (body : S → A → M S) : ∀ acc,
  (∀ s x, growing (body s x)) → growing (fold_m body acc xs).
Proof.
  intros acc Hb. revert acc. induction xs; intros acc; simpl; [apply growing_ret|].
  apply growing_bind; [apply Hb|done].
Qed.

Lemma growing_isfile p : growing (isfile p).
Proof. intros w. apply grows_refl. Qed.

Lemma growing_read_text p : growing (read_text p).
Proof.
  intros w. unfold read_text.
  destruct (node_at _ _) as [[]|]; apply grows_refl.
Qed.

Lemma growing_mkdir p : growing (mkdir p).
Proof.
  intros [t c]. unfold mkdir; simpl.
  destruct (node_at _ _); [apply grows_refl|].
  destruct (parent_check _ _); [apply grows_insert|apply grows_refl].
Qed.

Lemma growing_write_text p content : growing (write_text p content).
Proof.
  intros [t c]. unfold write_text; simpl.
  destruct (node_at _ _) as [[]|]; try apply grows_refl;
    destruct (parent_check _ _); first [apply grows_insert|apply grows_refl].
Qed.

Lemma growing_copy src dst : growing (copy src dst).
Proof.
  intros [t c]. unfold copy; simpl.
  destruct (node_at t (resolve c src)) as [[]|]; [|case_bool_decide|];
    try apply grows_refl.
  case_bool_decide; [apply grows_refl|].
  destruct (node_at _ _) as [[]|]; try apply grows_refl;
    destruct (parent_check _ _); first [apply grows_insert|apply grows_refl].
Qed.

Create HintDb growing.
#[global] Hint Resolve growing_ret growing_raise growing_lift growing_isfile
  growing_read_text growing_mkdir growing_write_text growing_copy : growing.

Ltac growing_steps :=
  repeat first
    [ apply growing_bind; [|intros ?]
    | apply growing_for_each; intros ?
    | apply growing_filter_m; intros ?
    | apply growing_fold_m; intros ? ?
    | match goal with |- growing (if ?b then _ else _) => destruct b end
    | match goal with |- growing (let '(_, _) := ?x in _) => destruct x end
    | solve [auto with growing] ].

Section CaseBuilder.

Variable required_parameters : gset string.
Variables (reference_directory case_directory : Path).
Variable parameter_dictionary : gmap string pyval.

Let build := build_solps_case required_parameters reference_directory
               case_directory parameter_dictionary.

(** everything [build_solps_case] does after [case_directory.mkdir()] *)
Lemma build_after_mkdir :
  ∃ rest : M unit, growing rest ∧ build = (mkdir case_directory ;; rest).
Proof.
  eexists. split; [|reflexivity].
  growing_steps.
  unfold process_template. growing_steps.
Qed.

Lemma growing_build : growing build.
Proof.
  destruct build_after_mkdir as (rest & Hrest & ->).
  apply growing_bind; [apply growing_mkdir|done].
Qed.

Lemma build_existing w :
  is_Some (node_at (fs w) (resolve (cwd w) case_directory)) →
  build w = (w, Err (FileExistsError (resolve (cwd w) case_directory))).
Proof.
  intros [x Hx]. destruct build_after_mkdir as (rest & _ & ->).
  unfold mbind, M_bind, mkdir. by rewrite Hx.
Qed.

(** C7. When [case_directory] already exists, [build_solps_case] raises
    [FileExistsError] and leaves every file and the working directory as
    they were.  In particular a second call with the same
    [case_directory] fails whatever the first one did, without touching
    anything, and with [FileExistsError] as soon as the first call got
    as far as creating the directory. *)
Theorem build_case_rejects_existing (w : World) :
  (is_Some (node_at (fs w) (resolve (cwd w) case_directory)) →
     build_solps_case required_parameters reference_directory case_directory
       parameter_dictionary w
     = (w, Err (FileExistsError (resolve (cwd w) case_directory))))
  ∧ (let first := build_solps_case required_parameters reference_directory
                    case_directory parameter_dictionary w in
     let second := build_solps_case required_parameters reference_directory
                     case_directory parameter_dictionary first.1 in
     ∃ e, second = (first.1, Err e)
          ∧ (is_Some (node_at (fs first.1) (resolve (cwd w) case_directory)) →
             e = FileExistsError (resolve (cwd w) case_directory))).
Proof.
  fold build. split; [apply build_existing|]. simpl.
  pose proof (growing_build w) as [Hcwd _].
  destruct (node_at (fs (build w).1) (resolve (cwd w) case_directory)) as [x|] eqn:Hx.
  - eexists. split; [|done]. rewrite <- Hcwd. apply build_existing.
    rewrite Hcwd, Hx. by eexists.
  - (* the first call did not create the directory: it failed in [mkdir] *)
    destruct build_after_mkdir as (rest & Hrest & E).
    assert (∃ e, build w = (w, Err e)) as [e He].
    { rewrite E. unfold mbind, M_bind. unfold mkdir at 1.
      destruct (node_at (fs w) _) eqn:Hn; [by eexists|].
      destruct (parent_check _ _) eqn:Hp; [|by eexists].
      exfalso. rewrite E in Hx. unfold mbind, M_bind, mkdir in Hx.
      rewrite Hn, Hp in Hx.
      set (w1 := mkWorld _ _) in Hx.
      destruct (Hrest w1) as [_ Hk].
      destruct (rest w1) as [w2 r] eqn:Hr. simpl in Hk.
      assert (fs w2 = fs (match r with Ok a => (w2, Ok a) | Err e => (w2, Err e) end).1)
        as Hw2 by by destruct r.
      assert (Hx' : node_at (fs w2) (resolve (cwd w) case_directory) = None).
      { rewrite Hw2. destruct r as [[]|]; exact Hx. }
      destruct (resolve (cwd w) case_directory) as [|y a'] eqn:Ea; [done|].
      simpl in Hx'. destruct (Hk (y :: a')) as [z Hz]; [|congruence].
      unfold w1; simpl. rewrite lookup_insert_eq. by eexists. }
    exists e. split; [by rewrite He|]. by intros [? ?].
Qed.

End CaseBuilder.

(** *** Running the monad step by step *)

Lemma bind_ok {A B : Type} (m : M A) (k : A → M B) w w' a :
  m w = (w', Ok a) → (m ≫= k) w = k a w'.
Proof. intros H. unfold mbind, M_bind. by rewrite H. Qed.

Lemma bind_err {A B : Type} (m : M A) (k : A → M B) w w' e :
  m w = (w', Err e) → (m ≫= k) w = (w', Err e).
Proof. intros H. unfold mbind, M_bind. by rewrite H. Qed.

(** *** Optional parameters met in the lines of a template *)

Section Substitution.

Variable parameter_dictionary : gmap string pyval.

Lemma substitute_all_ok line : ∀ ps W,
  text_valued parameter_dictionary ps line →
  ∃ W', substitute_all parameter_dictionary line W ps = Ok W'
        ∧ ∀ p, p ∈ W' ↔ p ∈ W ∨ (p ∈ ps ∧ contains (placeholder p) line = true).
Proof.
  induction ps as [|q ps IH]; intros W Hv; simpl.
  - exists W. split; [done|]. intros p. rewrite elem_of_nil. tauto.
  - unfold substitute at 1.
    destruct (contains (placeholder q) line) eqn:Hq.
    + destruct (Hv q) as [s Hs]; [by left|done|].
      unfold getitem. rewrite Hs. simpl.
      destruct (IH ({[q]} ∪ W)) as (W' & -> & HW').
      { intros p Hp. apply Hv. by right. }
      exists W'. split; [done|]. intros p. rewrite HW', elem_of_cons.
      rewrite elem_of_union, elem_of_singleton.
      split; [|intros [?|[[->|?] ?]]; tauto].
      intros [[->|?]|[? ?]]; tauto.
    + simpl. destruct (IH W) as (W' & -> & HW').
      { intros p Hp. apply Hv. by right. }
      exists W'. split; [done|]. intros p. rewrite HW', elem_of_cons.
      split; [tauto|]. intros [?|[[->|?] ?]]; [tauto|congruence|tauto].
Qed.

(** The lines come out exactly as they went in. *)
Lemma process_lines_ok (optional_params : gset string) : ∀ lines W,
  (∀ line, line ∈ lines → text_valued parameter_dictionary (elements optional_params) line) →
  ∃ W', process_lines parameter_dictionary optional_params W lines = Ok (W', lines)
        ∧ ∀ p, p ∈ W' ↔ p ∈ W ∨ (p ∈ optional_params ∧ ∃ line, line ∈ lines
                                    ∧ contains (placeholder p) line = true).
Proof.
  induction lines as [|l lines IH]; intros W Hv; simpl.
  - exists W. split; [done|]. intros p. split; [tauto|].
    intros [?|[_ (line & []%elem_of_nil & _)]]; done.
  - destruct (substitute_all_ok l (elements optional_params) W) as (W1 & -> & HW1).
    { apply Hv. by left. }
    simpl. destruct (IH W1) as (W' & -> & HW').
    { intros line Hl. apply Hv. by right. }
    simpl. exists W'. split; [done|]. intros p.
    rewrite HW', HW1, elem_of_elements. split.
    + intros [[?|[? ?]]|[? (line & ? & ?)]]; [tauto| |].
      * right. split; [done|]. exists l. split; [by left|done].
      * right. split; [done|]. exists line. split; [by right|done].
    + intros [?|[? (line & [->|?]%elem_of_cons & ?)]]; [tauto|tauto|].
      right. split; [done|]. by exists line.
Qed.

Lemma process_lines_keeps_lines (optional_params : gset string) : ∀ lines W W' output,
  process_lines parameter_dictionary optional_params W lines = Ok (W', output) →
  output = lines.
Proof.
  induction lines as [|l lines IH]; intros W W' output; simpl.
  - by intros [= _ <-].
  - destruct (substitute_all _ _ _ _) as [W1|]; simpl; [|done].
    destruct (process_lines _ _ W1 lines) as [[W2 out]|] eqn:E; simpl; [|done].
    intros [= _ <-]. f_equal. by eapply IH.
Qed.

End Substitution.

(** *** Populating a fresh case directory *)

Section Populate.

Variables (t0 : gmap abspath node) (wd r a : abspath).
Variables (reference_directory case_directory : Path).
Hypothesis Href : resolve wd reference_directory = r.
Hypothesis Hcase : resolve wd case_directory = a.
Hypothesis Hra : r ≠ a.
Hypothesis Hnew : t0 !! a = None.

Lemma snoc_ne_self (d : abspath) n : d ++ [n] ≠ d.
Proof.
  intros E. apply (f_equal length) in E. rewrite length_app in E. simpl in E. lia.
Qed.

Lemma case_inv_insert t g c : case_inv t0 a t → case_inv t0 a (<[a ++ [g] := File c]> t).
Proof.
  intros (Hd & Hsub & Hout). split_and!.
  - rewrite lookup_insert_ne; [done|apply snoc_ne_self].
  - intros n. destruct (decide (g = n)) as [->|Hne].
    + by rewrite lookup_insert_eq.
    + rewrite lookup_insert_ne; [apply Hsub|].
      intros E. by apply app_inj_tail in E as [_ ?].
  - intros p Hp Hpn. rewrite lookup_insert_ne; [by apply Hout|].
    intros E. by apply (Hpn g).
Qed.

Lemma case_inv_reference t f :
  case_inv t0 a t → is_file t (r ++ [f]) = is_file t0 (r ++ [f])
                    ∧ lines_of t (r ++ [f]) = lines_of t0 (r ++ [f]).
Proof.
  intros (Hd & Hsub & Hout). unfold is_file, lines_of. rewrite !node_at_snoc.
  destruct (decide (r ++ [f] = a)) as [E|Hne].
  - by rewrite E, Hd, Hnew.
  - rewrite Hout; [done|done|]. intros n E. by apply app_inj_tail in E as [? _].
Qed.

Lemma case_inv_parent t g : case_inv t0 a t → parent_check t (a ++ [g]) = Ok tt.
Proof.
  intros (Hd & _). unfold parent_check. rewrite removelast_last.
  unfold node_at. destruct a; [done|]. by rewrite Hd.
Qed.

Lemma case_inv_not_dir t g : case_inv t0 a t → is_dir t (a ++ [g]) = false.
Proof.
  intros (_ & Hsub & _). unfold is_dir. rewrite node_at_snoc.
  specialize (Hsub g). by destruct (t !! (a ++ [g])) as [[]|].
Qed.

Lemma copy_into_case t f g :
  case_inv t0 a t → is_file t0 (r ++ [f]) = true →
  ∃ t', copy (reference_directory // f) (case_directory // g) (mkWorld t wd)
        = (mkWorld t' wd, Ok tt) ∧ case_inv t0 a t'.
Proof.
  intros Hinv Hf.
  destruct (case_inv_reference t f Hinv) as [Hfile _]. rewrite Hf in Hfile.
  apply is_file_lookup in Hfile as [c Hc].
  exists (<[a ++ [g] := File c]> t). split; [|by apply case_inv_insert].
  unfold copy. simpl. rewrite !resolve_pjoin, Href, Hcase.
  rewrite (case_inv_not_dir t g Hinv), node_at_snoc, Hc.
  rewrite bool_decide_eq_false_2.
  2:{ intros E. by apply app_inj_tail in E as [? _]. }
  pose proof (case_inv_not_dir t g Hinv) as Hnd. unfold is_dir in Hnd.
  rewrite (case_inv_parent t g Hinv).
  by destruct (node_at t (a ++ [g])) as [[]|].
Qed.

Lemma write_into_case t g content :
  case_inv t0 a t →
  write_text (case_directory // g) content (mkWorld t wd)
  = (mkWorld (<[a ++ [g] := File content]> t) wd, Ok tt).
Proof.
  intros Hinv. unfold write_text. simpl. rewrite resolve_pjoin, Hcase.
  pose proof (case_inv_not_dir t g Hinv) as Hnd. unfold is_dir in Hnd.
  rewrite (case_inv_parent t g Hinv).
  by destruct (node_at t (a ++ [g])) as [[]|].
Qed.

(** the loop that copies the input files that are present *)
Lemma copy_inputs names : ∀ t,
  case_inv t0 a t →
  ∃ t', for_each names (λ input,
          isfile (reference_directory // input) ≫= λ present : bool,
          if present
          then copy (reference_directory // input) (case_directory // input)
          else mret tt) (mkWorld t wd)
        = (mkWorld t' wd, Ok tt) ∧ case_inv t0 a t'.
Proof.
  induction names as [|f names IH]; intros t Hinv; simpl.
  - by exists t.
  - unfold mbind at 1, M_bind at 1. unfold mbind at 1, M_bind at 1, isfile at 1. simpl.
    rewrite resolve_pjoin, Href.
    destruct (is_file t (r ++ [f])) eqn:Hf.
    + rewrite (proj1 (case_inv_reference t f Hinv)) in Hf.
      destruct (copy_into_case t f f Hinv Hf) as (t1 & -> & Hinv1).
      by apply IH.
    + by apply IH.
Qed.

Variable parameter_dictionary : gmap string pyval.
Variable optional_params : gset string.

(** the loop over the template files *)
Lemma process_templates mifs : ∀ t W,
  case_inv t0 a t →
  (∀ mif, mif ∈ mifs → is_file t0 (r ++ [mif]) = true) →
  (∀ mif line, mif ∈ mifs → line ∈ lines_of t0 (r ++ [mif]) →
     text_valued parameter_dictionary (elements optional_params) line) →
  ∃ t' W',
    fold_m (process_template reference_directory case_directory
              parameter_dictionary optional_params) W mifs (mkWorld t wd)
    = (mkWorld t' wd, Ok W')
    ∧ case_inv t0 a t'
    ∧ ∀ p, p ∈ W' ↔ p ∈ W ∨ (p ∈ optional_params ∧ ∃ mif line,
             mif ∈ mifs ∧ line ∈ lines_of t0 (r ++ [mif])
             ∧ contains (placeholder p) line = true).
Proof.
  induction mifs as [|mif mifs IH]; intros t W Hinv Hfiles Hv; simpl.
  - exists t, W. split_and!; [done|done|]. intros p. split; [tauto|].
    intros [?|[_ (? & ? & []%elem_of_nil & _)]]; done.
  - destruct (case_inv_reference t mif Hinv) as [Hfile Hlines].
    rewrite (Hfiles mif) in Hfile by by left.
    apply is_file_lookup in Hfile as [c Hc].
    assert (Hl : lines_of t0 (r ++ [mif]) = file_lines c).
    { rewrite <- Hlines. unfold lines_of. by rewrite Hc. }
    destruct (process_lines_ok parameter_dictionary optional_params (file_lines c) W)
      as (W1 & Hrun & HW1).
    { intros line Hline. apply (Hv mif); [by left|by rewrite Hl]. }
    destruct (IH (<[a ++ [mif] := File (written_content (file_lines c))]> t) W1)
      as (t' & W' & Hfold & Hinv' & HW').
    { by apply case_inv_insert. }
    { intros m Hm. apply Hfiles. by right. }
    { intros m line Hm. apply Hv. by right. }
    exists t', W'. split_and!; [|done|].
    + unfold mbind at 1, M_bind at 1. unfold process_template at 1.
      unfold mbind at 1, M_bind at 1. unfold read_text at 1. simpl.
      rewrite resolve_pjoin, Href, node_at_snoc, Hc.
      unfold mbind at 1, M_bind at 1, lift at 1. rewrite Hrun.
      unfold mbind at 1, M_bind at 1. rewrite write_into_case by done.
      unfold mret at 1, M_ret at 1. apply Hfold.
    + intros p. rewrite HW', HW1. split.
      * intros [[?|[? (line & ? & ?)]]|[? (m & line & ? & ? & ?)]]; [tauto| |].
        -- right. split; [done|]. exists mif, line. rewrite Hl. split_and!; [by left|done|done].
        -- right. split; [done|]. exists m, line. split_and!; [by right|done|done].
      * intros [?|[? (m & line & [->|?]%elem_of_cons & Hline & ?)]]; [tauto| |].
        -- left. right. split; [done|]. exists line. by rewrite <- Hl.
        -- right. split; [done|]. by exists m, line.
Qed.

End Populate.

(** *** Well-formed trees *)

Lemma wf_no_orphans t a n : fs_wf t → node_at t a = None → t !! (a ++ [n]) = None.
Proof.
  intros Hwf Ha. destruct (t !! (a ++ [n])) as [x|] eqn:E; [|done].
  apply Hwf in E. simpl in E. rewrite removelast_last in E.
  unfold is_dir in E. by rewrite Ha in E.
Qed.

Lemma wf_file_parent t d n : fs_wf t → is_file t (d ++ [n]) = true → is_dir t d = true.
Proof.
  intros Hwf [c Hc]%is_file_lookup. apply Hwf in Hc. simpl in Hc.
  by rewrite removelast_last in Hc.
Qed.

Lemma mkdir_fresh p t wd :
  node_at t (resolve wd p) = None → is_dir t (removelast (resolve wd p)) = true →
  mkdir p (mkWorld t wd) = (mkWorld (<[resolve wd p := Dir]> t) wd, Ok tt).
Proof.
  intros Hnone Hparent. unfold mkdir, parent_check. simpl. rewrite Hnone.
  unfold is_dir in Hparent. by destruct (node_at t (removelast _)) as [[]|].
Qed.

Lemma case_inv_mkdir t a :
  fs_wf t → node_at t a = None → case_inv t a (<[a := Dir]> t).
Proof.
  intros Hwf Ha. split_and!.
  - apply lookup_insert_eq.
  - intros n. rewrite lookup_insert_ne by (intros E; by apply (snoc_ne_self a n)).
    by rewrite (wf_no_orphans t a n Hwf Ha).
  - intros p Hp _. by rewrite lookup_insert_ne.
Qed.

Section OptionalParameters.

Variable required_parameters : gset string.
Variables (reference_directory case_directory : Path).
Variable parameter_dictionary : gmap string pyval.

(** The error paths of the optional parameters (C8, for text values).
    Take a well-formed tree in which [case_directory] does not exist
    yet, its parent is a directory and the reference directory holds the
    base-state file [b2fstate], and a parameter dictionary with at least
    one optional name (a key outside [required_parameters]).
    - If no template file ([<input file>.mesa]) is present in the
      reference directory, [build_solps_case] raises its
      [FileNotFoundError], whose message shows the optional names.
    - If templates are present and are processed to the end (every
      optional parameter whose placeholder is met has a text value),
      then, when some optional placeholder occurs in no template line,
      [build_solps_case] raises its [ValueError] showing exactly the set
      of these unused names; when every optional placeholder occurs, it
      returns normally. *)
Theorem build_case_optional_parameter_errors (w : World) :
  let r := resolve (cwd w) reference_directory in
  let a := resolve (cwd w) case_directory in
  let optional_params := dom parameter_dictionary ∖ required_parameters in
  let outcome := (build_solps_case required_parameters reference_directory
                    case_directory parameter_dictionary w).2 in
  fs_wf (fs w) →
  node_at (fs w) a = None →
  is_dir (fs w) (removelast a) = true →
  is_file (fs w) (r ++ ["b2fstate"%string]) = true →
  optional_params ≠ ∅ →
  (present_templates (fs w) r = [] →
     outcome = Err (MesaFileNotFoundError optional_params))
  ∧ (present_templates (fs w) r ≠ [] →
     (∀ p, p ∈ optional_params → mentioned (fs w) r p →
           ∃ s, parameter_dictionary !! p = Some (PyStr s)) →
     ∀ unused : gset string,
       (∀ p, p ∈ unused ↔ p ∈ optional_params ∧ ¬ mentioned (fs w) r p) →
       (unused ≠ ∅ → outcome = Err (MesaValueError unused))
       ∧ (unused = ∅ → outcome = Ok tt)).
Proof.
  destruct w as [t wd]. simpl.
  intros Hwf Hnone Hparent Hbase Hopt.
  set (r := resolve wd reference_directory) in *.
  set (a := resolve wd case_directory) in *.
  assert (Hra : r ≠ a).
  { intros E. apply wf_file_parent in Hbase; [|done].
    unfold is_dir in Hbase. by rewrite E, Hnone in Hbase. }
  assert (Hnew : t !! a = None) by (by destruct a).
  pose proof (case_inv_mkdir t a Hwf Hnone) as Hinv0.
  destruct (copy_into_case t wd r a reference_directory case_directory
              eq_refl eq_refl Hra Hnew _ "b2fstate" "b2fstati" Hinv0 Hbase)
    as (t1 & Hcopy & Hinv1).
  destruct (copy_inputs t wd r a reference_directory case_directory
              eq_refl eq_refl Hra Hnew input_files t1 Hinv1)
    as (t2 & Hinputs & Hinv2).
  assert (Hfilter :
    filter_m (λ f, isfile (reference_directory // f)) mesa_names (mkWorld t2 wd)
    = (mkWorld t2 wd, Ok (present_templates t r))).
  { rewrite filter_m_isfile. simpl. do 2 f_equal. unfold present_templates.
    apply list_filter_iff. intros f. fold r.
    by rewrite (proj1 (case_inv_reference t r a Hra Hnew t2 f Hinv2)). }
  assert (Hsize : bool_decide (size (dom parameter_dictionary ∖ required_parameters) = 0%nat)
                  = false).
  { apply bool_decide_eq_false_2. by intros ?%size_empty_iff%leibniz_equiv. }
  assert (Hprefix : ∀ k : list string → M unit,
    (mkdir case_directory ;;
     copy (reference_directory // "b2fstate") (case_directory // "b2fstati") ;;
     for_each input_files (λ input,
       isfile (reference_directory // input) ≫= λ present : bool,
       if present then copy (reference_directory // input) (case_directory // input)
       else mret tt) ;;
     filter_m (λ f, isfile (reference_directory // f)) mesa_names ≫= k) (mkWorld t wd)
    = k (present_templates t r) (mkWorld t2 wd)).
  { intros k.
    erewrite bind_ok by (by apply mkdir_fresh).
    erewrite bind_ok by exact Hcopy.
    erewrite bind_ok by exact Hinputs.
    by erewrite bind_ok by exact Hfilter. }
  unfold build_solps_case. cbv zeta. fold mesa_names. rewrite Hprefix, Hsize.
  change (negb false) with true. cbv iota. split.
  - intros ->. simpl. done.
  - intros Hsome Hvalued unused Hunused.
    rewrite bool_decide_eq_false_2 by (by destruct (present_templates t r)).
    destruct (process_templates t wd r a reference_directory case_directory
                eq_refl eq_refl Hra Hnew parameter_dictionary
                (dom parameter_dictionary ∖ required_parameters)
                (present_templates t r) t2 ∅ Hinv2)
      as (t3 & W & Hfold & _ & HW).
    { intros mif Hmif. unfold present_templates in Hmif.
      by apply list_elem_of_filter in Hmif as [? _]. }
    { intros mif line Hmif Hline p Hp Hocc.
      apply Hvalued; [by apply elem_of_elements|].
      exists mif, line. split_and!; [done|done|by apply contains_occurs]. }
    assert (HU : dom parameter_dictionary ∖ required_parameters ∖ W = unused).
    { apply set_eq. intros p. rewrite Hunused, elem_of_difference, HW.
      unfold mentioned. split.
      - intros [Hp Hnot]. split; [done|]. intros (mif & line & ? & ? & ?%contains_occurs).
        apply Hnot. right. split; [done|]. by exists mif, line.
      - intros [Hp Hnot]. split; [done|].
        intros [[]%elem_of_empty|[_ (mif & line & ? & ? & ?%contains_occurs)]].
        apply Hnot. by exists mif, line. }
    erewrite bind_ok by reflexivity.
    erewrite bind_ok by exact Hfold.
    rewrite HU. split.
    + intros Hne. rewrite bool_decide_eq_true_2; [done|].
      assert (size unused ≠ 0%nat); [|lia].
      apply size_non_empty_iff. by intros ?%leibniz_equiv.
    + intros ->. by rewrite bool_decide_eq_false_2 by (rewrite size_empty; lia).
Qed.

End OptionalParameters.

(** ** Searching and cutting the scheduler's answer *)

Lemma find_from_unfold i pat s :
  find_from i pat s =
  if bool_decide (pat `prefix_of` s) then i
  else match s with [] => -1 | _ :: s' => find_from (i + 1) pat s' end.
Proof. by destruct s. Qed.

(** A pattern whose first character does not come back later in it cannot
    start inside [X] and run into a later copy of itself. *)
Lemma no_overlapping_start (h : ascii) (tl X rest : text) :
  h ∉ tl → X ≠ [] → ¬ occurs_in (h :: tl) X →
  ¬ (h :: tl) `prefix_of` (X ++ (h :: tl) ++ rest).
Proof.
  intros Hh HX Hno [k Hk].
  destruct (decide (length (h :: tl) ≤ length X)%nat) as [Hle|Hgt].
  - apply Hno. exists [], (drop (length (h :: tl)) X).
    apply (f_equal (take (length (h :: tl)))) in Hk.
    rewrite take_app_le, take_app_length in Hk by done.
    rewrite <- (take_drop (length (h :: tl)) X) at 1. by rewrite Hk.
  - apply Hh. apply (f_equal (λ l : text, l !! length X)) in Hk. cbv beta in Hk.
    rewrite (lookup_app_r X) in Hk by lia.
    rewrite Nat.sub_diag in Hk.
    destruct (length X) as [|j] eqn:Ej; [by destruct X|].
    simpl in Hk, Hgt. symmetry in Hk. rewrite lookup_app_l in Hk by lia.
    by eapply list_elem_of_lookup_2.
Qed.

Lemma find_from_unique (h : ascii) (tl rest : text) :
  h ∉ tl → ∀ (A : text) i, ¬ occurs_in (h :: tl) A →
  find_from i (h :: tl) (A ++ (h :: tl) ++ rest) = i + Z.of_nat (length A).
Proof.
  intros Hh. induction A as [|c A IH]; intros i Hno.
  - rewrite find_from_unfold, bool_decide_eq_true_2; [simpl; lia|].
    by exists rest.
  - rewrite find_from_unfold, bool_decide_eq_false_2.
    + simpl. rewrite IH; [lia|]. intros H. apply Hno, occurs_in_cons. by right.
    + by apply (no_overlapping_start h tl (c :: A) rest).
Qed.

(** *** The escapes of [str(bytes)] do not create text *)

Lemma hex_digit_letter n : hex_digit n ∈ escape_letters.
Proof.
  unfold hex_digit.
  do 16 (destruct n as [|n]; [by_evaluation|]).
  destruct n; by_evaluation.
Qed.

Lemma escape_char_shape q c :
  escape_char q c = [c]
  ∨ ∃ tl, escape_char q c = backslash :: tl ∧ ∀ x, x ∈ tl → x = q ∨ x ∈ escape_letters.
Proof.
  assert (Hone : ∀ y, y ∈ escape_letters →
            ∃ tl : text, [backslash; y] = backslash :: tl
                         ∧ ∀ x, x ∈ tl → x = q ∨ x ∈ escape_letters).
  { intros y Hy. eexists. split; [done|]. intros x ->%list_elem_of_singleton. by right. }
  unfold escape_char.
  destruct (bool_decide (c = q) || bool_decide (c = backslash)) eqn:Hqb.
  { right. eexists. split; [done|]. intros x ->%list_elem_of_singleton.
    apply orb_true_iff in Hqb as [->%bool_decide_eq_true| ->%bool_decide_eq_true].
    - by left.
    - right. by_evaluation. }
  destruct (bool_decide (c = tab)); [right; apply Hone; by_evaluation|].
  destruct (bool_decide (c = nl)); [right; apply Hone; by_evaluation|].
  destruct (bool_decide (c = cr)); [right; apply Hone; by_evaluation|].
  destruct ((nat_of_ascii c <? 32)%nat || _); [|by left].
  right. eexists. split; [done|].
  intros x Hx. right. apply elem_of_cons in Hx as [->|Hx]; [by_evaluation|].
  apply elem_of_cons in Hx as [->|Hx]; [apply hex_digit_letter|].
  apply list_elem_of_singleton in Hx as ->. apply hex_digit_letter.
Qed.

Lemma prefix_unescaped q (pat : text) : ∀ s,
  backslash ∉ pat →
  pat `prefix_of` flat_map (escape_char q) s → pat `prefix_of` s.
Proof.
  induction pat as [|x pat IH]; intros s Hb Hp; [apply prefix_nil|].
  destruct s as [|c s]; simpl in Hp; [by apply prefix_nil_not in Hp|].
  destruct (escape_char_shape q c) as [E|(tl & E & _)]; rewrite E in Hp; simpl in Hp.
  - rewrite (prefix_cons_inv_1 _ _ _ _ Hp). apply prefix_cons, IH.
    + intros ?. apply Hb. by right.
    + by apply prefix_cons_inv_2 in Hp.
  - apply prefix_cons_inv_1 in Hp as ->. destruct Hb. by left.
Qed.

Lemma occurs_in_skip (h : ascii) (tl X Y : text) :
  (∀ x, x ∈ X → x ≠ h) → occurs_in (h :: tl) (X ++ Y) → occurs_in (h :: tl) Y.
Proof.
  induction X as [|x X IH]; intros HX; [done|]. simpl.
  intros [Hp|Ho]%occurs_in_cons.
  - apply prefix_cons_inv_1 in Hp as ->. destruct (HX x); [by left|done].
  - apply IH; [|done]. intros y Hy. apply HX. by right.
Qed.

Lemma occurs_in_unescaped q (h : ascii) (tl : text) : ∀ s,
  backslash ∉ h :: tl → h ≠ q → h ∉ escape_letters →
  occurs_in (h :: tl) (flat_map (escape_char q) s) → occurs_in (h :: tl) s.
Proof.
  intros s Hb Hq Hl. induction s as [|c s IH]; [done|]. intros Ho.
  destruct (escape_char_shape q c) as [E|(etl & E & Hetl)].
  - simpl in Ho. rewrite E in Ho. simpl in Ho.
    apply occurs_in_cons in Ho as [Hp|Ho]; apply occurs_in_cons.
    + left. apply (prefix_unescaped q); [done|]. simpl. by rewrite E.
    + right. by apply IH.
  - simpl in Ho. rewrite E in Ho.
    apply occurs_in_cons. right. apply IH.
    apply (occurs_in_skip h tl (backslash :: etl)); [|done].
    intros x [->|Hx]%elem_of_cons.
    + intros Eh. apply Hb. rewrite Eh. by left.
    + destruct (Hetl x Hx) as [->|Hx']; [done|]. by intros ->.
Qed.

Lemma py_slice_middle (X Y Z : text) :
  Z ≠ [] →
  py_slice (X ++ Y ++ Z) (Z.of_nat (length X)) (- Z.of_nat (length Z)) = Y.
Proof.
  intros HZ. unfold py_slice, slice_bound. rewrite !length_app.
  assert (0 < length Z)%nat by (destruct Z; [done|simpl; lia]).
  destruct (Z.ltb_spec (Z.of_nat (length X)) 0); [lia|].
  destruct (Z.ltb_spec (- Z.of_nat (length Z)) 0); [|lia].
  rewrite drop_app_length' by lia.
  apply take_app_length'. lia.
Qed.

Lemma repr_quote_cases b : repr_quote b = squote ∨ repr_quote b = dquote.
Proof. unfold repr_quote. destruct (_ && _); auto. Qed.

Lemma escape_marker_line q :
  q = squote ∨ q = dquote →
  flat_map (escape_char q) (bytes_text marker_line)
  = findstr ++ txt " 12345" ++ [backslash; "n"%char].
Proof. by intros [-> | ->]; vm_compute. Qed.

Lemma bytes_repr_marker_line pre :
  ∃ q, (q = squote ∨ q = dquote)
     ∧ bytes_repr (pre ++ marker_line)
       = ("b"%char :: q :: flat_map (escape_char q) (bytes_text pre))
         ++ findstr ++ txt " 12345" ++ [backslash; "n"%char; q].
Proof.
  unfold bytes_repr. cbv zeta.
  set (q := repr_quote _). exists q. split; [apply repr_quote_cases|].
  unfold bytes_text. rewrite map_app, flat_map_app.
  change (map ascii_of_byte marker_line) with (bytes_text marker_line).
  rewrite escape_marker_line by apply repr_quote_cases.
  simpl. do 2 f_equal. by rewrite <- !app_assoc.
Qed.

Lemma parse_job_id_marker_line pre :
  ¬ occurs_in findstr (bytes_text pre) → parse_job_id (pre ++ marker_line) = txt "12345".
Proof.
  intros Hno. destruct (bytes_repr_marker_line pre) as (q & Hq & E).
  unfold parse_job_id. rewrite E. clear E.
  set (A := "b"%char :: q :: flat_map (escape_char q) (bytes_text pre)).
  assert (HS : ("S"%char : ascii) ≠ q) by (destruct Hq as [-> | ->]; by_evaluation).
  assert (Hfind : find (A ++ findstr ++ txt " 12345" ++ [backslash; "n"%char; q]) findstr
                  = Z.of_nat (length A)).
  { unfold find. change findstr with ("S"%char :: txt "ubmitted batch job").
    rewrite find_from_unique; [lia|by_evaluation|].
    unfold A. intros [Hp|[Hp|Ho]%occurs_in_cons]%occurs_in_cons.
    - by apply prefix_cons_inv_1 in Hp.
    - by apply prefix_cons_inv_1 in Hp.
    - apply Hno. apply (occurs_in_unescaped q); [by_evaluation|done|by_evaluation|done]. }
  rewrite Hfind.
  change (txt " 12345" ++ [backslash; "n"%char; q])
    with ([" "%char] ++ txt "12345" ++ [backslash; "n"%char; q]).
  set (X := A ++ findstr ++ [" "%char]).
  replace (A ++ findstr ++ [" "%char] ++ txt "12345" ++ [backslash; "n"%char; q])
    with (X ++ txt "12345" ++ [backslash; "n"%char; q])
    by (unfold X; by rewrite <- !app_assoc).
  replace (Z.of_nat (length A) + Z.of_nat (length findstr) + 1)
    with (Z.of_nat (length X))
    by (unfold X; rewrite !length_app; simpl; lia).
  by apply (py_slice_middle X (txt "12345") [backslash; "n"%char; q]).
Qed.

Lemma find_from_absent pat : ∀ s i, ¬ occurs_in pat s → find_from i pat s = -1.
Proof.
  induction s as [|c s IH]; intros i Hno; rewrite find_from_unfold.
  - rewrite bool_decide_eq_false_2; [done|].
    intros [k Hk]. apply Hno. by exists [], k.
  - rewrite bool_decide_eq_false_2.
    + apply IH. intros Ho. apply Hno, occurs_in_cons. by right.
    + intros Hp. apply Hno, occurs_in_cons. by left.
Qed.

(** ** The launcher *)

Lemma stays_bind {A B : Type} (m : M A) (k : A → M B) :
  stays m → (∀ a, stays (k a)) → stays (m ≫= k).
Proof.
  intros Hm Hk w. unfold mbind, M_bind. specialize (Hm w).
  destruct (m w) as [w' [a|e]]; simpl in *; [|done].
  by rewrite Hk.
Qed.

Lemma stays_lift {A : Type} (r : result A) : stays (lift r).
Proof. by intros w. Qed.

Lemma stays_with_files {A : Type} f : stays (with_files f : M A).
Proof. intros w. unfold with_files. by destruct (f _ _). Qed.

Section Launch.

Variable required_parameters : gset string.
Variables conductivity_profile diffusivity_profile : list string.
Variable axis : Type.
Variable profile_radius_axis : list pyval → Q * Q → result axis.
Variable linear_transport_profile : axis → list pyval → Q * Q → result axis.
Variable write_solps_transport_inputfile :
  abspath → Path → axis → axis → axis → axis → axis → axis →
  bool → bool → bool → gmap abspath node → gmap abspath node * result unit.
Variable shell :
  text → abspath → gmap abspath node → gmap abspath node * (Z * list Byte.byte).

Variables (self : Solps.t) (now : float) (run_number : Z).
Variables (simulations_directory : Path) (parameters : gmap string pyval).

Let case_dir : Path := simulations_directory // ("run_" +:+ pretty run_number).
Let build : M unit :=
  build_solps_case required_parameters (Solps.reference_directory self)
    case_dir parameters.
Let transport : M unit :=
  write_transport_input conductivity_profile diffusivity_profile axis
    profile_radius_axis linear_transport_profile write_solps_transport_inputfile
    self case_dir parameters.
Let launched : M SolpsRun :=
  launch required_parameters conductivity_profile diffusivity_profile axis
    profile_radius_axis linear_transport_profile write_solps_transport_inputfile
    shell self now run_number simulations_directory parameters.

Lemma stays_transport : stays transport.
Proof.
  unfold transport, write_transport_input.
  repeat (apply stays_bind; [apply stays_lift|intros ?]).
  apply stays_with_files.
Qed.

(** What [launch] returns once the case is built, the transport input
    is written and both [os.chdir] calls find their directory. *)
Lemma launch_submits w w1 w2 t3 code out :
  let a := resolve (cwd w2) case_dir in
  build w = (w1, Ok tt) →
  transport w1 = (w2, Ok tt) →
  is_dir (fs w2) a = true →
  shell (submit_command self) a (fs w2) = (t3, (code, out)) →
  is_dir t3 (resolve a simulations_directory) = true →
  launched w
  = (mkWorld t3 (resolve a simulations_directory),
     Ok (mkSolpsRun parameters run_number case_dir now (parse_job_id out)
                    (Solps.timeout_hours self))).
Proof.
  intros a Hb Ht Ha Hs Hd. unfold launched, launch. fold case_dir build transport.
  erewrite bind_ok by exact Hb.
  erewrite bind_ok by exact Ht.
  unfold mbind at 1, M_bind at 1, chdir at 1. fold a.
  unfold is_dir in Ha. destruct (node_at (fs w2) a) as [[]|]; try done.
  unfold mbind at 1, M_bind at 1, popen at 1. simpl. rewrite Hs.
  unfold mbind at 1, M_bind at 1, chdir at 1. simpl.
  unfold is_dir in Hd. by destruct (node_at t3 _) as [[]|].
Qed.

(** C2 (as amended). [launch] has no submission error: it never looks at
    the exit status, and whenever the case is built, the transport input
    is written and both directory changes succeed, it returns a record
    whose [run_id] is cut out of [str(output)] at [i + 20 : -3], [i] being
    what [find] gave for the marker.  When the marker does not occur this
    is [str(output)[19:-3]], and for an empty output the empty string. *)
Theorem launch_ignores_submission_failure w w1 w2 t3 code out :
  let a := resolve (cwd w2) case_dir in
  build_solps_case required_parameters (Solps.reference_directory self)
    case_dir parameters w = (w1, Ok tt) →
  write_transport_input conductivity_profile diffusivity_profile axis
    profile_radius_axis linear_transport_profile write_solps_transport_inputfile
    self case_dir parameters w1 = (w2, Ok tt) →
  is_dir (fs w2) a = true →
  shell (submit_command self) a (fs w2) = (t3, (code, out)) →
  is_dir t3 (resolve a simulations_directory) = true →
  ∃ run,
    launch required_parameters conductivity_profile diffusivity_profile axis
      profile_radius_axis linear_transport_profile write_solps_transport_inputfile
      shell self now run_number simulations_directory parameters w
    = (mkWorld t3 (resolve a simulations_directory), Ok run)
    ∧ run_id run = parse_job_id out
    ∧ (¬ occurs_in findstr (bytes_repr out) →
         run_id run = py_slice (bytes_repr out) 19 (-3))
    ∧ (out = [] → run_id run = []).
Proof.
  intros a Hb Ht Ha Hs Hd. eexists. split_and!.
  - by apply (launch_submits w w1 w2 t3 code out).
  - done.
  - intros Hno. simpl. unfold parse_job_id, find.
    by rewrite find_from_absent.
  - by intros ->.
Qed.

(** C9. When the case is built, the transport input is written, both
    directory changes succeed and the submission prints any bytes that do
    not hold the marker followed by the line
    [Submitted batch job 12345\n], [launch] returns a record whose
    [run_id] is ["12345"]. *)
Theorem launch_parses_job_id w w1 w2 t3 code pre :
  let a := resolve (cwd w2) case_dir in
  build_solps_case required_parameters (Solps.reference_directory self)
    case_dir parameters w = (w1, Ok tt) →
  write_transport_input conductivity_profile diffusivity_profile axis
    profile_radius_axis linear_transport_profile write_solps_transport_inputfile
    self case_dir parameters w1 = (w2, Ok tt) →
  is_dir (fs w2) a = true →
  shell (submit_command self) a (fs w2) = (t3, (code, pre ++ marker_line)) →
  is_dir t3 (resolve a simulations_directory) = true →
  ¬ occurs_in findstr (bytes_text pre) →
  ∃ run,
    launch required_parameters conductivity_profile diffusivity_profile axis
      profile_radius_axis linear_transport_profile write_solps_transport_inputfile
      shell self now run_number simulations_directory parameters w
    = (mkWorld t3 (resolve a simulations_directory), Ok run)
    ∧ run_id run = txt "12345".
Proof.
  intros a Hb Ht Ha Hs Hd Hno. eexists. split.
  - by apply (launch_submits w w1 w2 t3 code (pre ++ marker_line)).
  - simpl. by apply parse_job_id_marker_line.
Qed.

(** C4 (as amended). [launch] does not put the process back where it
    was: a call that returns leaves it in [simulations_directory] (as
    resolved from the case directory, so [simulations_directory] itself
    when that path is absolute); a call that raises leaves it where it
    was before the call or in the case directory. *)
Theorem launch_working_directory w :
  let outcome :=
    launch required_parameters conductivity_profile diffusivity_profile axis
      profile_radius_axis linear_transport_profile write_solps_transport_inputfile
      shell self now run_number simulations_directory parameters w in
  let a := resolve (cwd w) case_dir in
  match outcome.2 with
  | Ok _ => cwd outcome.1 = resolve a simulations_directory
            ∧ (is_absolute simulations_directory = true →
               cwd outcome.1 = parts simulations_directory)
  | Err _ => cwd outcome.1 = cwd w ∨ cwd outcome.1 = a
  end.
Proof.
  intros outcome a.
  cut (∀ w' r, launched w = (w', r) →
         match r with
         | Ok _ => cwd w' = resolve a simulations_directory
         | Err _ => cwd w' = cwd w ∨ cwd w' = a
         end).
  { intros H. unfold outcome. fold case_dir launched.
    destruct (launched w) as [w' r] eqn:E. simpl.
    specialize (H w' r eq_refl). destruct r; [|done]. split; [done|].
    intros Habs. rewrite H. unfold resolve at 1. by rewrite Habs. }
  clear outcome. intros w' r. unfold launched, launch. fold case_dir build transport.
  pose proof (growing_build required_parameters (Solps.reference_directory self)
                case_dir parameters w) as [Hcwd1 _]. fold build in Hcwd1.
  unfold mbind at 1, M_bind at 1.
  destruct (build w) as [w1 [[]|e]]; simpl in Hcwd1; [|intros [= <- <-]; by left].
  pose proof (stays_transport w1) as Hcwd2.
  unfold mbind at 1, M_bind at 1.
  destruct (transport w1) as [w2 [[]|e]]; simpl in Hcwd2;
    [|intros [= <- <-]; left; congruence].
  unfold mbind at 1, M_bind at 1, chdir at 1.
  assert (Ha : resolve (cwd w2) case_dir = a) by (unfold a; congruence).
  rewrite Ha.
  destruct (node_at (fs w2) a) as [[]|];
    try (intros [= <- <-]; left; congruence).
  unfold mbind at 1, M_bind at 1, popen at 1. simpl.
  destruct (shell _ _ _) as [t3 [code out]].
  unfold mbind at 1, M_bind at 1, chdir at 1. simpl.
  destruct (node_at t3 _) as [[]|]; intros [= <- <-]; simpl; auto.
Qed.

End Launch.


(** ** On the test bench *)

Lemma mentioned_reflect t r p : mentioned t r p ↔ mentionedb t r p = true.
Proof.
  unfold mentioned, mentionedb. rewrite existsb_exists. split.
  - intros (mif & line & Hm & Hl & Ho). exists mif. split; [by apply list_elem_of_In|].
    apply existsb_exists. exists line. split; [by apply list_elem_of_In|].
    by apply contains_occurs.
  - intros (mif & Hm & (line & Hl & Ho)%existsb_exists).
    exists mif, line. rewrite !list_elem_of_In. split_and!; [done|done|].
    by apply contains_occurs.
Qed.

(** C1, on the code.  For the template [x = {X}] and the optional
    parameter [X = "1.5"], [build_solps_case] returns normally, but: the
    file it writes is [input.dat.mesa] (the template's own name) in the
    case directory, its content still holds the placeholder and has a blank
    line after the line; [input.dat] in the case directory is the verbatim
    copy of the reference [input.dat], not the resolved template, which
    would read [x = 1.5].  With the value [1.5] given as a float, the call
    raises [TypeError] at the first placeholder it meets. *)
Theorem build_case_does_not_substitute :
  let built := build_solps_case bench_required bench_reference bench_case
                 bench_parameters bench_world in
  built.2 = Ok tt
  ∧ fs built.1 !! ["tmp"; "sim"; "run_3"; "input.dat.mesa"]%string
    = Some (File (txt "x = {X}" ++ [nl; nl]))
  ∧ fs built.1 !! ["tmp"; "sim"; "run_3"; "input.dat"]%string
    = Some (File (txt "x = 0" ++ [nl]))
  ∧ spec_resolved_content plain_format bench_parameters ["X"%string]
      (txt "x = {X}" ++ [nl]) = txt "x = 1.5" ++ [nl]
  ∧ (build_solps_case bench_required bench_reference bench_case
       bench_parameters_float bench_world).2 = Err TypeError.
Proof. by vm_compute. Qed.

(** C2, counterexample.  The scheduler answers with exit status 1 and no
    output: [launch] returns a record, and its [run_id] is empty. *)
Lemma launch_returns_empty_job_id :
  (bench_launch 1 [] bench_world).2
  = Ok (mkSolpsRun bench_parameters 3 bench_case (clock 1000) [] 24).
Proof. by vm_compute. Qed.

Lemma launch_ignores_submission_failure_witness :
  let a := resolve (cwd bench_prepared) bench_case in
  ∃ run,
    launch bench_required ["chi"%string] ["D"%string] unit bench_axis bench_profile
      bench_writer (bench_scheduler 1 []) bench_solps (clock 1000) 3 bench_simulations
      bench_parameters bench_world
    = (mkWorld (fs bench_prepared) (resolve a bench_simulations), Ok run)
    ∧ run_id run = parse_job_id []
    ∧ (¬ occurs_in findstr (bytes_repr []) → run_id run = py_slice (bytes_repr []) 19 (-3))
    ∧ (([] : list Byte.byte) = [] → run_id run = []).
Proof.
  refine (launch_ignores_submission_failure bench_required ["chi"%string] ["D"%string]
            unit bench_axis bench_profile bench_writer (bench_scheduler 1 [])
            bench_solps (clock 1000) 3 bench_simulations bench_parameters bench_world
            bench_built bench_prepared (fs bench_prepared) 1 [] _ _ _ _ _).
  - vm_compute. reflexivity.
  - vm_compute. reflexivity.
  - vm_compute. reflexivity.
  - reflexivity.
  - vm_compute. reflexivity.
Defined.

(** C4, counterexample.  Called from [/home] with the simulations in
    [/tmp/sim], a successful [launch] ends in [/tmp/sim]. *)
Lemma launch_moves_working_directory :
  cwd bench_world = ["home"%string]
  ∧ (∃ run, (bench_launch 0 (bytes_of "..." ++ marker_line) bench_world).2 = Ok run)
  ∧ cwd (bench_launch 0 (bytes_of "..." ++ marker_line) bench_world).1
    = ["tmp"; "sim"]%string.
Proof. split_and!; [done|by eexists; vm_compute|by vm_compute]. Qed.

(** the three dots of a mocked response are not the marker *)
Lemma launch_parses_job_id_witness :
  let a := resolve (cwd bench_prepared) bench_case in
  ∃ run,
    launch bench_required ["chi"%string] ["D"%string] unit bench_axis bench_profile
      bench_writer (bench_scheduler 0 (bytes_of "..." ++ marker_line)) bench_solps
      (clock 1000) 3 bench_simulations bench_parameters bench_world
    = (mkWorld (fs bench_prepared) (resolve a bench_simulations), Ok run)
    ∧ run_id run = txt "12345".
Proof.
  refine (launch_parses_job_id bench_required ["chi"%string] ["D"%string]
            unit bench_axis bench_profile bench_writer
            (bench_scheduler 0 (bytes_of "..." ++ marker_line))
            bench_solps (clock 1000) 3 bench_simulations bench_parameters bench_world
            bench_built bench_prepared (fs bench_prepared) 0 (bytes_of "...")
            _ _ _ _ _ _).
  - vm_compute. reflexivity.
  - vm_compute. reflexivity.
  - vm_compute. reflexivity.
  - reflexivity.
  - vm_compute. reflexivity.
  - apply contains_false. vm_compute. reflexivity.
Defined.

(** C5.  With the constructor of the result object as the spec describes
    it: in a run directory without the file [balance.nc], [get_results()]
    fails with [FileNotFoundError] for exactly that path and returns no
    handle; in a run directory that holds it, [get_results()] returns a
    handle whose path is [directory / "balance.nc"], the place where the
    artifact is.  The world stays as it was in both cases. *)
Theorem get_results_needs_artifact (self : SolpsRun) (w : World) :
  (is_file (fs w) (artifact self w) = false →
     get_results self w = (w, Err (FileNotFoundError (artifact self w))))
  ∧ (is_file (fs w) (artifact self w) = true →
     ∃ h, get_results self w = (w, Ok h)
          ∧ balance_filepath h = directory self // "balance.nc"
          ∧ resolve (cwd w) (balance_filepath h) = artifact self w).
Proof.
  unfold get_results, SolpsInterface, artifact. cbv zeta. rewrite resolve_pjoin.
  split; intros ->; [done|].
  eexists. split_and!; [done|done|]. simpl. apply resolve_pjoin.
Qed.

Lemma get_results_needs_artifact_witness :
  get_results bench_run bench_world_crashed
  = (bench_world_crashed,
     Err (FileNotFoundError (artifact bench_run bench_world_crashed)))
  ∧ ∃ h, get_results bench_run bench_world_finished = (bench_world_finished, Ok h)
         ∧ balance_filepath h = directory bench_run // "balance.nc"
         ∧ resolve (cwd bench_world_finished) (balance_filepath h)
           = artifact bench_run bench_world_finished.
Proof.
  split.
  - refine (proj1 (get_results_needs_artifact bench_run bench_world_crashed) _).
    vm_compute. reflexivity.
  - refine (proj2 (get_results_needs_artifact bench_run bench_world_finished) _).
    vm_compute. reflexivity.
Defined.

Lemma cleanup_removes_exactly_witness :
  let w := bench_world_finished in
  let d := resolve (cwd w) (directory bench_run) in
  ∃ w', cleanup bench_run w = (w', Ok tt) ∧ cwd w' = cwd w
    ∧ (∀ n, is_file (fs w) (d ++ [n]) = true → n ∉ allowed_files →
             fs w' !! (d ++ [n]) = None)
    ∧ (∀ a, ¬ (∃ n, a = d ++ [n] ∧ is_file (fs w) a = true ∧ n ∉ allowed_files) →
             fs w' !! a = fs w !! a)
    ∧ is_dir (fs w') d = true.
Proof. apply (cleanup_removes_exactly bench_run bench_world_finished). by vm_compute. Defined.

Lemma build_case_rejects_existing_witness :
  build_solps_case bench_required bench_reference bench_case bench_parameters
    bench_world_finished
  = (bench_world_finished, Err (FileExistsError ["tmp"; "sim"; "run_3"]%string)).
Proof.
  apply (proj1 (build_case_rejects_existing bench_required bench_reference bench_case
                  bench_parameters bench_world_finished)).
  vm_compute. by eexists.
Defined.

(** C8, on the code.  The dictionary holds floats, as its type says:
    the placeholder of [X] occurs in the one template of the reference
    directory and the placeholder of [Y] in no line of it.  [Y] is an
    unused optional parameter, but the call does not get as far as
    reporting it: [line.replace] is given the float of [X] and raises
    [TypeError]. *)
Theorem build_case_float_hides_unused :
  let r := resolve (cwd bench_world) bench_reference in
  dom bench_parameters_floats ∖ bench_required = {["X"; "Y"]}%string
  ∧ present_templates (fs bench_world) r = ["input.dat.mesa"%string]
  ∧ mentioned (fs bench_world) r "X"
  ∧ ¬ mentioned (fs bench_world) r "Y"
  ∧ (build_solps_case bench_required bench_reference bench_case
       bench_parameters_floats bench_world).2 = Err TypeError.
Proof.
  split_and!.
  - by_evaluation.
  - by vm_compute.
  - apply mentioned_reflect. by vm_compute.
  - rewrite mentioned_reflect. by vm_compute.
  - by vm_compute.
Qed.

Lemma build_case_optional_parameter_errors_witness :
  (build_solps_case bench_required bench_reference bench_case bench_parameters
     bench_world_no_template).2
  = Err (MesaFileNotFoundError (dom bench_parameters ∖ bench_required))
  ∧ (build_solps_case bench_required bench_reference bench_case
       bench_parameters_extra bench_world).2
    = Err (MesaValueError {["Y"%string]}).
Proof.
  split.
  - apply (build_case_optional_parameter_errors bench_required bench_reference
             bench_case bench_parameters bench_world_no_template);
      solve [by vm_compute | by_evaluation].
  - assert (Hopt : ∀ p, p ∈ dom bench_parameters_extra ∖ bench_required →
                        p = "X"%string ∨ p = "Y"%string).
    { intros p [Hp Hr]%elem_of_difference.
      apply elem_of_dom in Hp as [v Hv]. unfold bench_parameters_extra in Hv.
      simpl in Hv.
      repeat (apply lookup_insert_Some in Hv as [[<- _]|[_ Hv]]);
        [destruct Hr; by_evaluation|destruct Hr; by_evaluation|auto|auto|done]. }
    apply (build_case_optional_parameter_errors bench_required bench_reference
             bench_case bench_parameters_extra bench_world);
      try solve [by vm_compute | by_evaluation].
    + intros p [-> | ->]%Hopt _; by eexists.
    + intros p. rewrite mentioned_reflect, elem_of_singleton. split.
      * intros ->. split; [by_evaluation|by vm_compute].
      * intros [[-> | ->]%Hopt Hno]; [|done]. destruct Hno. by vm_compute.
Defined.


(** * Further properties of the code *)

(** ** What the case builder leaves alone *)

Lemma confined_ret {A : Type} wd a (x : A) : confined wd a (mret x).
Proof. by intros w Hw. Qed.

Lemma confined_raise {A : Type} wd a e : confined wd a (raise e : M A).
Proof. by intros w Hw. Qed.

Lemma confined_lift {A : Type} wd a (r : result A) : confined wd a (lift r).
Proof. by intros w Hw. Qed.

Lemma confined_bind {A B : Type} wd a (m : M A) (k : A → M B) :
  confined wd a m → (∀ x, confined wd a (k x)) → confined wd a (m ≫= k).
Proof.
  intros Hm Hk w Hw. unfold mbind, M_bind. destruct (Hm w Hw) as [Hc Hf].
  destruct (m w) as [w' [x|e]]; simpl in *; [|done].
  destruct (Hk x w' Hc) as [Hc' Hf']. split; [done|].
  intros p Hp. by rewrite Hf', Hf.
Qed.

Lemma confined_for_each {A : Type} wd a (xs : list A) body :
  (∀ x, confined wd a (body x)) → confined wd a (for_each xs body).
Proof.
  intros Hb. induction xs; simpl; [apply confined_ret|].
  apply confined_bind; [apply Hb|done].
Qed.

Lemma confined_filter_m {A : Type} wd a (xs : list A) test :
  (∀ x, confined wd a (test x)) → confined wd a (filter_m test xs).
Proof.
  intros Ht. induction xs; simpl; [apply confined_ret|].
  apply confined_bind; [apply Ht|]. intros b.
  apply confined_bind; [done|]. intros rest. apply confined_ret.
Qed.

Lemma confined_fold_m {A S : Type} wd a (xs : list A) (body : S → A → M S) : ∀ acc,
  (∀ s x, confined wd a (body s x)) → confined wd a (fold_m body acc xs).
Proof.
  intros acc Hb. revert acc. induction xs; intros acc; simpl; [apply confined_ret|].
  apply confined_bind; [apply Hb|done].
Qed.

Lemma confined_isfile wd a p : confined wd a (isfile p).
Proof. by intros w Hw. Qed.

Lemma confined_read_text wd a p : confined wd a (read_text p).
Proof. intros w Hw. unfold read_text. by destruct (node_at _ _) as [[]|]. Qed.

Lemma confined_insert wd a t d x :
  a `prefix_of` d →
  cwd (mkWorld (<[d := x]> t) wd) = wd
  ∧ ∀ p, ¬ a `prefix_of` p → fs (mkWorld (<[d := x]> t) wd) !! p = t !! p.
Proof.
  intros Hd. split; [done|]. simpl. intros p Hp.
  apply lookup_insert_ne. by intros ->.
Qed.

Lemma confined_mkdir wd a p : a `prefix_of` resolve wd p → confined wd a (mkdir p).
Proof.
  intros Hp [t c] Hw. simpl in Hw. subst c. unfold mkdir; simpl.
  destruct (node_at _ _); [done|].
  destruct (parent_check _ _); [by apply confined_insert|done].
Qed.

Lemma confined_write_text wd a p content :
  a `prefix_of` resolve wd p → confined wd a (write_text p content).
Proof.
  intros Hp [t c] Hw. simpl in Hw. subst c. unfold write_text; simpl.
  destruct (node_at _ _) as [[]|]; try done;
    (destruct (parent_check _ _); [by apply confined_insert|done]).
Qed.

Lemma confined_copy wd a src dst :
  a `prefix_of` resolve wd dst → confined wd a (copy src dst).
Proof.
  intros Hp [t c] Hw. simpl in Hw. subst c. unfold copy; simpl.
  set (d := if is_dir t (resolve wd dst) then _ else _).
  assert (Hd : a `prefix_of` d).
  { unfold d. destruct (is_dir _ _); [by apply prefix_app_r|done]. }
  destruct (node_at t (resolve wd src)) as [[]|]; try done;
    case_bool_decide; try done.
  destruct (node_at t d) as [[]|]; try done;
    (destruct (parent_check _ _); [by apply confined_insert|done]).
Qed.

Lemma prefix_resolve_pjoin wd p name : resolve wd p `prefix_of` resolve wd (p // name).
Proof. rewrite resolve_pjoin. by apply prefix_app_r. Qed.

Section CaseFrame.

Variable required_parameters : gset string.
Variables (reference_directory case_directory : Path).
Variable parameter_dictionary : gmap string pyval.

(** X1. Whatever its outcome, [build_solps_case] leaves the process in its
    directory and changes no entry outside the subtree of the case
    directory: the reference directory and every other run are read only. *)
Theorem build_case_only_touches_case (w : World) :
  let w' := (build_solps_case required_parameters reference_directory
               case_directory parameter_dictionary w).1 in
  cwd w' = cwd w
  ∧ ∀ p, ¬ resolve (cwd w) case_directory `prefix_of` p → fs w' !! p = fs w !! p.
Proof.
  set (wd := cwd w). set (a := resolve wd case_directory).
  assert (H : confined wd a (build_solps_case required_parameters reference_directory
                               case_directory parameter_dictionary)).
  { unfold build_solps_case, process_template.
    repeat first
      [ apply confined_bind; [|intros ?]
      | apply confined_for_each; intros ?
      | apply confined_filter_m; intros ?
      | apply confined_fold_m; intros ? ?
      | match goal with |- confined _ _ (if ?b then _ else _) => destruct b end
      | match goal with |- confined _ _ (let '(_, _) := ?x in _) => destruct x end
      | apply confined_ret | apply confined_raise | apply confined_lift
      | apply confined_isfile | apply confined_read_text
      | apply confined_mkdir; reflexivity
      | apply confined_copy; apply prefix_resolve_pjoin
      | apply confined_write_text; apply prefix_resolve_pjoin ]. }
  by apply H.
Qed.

End CaseFrame.

(** ** Early failures of the case builder *)

Section CaseFailures.

Variable required_parameters : gset string.
Variables (reference_directory case_directory : Path).
Variable parameter_dictionary : gmap string pyval.



End CaseFailures.

(** ** What a successful build leaves in the case directory *)

Section Contents.

Variables (t0 : gmap abspath node) (wd r a : abspath).
Variables (reference_directory case_directory : Path).
Hypothesis Href : resolve wd reference_directory = r.
Hypothesis Hcase : resolve wd case_directory = a.
Hypothesis Hra : r ≠ a.
Hypothesis Hnew : t0 !! a = None.

Lemma case_inv_reference_node t f c :
  case_inv t0 a t → t0 !! (r ++ [f]) = Some (File c) → t !! (r ++ [f]) = Some (File c).
Proof.
  intros (Hd & Hsub & Hout) Hc. rewrite Hout; [done| |].
  - intros E. by rewrite E, Hnew in Hc.
  - intros n E. by apply app_inj_tail in E as [? _].
Qed.

Lemma copy_into_case_content t f g c :
  case_inv t0 a t → t0 !! (r ++ [f]) = Some (File c) →
  copy (reference_directory // f) (case_directory // g) (mkWorld t wd)
  = (mkWorld (<[a ++ [g] := File c]> t) wd, Ok tt).
Proof.
  intros Hinv Hc. unfold copy. simpl. rewrite !resolve_pjoin, Href, Hcase.
  rewrite (case_inv_not_dir t0 a t g Hinv), (node_at_snoc t r f).
  rewrite (case_inv_reference_node t f c Hinv Hc).
  rewrite bool_decide_eq_false_2.
  2:{ intros E. by apply app_inj_tail in E as [? _]. }
  pose proof (case_inv_not_dir t0 a t g Hinv) as Hnd. unfold is_dir in Hnd.
  rewrite (case_inv_parent t0 wd r a case_directory Hcase Hra Hnew t g Hinv).
  by destruct (node_at t (a ++ [g])) as [[]|].
Qed.

Lemma copy_inputs_contents names : ∀ t,
  case_inv t0 a t →
  ∃ t', for_each names (λ input,
          isfile (reference_directory // input) ≫= λ present : bool,
          if present
          then copy (reference_directory // input) (case_directory // input)
          else mret tt) (mkWorld t wd)
        = (mkWorld t' wd, Ok tt)
        ∧ case_inv t0 a t'
        ∧ ∀ n, t' !! (a ++ [n])
               = if bool_decide (n ∈ names) && is_file t0 (r ++ [n])
                 then t0 !! (r ++ [n]) else t !! (a ++ [n]).
Proof.
  induction names as [|f names IH]; intros t Hinv; simpl.
  - exists t. split_and!; [done|done|]. intros n.
    first [done | by rewrite bool_decide_eq_false_2 by apply not_elem_of_nil].
  - unfold mbind at 1, M_bind at 1. unfold mbind at 1, M_bind at 1, isfile at 1. simpl.
    rewrite resolve_pjoin, Href.
    rewrite (proj1 (case_inv_reference t0 r a Hra Hnew t f Hinv)).
    destruct (is_file t0 (r ++ [f])) eqn:Hf.
    + destruct (proj1 (is_file_lookup _ _ _) Hf) as [c Hc].
      rewrite (copy_into_case_content t f f c Hinv Hc).
      destruct (IH (<[a ++ [f] := File c]> t)) as (t' & Hrun & Hinv' & Hlook);
        [by apply case_inv_insert|].
      exists t'. split_and!; [done|done|]. intros n. rewrite Hlook.
      destruct (decide (n = f)) as [->|Hne].
      * rewrite Hf, lookup_insert_eq, Hc, !andb_true_r.
        rewrite (bool_decide_eq_true_2 (f ∈ f :: names)) by by left.
        by destruct (bool_decide (f ∈ names)).
      * rewrite lookup_insert_ne by (intros E; by apply app_inj_tail in E as [_ ?]).
        replace (bool_decide (n ∈ f :: names)) with (bool_decide (n ∈ names)); [done|].
        apply bool_decide_ext. rewrite elem_of_cons. tauto.
    + destruct (IH t Hinv) as (t' & Hrun & Hinv' & Hlook).
      exists t'. split_and!; [done|done|]. intros n. rewrite Hlook.
      destruct (decide (n = f)) as [->|Hne].
      * by rewrite Hf, !andb_false_r.
      * replace (bool_decide (n ∈ f :: names)) with (bool_decide (n ∈ names)); [done|].
        apply bool_decide_ext. rewrite elem_of_cons. tauto.
Qed.

Variable parameter_dictionary : gmap string pyval.
Variable optional_params : gset string.

Lemma process_templates_contents mifs : ∀ t W,
  case_inv t0 a t →
  (∀ mif, mif ∈ mifs → is_file t0 (r ++ [mif]) = true) →
  (∀ mif line, mif ∈ mifs → line ∈ lines_of t0 (r ++ [mif]) →
     text_valued parameter_dictionary (elements optional_params) line) →
  ∃ t' W',
    fold_m (process_template reference_directory case_directory
              parameter_dictionary optional_params) W mifs (mkWorld t wd)
    = (mkWorld t' wd, Ok W')
    ∧ case_inv t0 a t'
    ∧ ∀ n, t' !! (a ++ [n])
           = if bool_decide (n ∈ mifs)
             then Some (File (written_content (lines_of t0 (r ++ [n]))))
             else t !! (a ++ [n]).
Proof.
  induction mifs as [|mif mifs IH]; intros t W Hinv Hfiles Hv; simpl.
  - exists t, W. split_and!; [done|done|]. intros n.
    first [done | by rewrite bool_decide_eq_false_2 by apply not_elem_of_nil].
  - destruct (proj1 (is_file_lookup _ _ _) (Hfiles mif (list_elem_of_here _ _)))
      as [c Hc].
    assert (Hl : lines_of t0 (r ++ [mif]) = file_lines c).
    { unfold lines_of. by rewrite Hc. }
    destruct (process_lines_ok parameter_dictionary optional_params (file_lines c) W)
      as (W1 & Hrun & _).
    { intros line Hline. apply (Hv mif); [by left|by rewrite Hl]. }
    destruct (IH (<[a ++ [mif] := File (written_content (file_lines c))]> t) W1)
      as (t' & W' & Hfold & Hinv' & Hlook).
    { by apply case_inv_insert. }
    { intros m Hm. apply Hfiles. by right. }
    { intros m line Hm. apply Hv. by right. }
    exists t', W'. split_and!; [|done|].
    + unfold mbind at 1, M_bind at 1. unfold process_template at 1.
      unfold mbind at 1, M_bind at 1. unfold read_text at 1. simpl.
      rewrite resolve_pjoin, Href, node_at_snoc.
      rewrite (case_inv_reference_node t mif c Hinv Hc).
      unfold mbind at 1, M_bind at 1, lift at 1. rewrite Hrun.
      unfold mbind at 1, M_bind at 1.
      rewrite (write_into_case t0 wd r a case_directory Hcase Hra Hnew t mif _ Hinv).
      unfold mret at 1, M_ret at 1. apply Hfold.
    + intros n. rewrite Hlook. destruct (decide (n = mif)) as [->|Hne].
      * rewrite lookup_insert_eq, Hl.
        rewrite (bool_decide_eq_true_2 (mif ∈ mif :: mifs)) by by left.
        by destruct (bool_decide (mif ∈ mifs)).
      * rewrite lookup_insert_ne by (intros E; by apply app_inj_tail in E as [_ ?]).
        replace (bool_decide (n ∈ mif :: mifs)) with (bool_decide (n ∈ mifs)); [done|].
        apply bool_decide_ext. rewrite elem_of_cons. tauto.
Qed.

End Contents.

Lemma case_names_disjoint :
  ("b2fstati"%string ∉ input_files)
  ∧ Forall (λ n, (n ∉ input_files) ∧ n ≠ "b2fstati"%string) mesa_names.
Proof. split; by_evaluation. Qed.

Section CaseContents.

Variable required_parameters : gset string.
Variables (reference_directory case_directory : Path).
Variable parameter_dictionary : gmap string pyval.

(** The steps of [build_solps_case] up to the list of present templates,
    from a tree that meets the builder's preconditions. *)
Lemma build_reaches_templates (t : gmap abspath node) (wd : abspath) :
  let r := resolve wd reference_directory in
  let a := resolve wd case_directory in
  fs_wf t →
  node_at t a = None →
  is_dir t (removelast a) = true →
  is_file t (r ++ ["b2fstate"%string]) = true →
  r ≠ a ∧ (t !! a = None)
  ∧ (∃ t2, case_inv t a t2
      ∧ (∀ n, t2 !! (a ++ [n]) = case_entry t r false n)
      ∧ ∀ k : list string → M unit,
          (mkdir case_directory ;;
           copy (reference_directory // "b2fstate") (case_directory // "b2fstati") ;;
           for_each input_files (λ input,
             isfile (reference_directory // input) ≫= λ present : bool,
             if present
             then copy (reference_directory // input) (case_directory // input)
             else mret tt) ;;
           filter_m (λ f, isfile (reference_directory // f)) mesa_names ≫= k)
            (mkWorld t wd)
          = k (present_templates t r) (mkWorld t2 wd)).
Proof.
  intros r a Hwf Hnone Hparent Hbase.
  assert (Hra : r ≠ a).
  { intros E. apply wf_file_parent in Hbase; [|done].
    unfold is_dir in Hbase. by rewrite E, Hnone in Hbase. }
  assert (Hnew : t !! a = None) by (by destruct a).
  split_and!; [done|done|].
  pose proof (case_inv_mkdir t a Hwf Hnone) as Hinv0.
  destruct (proj1 (is_file_lookup _ _ _) Hbase) as [c Hc].
  pose proof (copy_into_case_content t wd r a reference_directory case_directory
                eq_refl eq_refl Hra Hnew _ "b2fstate" "b2fstati" c Hinv0 Hc) as Hcopy.
  pose proof (case_inv_insert t a _ "b2fstati" c Hinv0) as Hinv1.
  destruct (copy_inputs_contents t wd r a reference_directory case_directory
              eq_refl eq_refl Hra Hnew input_files _ Hinv1)
    as (t2 & Hinputs & Hinv2 & Hlook).
  exists t2. split_and!; [done| |].
  - intros n. rewrite Hlook. unfold case_entry. cbn [andb].
    destruct case_names_disjoint as [Hb _].
    destruct (decide (n = "b2fstati"%string)) as [->|Hne].
    + rewrite (bool_decide_eq_false_2 ("b2fstati"%string ∈ input_files)) by done.
      rewrite (bool_decide_eq_true_2 ("b2fstati"%string = "b2fstati"%string)) by done.
      cbn [andb]. by rewrite lookup_insert_eq, Hc.
    + rewrite (bool_decide_eq_false_2 (n = "b2fstati"%string)) by done.
      destruct (_ && _); [done|].
      rewrite lookup_insert_ne by (intros E; by apply app_inj_tail in E as [_ ?]).
      rewrite lookup_insert_ne by (intros E; by apply (snoc_ne_self a n)).
      by apply wf_no_orphans.
  - intros k.
    erewrite bind_ok by (by apply mkdir_fresh).
    erewrite bind_ok by exact Hcopy.
    erewrite bind_ok by exact Hinputs.
    erewrite bind_ok; [reflexivity|].
    rewrite filter_m_isfile. simpl. do 2 f_equal. unfold present_templates.
    apply list_filter_iff. intros f. fold r.
    by rewrite (proj1 (case_inv_reference t r a Hra Hnew t2 f Hinv2)).
Qed.

(** the outcome of a build that has no optional parameter *)
Lemma build_required_only_outcome (w : World) :
  let r := resolve (cwd w) reference_directory in
  let a := resolve (cwd w) case_directory in
  fs_wf (fs w) →
  node_at (fs w) a = None →
  is_dir (fs w) (removelast a) = true →
  is_file (fs w) (r ++ ["b2fstate"%string]) = true →
  dom parameter_dictionary ∖ required_parameters = ∅ →
  ∃ t', build_solps_case required_parameters reference_directory case_directory
          parameter_dictionary w = (mkWorld t' (cwd w), Ok tt)
    ∧ t' !! a = Some Dir
    ∧ (∀ n, t' !! (a ++ [n]) = case_entry (fs w) r false n)
    ∧ (∀ p, p ≠ a → (∀ n, p ≠ a ++ [n]) → t' !! p = fs w !! p).
Proof.
  destruct w as [t wd]. simpl. intros Hwf Hnone Hparent Hbase Hopt.
  destruct (build_reaches_templates t wd Hwf Hnone Hparent Hbase)
    as (_ & _ & t2 & (Hd & _ & Hout) & Hlook & Hprefix).
  exists t2. split_and!; [|done|done|done].
  unfold build_solps_case. cbv zeta. fold mesa_names. rewrite Hprefix, Hopt.
  by rewrite size_empty.
Qed.

(** X4. With required parameters only, on a tree that meets the builder's
    preconditions, [build_solps_case] returns normally and the case
    directory holds exactly the base state under the name [b2fstati] and a
    verbatim copy of each input file that the reference directory has;
    templates are not looked at, and nothing else in the tree changes. *)
Theorem build_case_required_only (w : World) :
  let r := resolve (cwd w) reference_directory in
  let a := resolve (cwd w) case_directory in
  fs_wf (fs w) →
  node_at (fs w) a = None →
  is_dir (fs w) (removelast a) = true →
  is_file (fs w) (r ++ ["b2fstate"%string]) = true →
  dom parameter_dictionary ∖ required_parameters = ∅ →
  ∃ t', build_solps_case required_parameters reference_directory case_directory
          parameter_dictionary w = (mkWorld t' (cwd w), Ok tt)
    ∧ t' !! a = Some Dir
    ∧ (∀ n, t' !! (a ++ [n]) = case_entry (fs w) r false n)
    ∧ (∀ p, p ≠ a → (∀ n, p ≠ a ++ [n]) → t' !! p = fs w !! p).
Proof.
  destruct w as [t wd]. simpl. intros Hwf Hnone Hparent Hbase Hopt.
  destruct (build_reaches_templates t wd Hwf Hnone Hparent Hbase)
    as (_ & _ & t2 & (Hd & _ & Hout) & Hlook & Hprefix).
  exists t2. split_and!; [|done|done|done].
  unfold build_solps_case. cbv zeta. fold mesa_names. rewrite Hprefix, Hopt.
  by rewrite size_empty.
Qed.

(** X6. With optional parameters that all have text values and all occur
    in some template, on a tree that meets the builder's preconditions,
    [build_solps_case] returns normally; besides the base state and the
    input files, the case directory then holds, under the template's own
    name, every line of each present template as it was read, followed by
    one more newline. *)
Theorem build_case_templates_written (w : World) :
  let r := resolve (cwd w) reference_directory in
  let a := resolve (cwd w) case_directory in
  let optional_params := dom parameter_dictionary ∖ required_parameters in
  fs_wf (fs w) →
  node_at (fs w) a = None →
  is_dir (fs w) (removelast a) = true →
  is_file (fs w) (r ++ ["b2fstate"%string]) = true →
  optional_params ≠ ∅ →
  (∀ p, p ∈ optional_params →
        mentioned (fs w) r p ∧ ∃ s, parameter_dictionary !! p = Some (PyStr s)) →
  ∃ t', build_solps_case required_parameters reference_directory case_directory
          parameter_dictionary w = (mkWorld t' (cwd w), Ok tt)
    ∧ t' !! a = Some Dir
    ∧ (∀ n, t' !! (a ++ [n]) = case_entry (fs w) r true n)
    ∧ (∀ p, p ≠ a → (∀ n, p ≠ a ++ [n]) → t' !! p = fs w !! p).
Proof.
  destruct w as [t wd]. simpl. intros Hwf Hnone Hparent Hbase Hopt Hall.
  set (r := resolve wd reference_directory) in *.
  set (a := resolve wd case_directory) in *.
  set (optional := dom parameter_dictionary ∖ required_parameters) in *.
  destruct (build_reaches_templates t wd Hwf Hnone Hparent Hbase)
    as (Hra & Hnew & t2 & Hinv2 & Hlook2 & Hprefix). fold r a in Hra, Hnew, Hinv2, Hlook2.
  assert (Hfiles : ∀ mif, mif ∈ present_templates t r → is_file t (r ++ [mif]) = true).
  { intros mif Hmif. unfold present_templates in Hmif.
    by apply list_elem_of_filter in Hmif as [? _]. }
  assert (Hvalued : ∀ mif line, mif ∈ present_templates t r →
            line ∈ lines_of t (r ++ [mif]) →
            text_valued parameter_dictionary (elements optional) line).
  { intros mif line _ _ p Hp _. by apply Hall, elem_of_elements. }
  destruct (process_templates t wd r a reference_directory case_directory
              eq_refl eq_refl Hra Hnew parameter_dictionary optional
              (present_templates t r) t2 ∅ Hinv2 Hfiles Hvalued)
    as (t3 & W & Hfold & _ & HW).
  destruct (process_templates_contents t wd r a reference_directory case_directory
              eq_refl eq_refl Hra Hnew parameter_dictionary optional
              (present_templates t r) t2 ∅ Hinv2 Hfiles Hvalued)
    as (t3' & W' & Hfold' & (Hd & Hsub & Hout) & Hlook3).
  rewrite Hfold in Hfold'. injection Hfold' as <- <-.
  assert (Hsome : present_templates t r ≠ []).
  { apply set_choose_L in Hopt as [p Hp].
    destruct (Hall p Hp) as [(mif & _ & Hmif & _) _]. by intros E; rewrite E in Hmif;
      apply elem_of_nil in Hmif. }
  assert (HU : optional ∖ W = ∅).
  { apply set_eq. intros p. rewrite elem_of_difference, HW. split; [|by intros ?%elem_of_empty].
    intros [Hp Hnot]. destruct Hnot. right. split; [done|].
    destruct (Hall p Hp) as [(mif & line & ? & ? & ?%contains_occurs) _].
    by exists mif, line. }
  exists t3. split_and!; [|done| |done].
  - unfold build_solps_case. cbv zeta. fold mesa_names. fold r optional.
    rewrite Hprefix.
    rewrite (bool_decide_eq_false_2 (size optional = 0%nat))
      by (by intros ?%size_empty_iff%leibniz_equiv).
    change (negb false) with true. cbv iota.
    rewrite bool_decide_eq_false_2 by (by intros ?%nil_length_inv).
    erewrite bind_ok by reflexivity.
    erewrite bind_ok by exact Hfold.
    by rewrite HU, size_empty.
  - intros n. rewrite Hlook3, Hlook2. unfold case_entry. cbn [andb].
    destruct case_names_disjoint as [_ Hm]. rewrite Forall_forall in Hm.
    destruct (bool_decide (n ∈ present_templates t r)) eqn:Hn.
    + apply bool_decide_eq_true in Hn. unfold present_templates in Hn.
      apply list_elem_of_filter in Hn as [_ Hn]. destruct (Hm n Hn) as [Hni Hnb].
      rewrite (bool_decide_eq_false_2 (n = "b2fstati"%string)) by done.
      by rewrite (bool_decide_eq_false_2 (n ∈ input_files)) by done.
    + done.
Qed.

End CaseContents.

(** ** Values that are not text *)

Section Outcomes.

Variable parameter_dictionary : gmap string pyval.

(** On keys of the dictionary the loop over the parameters either goes
    through, and then every placeholder it met had a text value, or stops
    with [TypeError]. *)
Lemma substitute_unfold line W q :
  substitute parameter_dictionary line W q
  = if contains (placeholder q) line
    then match parameter_dictionary !! q with
         | Some (PyStr _) => Ok ({[q]} ∪ W)
         | Some (PyFloat _) => Err TypeError
         | None => Err (KeyError q)
         end
    else Ok W.
Proof.
  unfold substitute, getitem. destruct (contains _ _); [|done].
  by destruct (parameter_dictionary !! q) as [[]|].
Qed.

Lemma substitute_all_outcome line : ∀ ps W,
  (∀ p, p ∈ ps → is_Some (parameter_dictionary !! p)) →
  (∃ W', substitute_all parameter_dictionary line W ps = Ok W'
         ∧ text_valued parameter_dictionary ps line)
  ∨ substitute_all parameter_dictionary line W ps = Err TypeError.
Proof.
  induction ps as [|q ps IH]; intros W Hdom.
  - left. exists W. split; [done|]. by intros p ?%elem_of_nil.
  - assert (Hps : ∀ p, p ∈ ps → is_Some (parameter_dictionary !! p))
      by (intros p Hp; apply Hdom; by right).
    change (substitute_all parameter_dictionary line W (q :: ps))
      with (substitute parameter_dictionary line W q
              ≫= λ w, substitute_all parameter_dictionary line w ps).
    rewrite substitute_unfold.
    destruct (contains (placeholder q) line) eqn:Hq.
    + destruct (Hdom q) as [v Hv]; [by left|]. rewrite Hv.
      destruct v as [s|x]; [|by right].
      change (Ok ({[q]} ∪ W) ≫= λ w, substitute_all parameter_dictionary line w ps)
        with (substitute_all parameter_dictionary line ({[q]} ∪ W) ps).
      destruct (IH ({[q]} ∪ W) Hps) as [(W' & -> & Hval)| ->]; [left|by right].
      exists W'. split; [done|].
      intros p [->|Hp]%elem_of_cons Hc; [by exists s|by apply Hval].
    + change (Ok W ≫= λ w, substitute_all parameter_dictionary line w ps)
        with (substitute_all parameter_dictionary line W ps).
      destruct (IH W Hps) as [(W' & -> & Hval)| ->]; [left|by right].
      exists W'. split; [done|].
      intros p [->|Hp]%elem_of_cons Hc; [congruence|by apply Hval].
Qed.

Lemma process_lines_outcome (optional_params : gset string) : ∀ lines W,
  optional_params ⊆ dom parameter_dictionary →
  (∃ W', process_lines parameter_dictionary optional_params W lines = Ok (W', lines)
         ∧ ∀ line, line ∈ lines →
             text_valued parameter_dictionary (elements optional_params) line)
  ∨ process_lines parameter_dictionary optional_params W lines = Err TypeError.
Proof.
  intros lines W Hdom. revert W.
  assert (Hkeys : ∀ p, p ∈ elements optional_params →
                       is_Some (parameter_dictionary !! p)).
  { intros p Hp%elem_of_elements. by apply elem_of_dom, Hdom. }
  induction lines as [|l lines IH]; intros W.
  - left. exists W. split; [done|]. by intros line ?%elem_of_nil.
  - change (process_lines parameter_dictionary optional_params W (l :: lines))
      with (substitute_all parameter_dictionary l W (elements optional_params)
              ≫= λ w, process_lines parameter_dictionary optional_params w lines
              ≫= λ '(w', output), Ok (w', l :: output)).
    destruct (substitute_all_outcome l (elements optional_params) W Hkeys)
      as [(W1 & -> & Hval)| ->]; [|by right].
    change (Ok W1 ≫= ?k) with (k W1). cbv beta.
    destruct (IH W1) as [(W' & -> & Hvals)| ->]; [left|by right].
    exists W'. split; [done|].
    intros line [->|Hl]%elem_of_cons; [done|by apply Hvals].
Qed.

Variables (t0 : gmap abspath node) (wd r a : abspath).
Variables (reference_directory case_directory : Path).
Hypothesis Href : resolve wd reference_directory = r.
Hypothesis Hcase : resolve wd case_directory = a.
Hypothesis Hra : r ≠ a.
Hypothesis Hnew : t0 !! a = None.
Variable optional_params : gset string.
Hypothesis Hdom : optional_params ⊆ dom parameter_dictionary.

Lemma process_templates_outcome mifs : ∀ t W,
  case_inv t0 a t →
  (∀ mif, mif ∈ mifs → is_file t0 (r ++ [mif]) = true) →
  ∃ t' res,
    fold_m (process_template reference_directory case_directory
              parameter_dictionary optional_params) W mifs (mkWorld t wd)
    = (mkWorld t' wd, res)
    ∧ (res = Err TypeError
       ∨ (∃ W', res = Ok W')
         ∧ ∀ mif line, mif ∈ mifs → line ∈ lines_of t0 (r ++ [mif]) →
             text_valued parameter_dictionary (elements optional_params) line).
Proof.
  induction mifs as [|mif mifs IH]; intros t W Hinv Hfiles; simpl.
  - exists t, (Ok W). split; [done|]. right. split; [by eexists|].
    by intros mif line ?%elem_of_nil.
  - destruct (proj1 (is_file_lookup _ _ _) (Hfiles mif (list_elem_of_here _ _)))
      as [c Hc].
    assert (Hl : lines_of t0 (r ++ [mif]) = file_lines c).
    { unfold lines_of. by rewrite Hc. }
    assert (Hread : read_text (reference_directory // mif) (mkWorld t wd)
                    = (mkWorld t wd, Ok c)).
    { unfold read_text. simpl. rewrite resolve_pjoin, Href, node_at_snoc.
      by rewrite (case_inv_reference_node t0 r a Hra Hnew t mif c Hinv Hc). }
    unfold mbind at 1, M_bind at 1. unfold process_template at 1.
    erewrite bind_ok by exact Hread.
    unfold mbind at 1, M_bind at 1, lift at 1.
    destruct (process_lines_outcome optional_params (file_lines c) W Hdom)
      as [(W1 & -> & Hval)| ->].
    + unfold mbind at 1, M_bind at 1.
      rewrite (write_into_case t0 wd r a case_directory Hcase Hra Hnew t mif _ Hinv).
      unfold mret at 1, M_ret at 1.
      destruct (IH (<[a ++ [mif] := File (written_content (file_lines c))]> t) W1)
        as (t' & res & Hfold & Hres).
      { by apply case_inv_insert. }
      { intros m Hm. apply Hfiles. by right. }
      exists t', res. split; [done|].
      destruct Hres as [->|[Hok Hvals]]; [by left|right]. split; [done|].
      intros m line [->|Hm]%elem_of_cons Hline; [|by apply (Hvals m)].
      apply Hval. by rewrite <- Hl.
    + exists t, (Err TypeError). split; [done|by left].
Qed.

End Outcomes.

Section FloatValues.

Variable required_parameters : gset string.
Variables (reference_directory case_directory : Path).
Variable parameter_dictionary : gmap string pyval.

(** X5. On a tree that meets the builder's preconditions, an optional
    parameter whose value is a float and whose placeholder occurs in a
    present template makes [build_solps_case] raise [TypeError]:
    [str.replace] does not take a float. *)
Theorem build_case_float_value (w : World) (p : string) (x : Q) :
  let r := resolve (cwd w) reference_directory in
  let a := resolve (cwd w) case_directory in
  fs_wf (fs w) →
  node_at (fs w) a = None →
  is_dir (fs w) (removelast a) = true →
  is_file (fs w) (r ++ ["b2fstate"%string]) = true →
  p ∉ required_parameters →
  parameter_dictionary !! p = Some (PyFloat x) →
  mentioned (fs w) r p →
  (build_solps_case required_parameters reference_directory case_directory
     parameter_dictionary w).2 = Err TypeError.
Proof.
  destruct w as [t wd]. simpl. intros Hwf Hnone Hparent Hbase Hreq Hx Hm.
  set (r := resolve wd reference_directory) in *.
  set (a := resolve wd case_directory) in *.
  set (optional := dom parameter_dictionary ∖ required_parameters).
  assert (Hp : p ∈ optional).
  { apply elem_of_difference. split; [|done]. apply elem_of_dom. by eexists. }
  destruct (build_reaches_templates reference_directory case_directory
              t wd Hwf Hnone Hparent Hbase)
    as (Hra & Hnew & t2 & Hinv2 & _ & Hprefix). fold r a in Hra, Hnew, Hinv2.
  destruct Hm as (mif & line & Hmif & Hline & Hocc).
  destruct (process_templates_outcome parameter_dictionary t wd r a
              reference_directory case_directory eq_refl eq_refl Hra Hnew optional
              (λ q Hq, proj1 (proj1 (elem_of_difference _ _ _) Hq))
              (present_templates t r) t2 ∅ Hinv2)
    as (t3 & res & Hfold & Hres).
  { intros m Hmm. unfold present_templates in Hmm.
    by apply list_elem_of_filter in Hmm as [? _]. }
  unfold build_solps_case. cbv zeta. fold mesa_names. fold r optional.
  rewrite Hprefix.
  rewrite (bool_decide_eq_false_2 (size optional = 0%nat)).
  2:{ intros E%size_empty_iff%leibniz_equiv. rewrite E in Hp. by apply elem_of_empty in Hp. }
  change (negb false) with true. cbv iota.
  rewrite bool_decide_eq_false_2.
  2:{ intros E%nil_length_inv. change (present_templates t r = []) in E.
      rewrite E in Hmif. by apply elem_of_nil in Hmif. }
  erewrite bind_ok by reflexivity.
  destruct Hres as [->|[_ Hval]].
  - by erewrite bind_err by exact Hfold.
  - destruct (Hval mif line Hmif Hline p) as [s Hs].
    + by apply elem_of_elements.
    + by apply contains_occurs.
    + congruence.
Qed.

End FloatValues.

(** ** More on the run handle *)

(** what [cleanup] does in an existing run directory *)
Lemma cleanup_outcome (self : SolpsRun) (w : World) :
  let d := resolve (cwd w) (directory self) in
  is_dir (fs w) d = true →
  ∃ t', cleanup self w = (mkWorld t' (cwd w), Ok tt)
    ∧ (∀ n, is_file (fs w) (d ++ [n]) = true → n ∉ allowed_files →
             t' !! (d ++ [n]) = None)
    ∧ (∀ a, ¬ (∃ n, a = d ++ [n] ∧ is_file (fs w) a = true ∧ n ∉ allowed_files) →
             t' !! a = fs w !! a).
Proof.
  intros d Hd. destruct w as [t c]; simpl in *.
  set (names := filter (λ f, f ∉ allowed_files)
                  (filter (λ f, is_file t (d ++ [f]) = true) (entries t d))).
  destruct (for_each_remove (directory self) names t c) as (t' & Hrun & Hgone & Hkept).
  { unfold names. apply NoDup_filter, NoDup_filter, NoDup_entries. }
  { intros n Hn. unfold names in Hn.
    by apply list_elem_of_filter in Hn as [_ [? _]%list_elem_of_filter]. }
  assert (Hin : ∀ n, n ∈ names ↔ is_file t (d ++ [n]) = true ∧ n ∉ allowed_files).
  { intros n. unfold names. rewrite !list_elem_of_filter, elem_of_entries. split.
    - tauto.
    - intros [Hf Hn]. split_and!; try done.
      apply is_file_lookup in Hf as [x ->]. by eexists. }
  exists t'. split_and!.
  - unfold cleanup. unfold mbind, M_bind at 1. unfold listdir at 1. simpl.
    fold d. unfold is_dir in Hd. destruct (node_at t d) as [[]|]; try done.
    unfold M_bind at 1. rewrite filter_m_isfile. simpl. apply Hrun.
  - intros n Hf Hn. apply Hgone, Hin. done.
  - intros a Ha. apply Hkept. intros n [Hf Hn]%Hin ->. apply Ha. by exists n.
Qed.

Lemma cleanup_keeps_directory (self : SolpsRun) (w : World) t' :
  let d := resolve (cwd w) (directory self) in
  is_dir (fs w) d = true →
  (∀ a, ¬ (∃ n, a = d ++ [n] ∧ is_file (fs w) a = true ∧ n ∉ allowed_files) →
        t' !! a = fs w !! a) →
  is_dir t' d = true.
Proof.
  intros d Hd Hsame. unfold is_dir, node_at in *. destruct d as [|x d'] eqn:Ed; [done|].
  rewrite Hsame; [done|]. intros (n & E & _). rewrite <- Ed in E.
  by apply eq_sym, snoc_ne_self in E.
Qed.

(** X7. [cleanup()] can be repeated: in the state a first [cleanup()] has
    left, a second one succeeds and changes nothing. *)
Theorem cleanup_twice (self : SolpsRun) (w : World) :
  is_dir (fs w) (resolve (cwd w) (directory self)) = true →
  ∃ w', cleanup self w = (w', Ok tt) ∧ cleanup self w' = (w', Ok tt).
Proof.
  intros Hd. set (d := resolve (cwd w) (directory self)) in *.
  destruct (cleanup_outcome self w Hd) as (t' & Hrun & Hgone & Hsame).
  fold d in Hgone, Hsame.
  exists (mkWorld t' (cwd w)). split; [done|].
  pose proof (cleanup_keeps_directory self w t' Hd Hsame) as Hd'. fold d in Hd'.
  destruct (cleanup_outcome self (mkWorld t' (cwd w)) Hd') as (t'' & Hrun' & _ & Hsame').
  simpl in Hrun', Hsame'. fold d in Hsame'. rewrite Hrun'. do 2 f_equal.
  apply map_eq. intros p. apply Hsame'.
  intros (n & -> & Hf & Hn).
  destruct (is_file (fs w) (d ++ [n])) eqn:Hf0.
  - apply is_file_lookup in Hf as [c Hc]. by rewrite Hgone in Hc.
  - apply is_file_lookup in Hf as [c Hc]. rewrite Hsame in Hc.
    + assert (is_file (fs w) (d ++ [n]) = true); [|congruence].
      apply is_file_lookup. by eexists.
    + intros (m & E & Hfm & _). apply app_inj_tail in E as [_ <-]. congruence.
Qed.


Section StatusOverTime.

Variables (whoami : result text) (squeue : text → result text).

(** X9. [cleanup()] does not change what [status()] answers: the result
    artifact is on the allow-list. *)
Theorem cleanup_keeps_status (now : float) (self : SolpsRun) (w : World) :
  is_dir (fs w) (resolve (cwd w) (directory self)) = true →
  ∃ w', cleanup self w = (w', Ok tt)
    ∧ (status whoami squeue now self w').2
      = (status whoami squeue now self w).2.
Proof.
  intros Hd. set (d := resolve (cwd w) (directory self)) in *.
  destruct (cleanup_outcome self w Hd) as (t' & Hrun & _ & Hsame).
  fold d in Hsame. exists (mkWorld t' (cwd w)). split; [done|].
  destruct (job_queue whoami squeue) as [queue|e] eqn:Hq.
  2:{ by rewrite !(status_no_queue whoami squeue now self _ e Hq). }
  destruct (contains (run_id self) queue) eqn:Hc.
  { by rewrite !(status_present whoami squeue now self _ queue Hq Hc). }
  rewrite !(status_absent whoami squeue now self _ queue Hq Hc).
  unfold artifact. simpl. fold d. unfold is_file. rewrite !node_at_snoc.
  rewrite Hsame; [done|].
  intros (n & E & _ & Hn). apply app_inj_tail in E as [_ <-].
  apply Hn. by_evaluation.
Qed.

(** X10. Once [status()] has answered ["timed-out"], it answers
    ["timed-out"] at every later time as long as the queue text is the
    same, whatever happens to the files: the subtraction of doubles
    rounds, but it never goes down when the clock goes up.  The times are
    values of the format. *)
Theorem status_timed_out_persists (now later : float) (self : SolpsRun) (w w' : World) :
  float_valid now → float_valid later → float_valid (launch_time self) →
  (status whoami squeue now self w).2 = Ok "timed-out"%string →
  float_le now later = true →
  status whoami squeue later self w' = (w', Ok "timed-out"%string).
Proof.
  intros Vn Vl Vt Hs Hle.
  destruct (job_queue whoami squeue) as [queue|e] eqn:Hq.
  2:{ by rewrite (status_no_queue whoami squeue now self w e Hq) in Hs. }
  destruct (contains (run_id self) queue) eqn:Hc.
  2:{ rewrite (status_absent whoami squeue now self w queue Hq Hc) in Hs.
      simpl in Hs. by destruct (is_file _ _). }
  rewrite (status_present whoami squeue now self w queue Hq Hc) in Hs.
  rewrite (status_present whoami squeue later self w' queue Hq Hc).
  destruct (time_limit self) as [limit|e]; simpl in *; [|done].
  destruct (float_gt (elapsed now self) limit) eqn:Hnow; [|done].
  assert (float_gt (elapsed later self) limit = true) as ->; [|done].
  unfold float_gt, float_le, elapsed, float_sub in *.
  by apply float_sub_monotone with now.
Qed.

(** X17. [status()] does not answer ["timed-out"] before the time is up:
    for finite times and a limit below [2 ^ 53] seconds (which the double
    [timeout_hours * 3600.] then holds exactly), the answer ["timed-out"]
    is only given when the time since launch, in exact arithmetic,
    exceeds [timeout_hours] hours.  The rounding of the subtraction can
    delay the answer, it cannot bring it forward. *)
Theorem status_not_timed_out_early (now : float) (self : SolpsRun) (w : World) :
  float_valid now → float_valid (launch_time self) →
  float_finite now = true → float_finite (launch_time self) = true →
  Z.abs (timeout_hours self) * 3600 < 2 ^ 53 →
  (status whoami squeue now self w).2 = Ok "timed-out"%string →
  exactly_overdue now self.
Proof.
  intros Vn Vt Fn Ft Hh Hs.
  destruct (job_queue whoami squeue) as [queue|e] eqn:Hq.
  2:{ by rewrite (status_no_queue whoami squeue now self w e Hq) in Hs. }
  destruct (contains (run_id self) queue) eqn:Hc.
  2:{ rewrite (status_absent whoami squeue now self w queue Hq Hc) in Hs.
      simpl in Hs. by destruct (is_file _ _). }
  rewrite (status_present whoami squeue now self w queue Hq Hc) in Hs.
  destruct (time_limit self) as [limit|e] eqn:Hl; simpl in Hs; [|done].
  destruct (float_gt (elapsed now self) limit) eqn:Hgt; [|done].
  by apply (timed_out_is_overdue now self limit).
Qed.

End StatusOverTime.

(** ** What is cut out of the scheduler's answer *)

Lemma py_slice_tail (X E : text) (q : ascii) :
  py_slice (X ++ E ++ [q]) (Z.of_nat (length X) + 1) (-3)
  = drop 1 (take (length E - 2) E).
Proof.
  unfold py_slice, slice_bound. rewrite !length_app. simpl length.
  destruct (Z.ltb_spec (Z.of_nat (length X) + 1) 0); [lia|].
  change (-3 <? 0) with true. cbv iota.
  replace (Z.to_nat (Z.min (Z.of_nat (length X) + 1)
                       (Z.of_nat (length X + (length E + 1)))))
    with (length X + 1)%nat by lia.
  rewrite <- drop_drop, drop_app_length.
  destruct (decide (length E ≤ 2)%nat) as [Hle|Hgt].
  - replace (length E - 2)%nat with 0%nat by lia.
    replace (Z.to_nat _) with 0%nat by lia. by rewrite !take_0.
  - replace (Z.to_nat _) with (length E - 3)%nat by lia.
    rewrite drop_app_le by lia.
    rewrite take_app_le by (rewrite length_drop; lia).
    rewrite take_drop_commute. do 2 f_equal. lia.
Qed.

Lemma escape_marker_bytes q :
  q = squote ∨ q = dquote →
  flat_map (escape_char q) (bytes_text marker_bytes) = findstr.
Proof. by intros [-> | ->]; vm_compute. Qed.

(** where the slice falls in [str(output)] *)
Lemma parse_job_id_shown (pre rest : list Byte.byte) :
  let out := pre ++ marker_bytes ++ rest in
  let shown := flat_map (escape_char (repr_quote (bytes_text out))) (bytes_text rest) in
  ¬ occurs_in findstr (bytes_text pre) →
  parse_job_id out = drop 1 (take (length shown - 2) shown).
Proof.
  intros out shown Hno. unfold parse_job_id, bytes_repr. cbv zeta.
  set (q := repr_quote (bytes_text out)) in *.
  assert (Hq : q = squote ∨ q = dquote) by apply repr_quote_cases.
  unfold out, bytes_text. rewrite !map_app, !flat_map_app.
  change (map ascii_of_byte marker_bytes) with (bytes_text marker_bytes).
  change (map ascii_of_byte pre) with (bytes_text pre).
  change (map ascii_of_byte rest) with (bytes_text rest).
  rewrite (escape_marker_bytes q Hq). fold shown.
  set (A := "b"%char :: q :: flat_map (escape_char q) (bytes_text pre)).
  replace ("b"%char :: q :: (flat_map (escape_char q) (bytes_text pre) ++ findstr ++ shown)
           ++ [q])
    with (A ++ findstr ++ shown ++ [q])
    by (unfold A; simpl; by rewrite <- !app_assoc).
  assert (HS : ("S"%char : ascii) ≠ q) by (destruct Hq as [-> | ->]; by_evaluation).
  assert (Hfind : find (A ++ findstr ++ shown ++ [q]) findstr = Z.of_nat (length A)).
  { unfold find. change findstr with ("S"%char :: txt "ubmitted batch job").
    rewrite find_from_unique; [lia|by_evaluation|].
    unfold A. intros [Hp|[Hp|Ho]%occurs_in_cons]%occurs_in_cons.
    - by apply prefix_cons_inv_1 in Hp.
    - by apply prefix_cons_inv_1 in Hp.
    - apply Hno. apply (occurs_in_unescaped q); [by_evaluation|done|by_evaluation|done]. }
  rewrite Hfind.
  rewrite (app_assoc A findstr).
  replace (Z.of_nat (length A) + Z.of_nat (length findstr) + 1)
    with (Z.of_nat (length (A ++ findstr)) + 1) by (rewrite length_app; lia).
  apply py_slice_tail.
Qed.

(** X11. When the marker does not occur before it, the job id is what
    [str()] shows of the bytes that follow the first marker, without its
    first character and without its last two: nothing in the code looks for
    the end of the line or of the number. *)
Theorem parse_job_id_after_marker (pre rest : list Byte.byte) :
  let out := pre ++ marker_bytes ++ rest in
  let shown := flat_map (escape_char (repr_quote (bytes_text out))) (bytes_text rest) in
  ¬ occurs_in findstr (bytes_text pre) →
  parse_job_id out = drop 1 (take (length shown - 2) shown).
Proof. apply parse_job_id_shown. Qed.

Lemma escape_digit q c :
  q = squote ∨ q = dquote → is_digit c = true → escape_char q c = [c].
Proof.
  intros [-> | ->] Hd; destruct c as [[] [] [] [] [] [] [] []];
    try discriminate Hd; reflexivity.
Qed.

Lemma escape_digits q id :
  q = squote ∨ q = dquote → digits id →
  flat_map (escape_char q) (bytes_text id) = bytes_text id.
Proof.
  intros Hq. induction 1 as [|b id Hb _ IH]; [done|].
  unfold bytes_text in *. simpl. by rewrite (escape_digit q _ Hq Hb), IH.
Qed.

(** X12. For every number, printed in decimal after the marker and a
    space and followed by a newline, the job id is that number, whatever
    the submission printed before the marker (as long as it is not the
    marker). *)
Theorem parse_job_id_digits (pre id : list Byte.byte) :
  ¬ occurs_in findstr (bytes_text pre) →
  digits id →
  parse_job_id (pre ++ marker_bytes ++ [Byte.x20] ++ id ++ [Byte.x0a]) = bytes_text id.
Proof.
  intros Hno Hid.
  rewrite (parse_job_id_shown pre ([Byte.x20] ++ id ++ [Byte.x0a]) Hno).
  set (q := repr_quote _).
  assert (Hq : q = squote ∨ q = dquote) by apply repr_quote_cases.
  unfold bytes_text. rewrite !map_app, !flat_map_app.
  change (map ascii_of_byte id) with (bytes_text id).
  rewrite (escape_digits q id Hq Hid).
  replace (flat_map (escape_char q) (map ascii_of_byte [Byte.x20])) with [" "%char]
    by (by destruct Hq as [-> | ->]).
  replace (flat_map (escape_char q) (map ascii_of_byte [Byte.x0a]))
    with [backslash; "n"%char] by (by destruct Hq as [-> | ->]).
  rewrite !length_app. simpl length.
  replace (1 + (length (bytes_text id) + 2) - 2)%nat
    with (length ([" "%char] ++ bytes_text id)) by (rewrite length_app; simpl; lia).
  rewrite (app_assoc [" "%char]), take_app_length. done.
Qed.

(** X13. Without the newline after the number, the job id loses the last
    two digits of the number. *)
Theorem parse_job_id_no_newline (pre id : list Byte.byte) :
  ¬ occurs_in findstr (bytes_text pre) →
  digits id →
  parse_job_id (pre ++ marker_bytes ++ [Byte.x20] ++ id)
  = take (length id - 2) (bytes_text id).
Proof.
  intros Hno Hid.
  rewrite (parse_job_id_shown pre ([Byte.x20] ++ id) Hno).
  set (q := repr_quote _).
  assert (Hq : q = squote ∨ q = dquote) by apply repr_quote_cases.
  unfold bytes_text. rewrite !map_app, !flat_map_app.
  change (map ascii_of_byte id) with (bytes_text id).
  rewrite (escape_digits q id Hq Hid).
  replace (flat_map (escape_char q) (map ascii_of_byte [Byte.x20])) with [" "%char]
    by (by destruct Hq as [-> | ->]).
  rewrite !length_app. simpl length.
  assert (Hlen : length (bytes_text id) = length id) by apply length_map.
  rewrite Hlen.
  destruct (decide (length id ≤ 1)%nat) as [Hle|Hgt].
  - replace (1 + length id - 2)%nat with 0%nat by lia.
    replace (length id - 2)%nat with 0%nat by lia. by rewrite !take_0.
  - replace (1 + length id - 2)%nat with (S (length id - 2)) by lia.
    done.
Qed.

(** ** Launches that stop half way *)

Lemma getitems_missing d ks1 k ks2 :
  (∀ k', k' ∈ ks1 → is_Some (d !! k')) → d !! k = None →
  getitems d (ks1 ++ k :: ks2) = Err (KeyError k).
Proof.
  intros Hks Hk. induction ks1 as [|k1 ks1 IH]; simpl.
  - unfold getitem. by rewrite Hk.
  - destruct (Hks k1) as [v Hv]; [by left|]. unfold getitem at 1. rewrite Hv. simpl.
    rewrite IH; [done|]. intros k' Hk'. apply Hks. by right.
Qed.

Lemma build_ok_creates required_parameters reference_directory case_directory
    parameter_dictionary w w1 :
  build_solps_case required_parameters reference_directory case_directory
    parameter_dictionary w = (w1, Ok tt) →
  cwd w1 = cwd w ∧ is_Some (node_at (fs w1) (resolve (cwd w) case_directory)).
Proof.
  intros Hb.
  pose proof (growing_build required_parameters reference_directory case_directory
                parameter_dictionary w) as [Hcwd _].
  rewrite Hb in Hcwd. simpl in Hcwd. split; [done|].
  destruct (build_after_mkdir required_parameters reference_directory case_directory
              parameter_dictionary) as (rest & Hrest & E).
  rewrite E in Hb. unfold mbind, M_bind, mkdir in Hb.
  destruct (node_at (fs w) (resolve (cwd w) case_directory)) eqn:Hn; [done|].
  destruct (parent_check _ _); [|done].
  set (wm := mkWorld _ _) in Hb.
  destruct (Hrest wm) as [_ Hk]. rewrite Hb in Hk. simpl in Hk.
  destruct (resolve (cwd w) case_directory) as [|x a'] eqn:Ea; [done|].
  simpl. apply Hk. rewrite lookup_insert_eq. by eexists.
Qed.

Section HalfLaunches.

Variable required_parameters : gset string.
Variables conductivity_profile diffusivity_profile : list string.
Variable axis : Type.
Variable profile_radius_axis : list pyval → Q * Q → result axis.
Variable linear_transport_profile : axis → list pyval → Q * Q → result axis.
Variable write_solps_transport_inputfile :
  abspath → Path → axis → axis → axis → axis → axis → axis →
  bool → bool → bool → gmap abspath node → gmap abspath node * result unit.
Variable shell :
  text → abspath → gmap abspath node → gmap abspath node * (Z * list Byte.byte).

Variables (self : Solps.t) (run_number : Z).
Variables (simulations_directory : Path) (parameters : gmap string pyval).

(** X14. The keys of the conductivity profile are looked up only after the
    case has been built: when one of them is missing from the parameters,
    [launch] raises [KeyError] for the first missing one, nothing is
    submitted, and the case directory stays behind, so that launching the
    same run number again fails with [FileExistsError]. *)
Theorem launch_missing_profile_key (now again : float) (w w1 : World)
    (ks1 ks2 : list string) (k : string) :
  let case_dir := simulations_directory // ("run_" +:+ pretty run_number) in
  let launch_at (time : float) :=
    launch required_parameters conductivity_profile diffusivity_profile axis
      profile_radius_axis linear_transport_profile write_solps_transport_inputfile
      shell self time run_number simulations_directory parameters in
  build_solps_case required_parameters (Solps.reference_directory self)
    case_dir parameters w = (w1, Ok tt) →
  conductivity_profile = ks1 ++ k :: ks2 →
  (∀ k', k' ∈ ks1 → is_Some (parameters !! k')) →
  parameters !! k = None →
  launch_at now w = (w1, Err (KeyError k))
  ∧ launch_at again w1 = (w1, Err (FileExistsError (resolve (cwd w) case_dir))).
Proof.
  intros case_dir launch_at Hb Hks Hin Hk. unfold launch_at, launch. fold case_dir.
  split.
  - erewrite bind_ok by exact Hb. apply bind_err.
    unfold write_transport_input. apply bind_err. unfold lift.
    by rewrite Hks, getitems_missing.
  - destruct (build_ok_creates _ _ _ _ _ _ Hb) as [Hcwd Hsome].
    apply bind_err. rewrite <- Hcwd. apply build_existing. by rewrite Hcwd.
Qed.

(** X15. A relative [simulations_directory] is resolved a second time from
    inside the case directory: unless that path is a directory there, the
    [os.chdir] after the submission raises, so that the job has been
    submitted, no record is returned and the process stays in the case
    directory. *)
Theorem launch_relative_simulations_directory (now : float) (w w1 w2 : World)
    (t3 : gmap abspath node) (code : Z) (out : list Byte.byte) :
  let case_dir := simulations_directory // ("run_" +:+ pretty run_number) in
  let a := resolve (cwd w2) case_dir in
  let back := a ++ parts simulations_directory in
  is_absolute simulations_directory = false →
  build_solps_case required_parameters (Solps.reference_directory self)
    case_dir parameters w = (w1, Ok tt) →
  write_transport_input conductivity_profile diffusivity_profile axis
    profile_radius_axis linear_transport_profile write_solps_transport_inputfile
    self case_dir parameters w1 = (w2, Ok tt) →
  is_dir (fs w2) a = true →
  shell (submit_command self) a (fs w2) = (t3, (code, out)) →
  is_dir t3 back = false →
  ∃ e, launch required_parameters conductivity_profile diffusivity_profile axis
         profile_radius_axis linear_transport_profile write_solps_transport_inputfile
         shell self now run_number simulations_directory parameters w
       = (mkWorld t3 a, Err e)
       ∧ (e = FileNotFoundError back ∨ e = NotADirectoryError back).
Proof.
  intros case_dir a back Hrel Hb Ht Ha Hs Hd. unfold launch. fold case_dir.
  erewrite bind_ok by exact Hb.
  erewrite bind_ok by exact Ht.
  unfold mbind at 1, M_bind at 1, chdir at 1. fold a.
  unfold is_dir in Ha. destruct (node_at (fs w2) a) as [[]|]; try done.
  unfold mbind at 1, M_bind at 1, popen at 1. simpl. rewrite Hs.
  unfold mbind at 1, M_bind at 1, chdir at 1. simpl.
  assert (Hback : resolve a simulations_directory = back)
    by (unfold resolve; by rewrite Hrel).
  rewrite Hback. unfold is_dir in Hd.
  destruct (node_at t3 back) as [[]|]; try done; eexists; (split; [done|auto]).
Qed.

End HalfLaunches.

(** ** Building a case and cleaning it up *)

Section BuildThenCleanup.

Variable required_parameters : gset string.
Variables (reference_directory case_directory : Path).
Variable parameter_dictionary : gmap string pyval.

(** X16. After a build with required parameters only, [cleanup()] on the
    new case directory keeps the copies of the input files that are on the
    allow-list and deletes the rest of what the builder put there: the
    restart file [b2fstati] and the copies of [fort.1] and [fort.13]. *)
Theorem build_then_cleanup (self : SolpsRun) (w : World) :
  let r := resolve (cwd w) reference_directory in
  let a := resolve (cwd w) case_directory in
  directory self = case_directory →
  fs_wf (fs w) →
  node_at (fs w) a = None →
  is_dir (fs w) (removelast a) = true →
  is_file (fs w) (r ++ ["b2fstate"%string]) = true →
  dom parameter_dictionary ∖ required_parameters = ∅ →
  ∃ w1 w2,
    build_solps_case required_parameters reference_directory case_directory
      parameter_dictionary w = (w1, Ok tt)
    ∧ cleanup self w1 = (w2, Ok tt)
    ∧ ∀ n, fs w2 !! (a ++ [n])
           = if bool_decide (n ∈ allowed_files) then case_entry (fs w) r false n
             else None.
Proof.
  intros r a Hdir Hwf Hnone Hparent Hbase Hopt.
  destruct (build_required_only_outcome required_parameters reference_directory
              case_directory parameter_dictionary w Hwf Hnone Hparent Hbase Hopt)
    as (t1 & Hbuild & Hd & Hentries & _). fold r a in Hd, Hentries.
  set (w1 := mkWorld t1 (cwd w)) in *.
  assert (Hd1 : is_dir (fs w1) (resolve (cwd w1) (directory self)) = true).
  { rewrite Hdir. simpl. fold a. unfold is_dir, node_at. destruct a; [done|].
    by rewrite Hd. }
  destruct (cleanup_outcome self w1 Hd1) as (t2 & Hclean & Hgone & Hsame).
  rewrite Hdir in Hgone, Hsame. simpl in Hgone, Hsame. fold a in Hgone, Hsame.
  exists w1, (mkWorld t2 (cwd w)). split_and!; [done|done|].
  intros n. simpl. case_bool_decide as Hn.
  - rewrite Hsame; [apply Hentries|].
    intros (m & E & _ & Hm). by apply app_inj_tail in E as [_ <-].
  - destruct (is_file t1 (a ++ [n])) eqn:Hf; [by apply Hgone|].
    rewrite Hsame.
    2:{ intros (m & E & Hfm & _). congruence. }
    rewrite Hentries. unfold is_file in Hf. rewrite node_at_snoc, Hentries in Hf.
    unfold case_entry in *. cbn [andb] in *.
    destruct (proj1 (is_file_lookup _ _ _) Hbase) as [c Hc]. fold r in Hc.
    case_bool_decide; [by rewrite Hc in Hf|].
    destruct (bool_decide (n ∈ input_files) && is_file (fs w) (r ++ [n])) eqn:Hi; [|done].
    apply andb_true_iff in Hi as [_ [c' Hc']%is_file_lookup]. by rewrite Hc' in Hf.
Qed.

End BuildThenCleanup.

(** ** The further properties on the test bench *)



Lemma build_case_required_only_witness :
  let w := bench_world in
  let r := resolve (cwd w) bench_reference in
  let a := resolve (cwd w) bench_case in
  ∃ t', build_solps_case bench_required bench_reference bench_case
          bench_parameters_required w = (mkWorld t' (cwd w), Ok tt)
    ∧ t' !! a = Some Dir
    ∧ (∀ n, t' !! (a ++ [n]) = case_entry (fs w) r false n)
    ∧ (∀ p, p ≠ a → (∀ n, p ≠ a ++ [n]) → t' !! p = fs w !! p).
Proof.
  refine (build_case_required_only bench_required bench_reference bench_case
            bench_parameters_required bench_world _ _ _ _ _).
  - by_evaluation.
  - vm_compute. reflexivity.
  - vm_compute. reflexivity.
  - vm_compute. reflexivity.
  - by_evaluation.
Defined.

Lemma build_case_float_value_witness :
  (build_solps_case bench_required bench_reference bench_case
     bench_parameters_float bench_world).2 = Err TypeError.
Proof.
  refine (build_case_float_value bench_required bench_reference bench_case
            bench_parameters_float bench_world "X" 1.5 _ _ _ _ _ _ _).
  - by_evaluation.
  - vm_compute. reflexivity.
  - vm_compute. reflexivity.
  - vm_compute. reflexivity.
  - by_evaluation.
  - vm_compute. reflexivity.
  - apply mentioned_reflect. vm_compute. reflexivity.
Defined.

Lemma bench_optional p :
  p ∈ dom bench_parameters ∖ bench_required → p = "X"%string.
Proof.
  intros [Hp Hr]%elem_of_difference.
  apply elem_of_dom in Hp as [v Hv]. unfold bench_parameters in Hv. simpl in Hv.
  repeat (apply lookup_insert_Some in Hv as [[<- _]|[_ Hv]]);
    [destruct Hr; by_evaluation|destruct Hr; by_evaluation|done|done].
Qed.

Lemma build_case_templates_written_witness :
  let w := bench_world in
  let r := resolve (cwd w) bench_reference in
  let a := resolve (cwd w) bench_case in
  ∃ t', build_solps_case bench_required bench_reference bench_case
          bench_parameters w = (mkWorld t' (cwd w), Ok tt)
    ∧ t' !! a = Some Dir
    ∧ (∀ n, t' !! (a ++ [n]) = case_entry (fs w) r true n)
    ∧ (∀ p, p ≠ a → (∀ n, p ≠ a ++ [n]) → t' !! p = fs w !! p).
Proof.
  refine (build_case_templates_written bench_required bench_reference bench_case
            bench_parameters bench_world _ _ _ _ _ _).
  - by_evaluation.
  - vm_compute. reflexivity.
  - vm_compute. reflexivity.
  - vm_compute. reflexivity.
  - by_evaluation.
  - intros p ->%bench_optional. split.
    + apply mentioned_reflect. vm_compute. reflexivity.
    + eexists. vm_compute. reflexivity.
Defined.

Lemma cleanup_twice_witness :
  ∃ w', cleanup bench_run bench_world_finished = (w', Ok tt)
        ∧ cleanup bench_run w' = (w', Ok tt).
Proof.
  refine (cleanup_twice bench_run bench_world_finished _).
  vm_compute. reflexivity.
Defined.


Lemma cleanup_keeps_status_witness :
  ∃ w', cleanup bench_run bench_world_finished = (w', Ok tt)
    ∧ (status (Ok (txt "user")) bench_queue (clock 2000) bench_run w').2
      = (status (Ok (txt "user")) bench_queue (clock 2000) bench_run
           bench_world_finished).2.
Proof.
  refine (cleanup_keeps_status (Ok (txt "user")) bench_queue (clock 2000) bench_run
            bench_world_finished _).
  vm_compute. reflexivity.
Defined.

Lemma status_timed_out_persists_witness :
  status (Ok (txt "user")) bench_queue (clock 100000) bench_run bench_world_finished
  = (bench_world_finished, Ok "timed-out"%string).
Proof.
  refine (status_timed_out_persists (Ok (txt "user")) bench_queue (clock 90000)
            (clock 100000) bench_run bench_world_crashed bench_world_finished
            _ _ _ _ _).
  - vm_compute. reflexivity.
  - vm_compute. reflexivity.
  - vm_compute. reflexivity.
  - vm_compute. reflexivity.
  - vm_compute. reflexivity.
Defined.

Lemma status_not_timed_out_early_witness :
  exactly_overdue (clock 90000) bench_run.
Proof.
  refine (status_not_timed_out_early (Ok (txt "user")) bench_queue (clock 90000)
            bench_run bench_world_finished _ _ _ _ _ _).
  - vm_compute. reflexivity.
  - vm_compute. reflexivity.
  - reflexivity.
  - reflexivity.
  - vm_compute. reflexivity.
  - vm_compute. reflexivity.
Defined.

Lemma parse_job_id_after_marker_witness :
  let out := bytes_of "..." ++ marker_bytes ++ bytes_of " 12345 queued" in
  let shown := flat_map (escape_char (repr_quote (bytes_text out)))
                 (bytes_text (bytes_of " 12345 queued")) in
  parse_job_id out = drop 1 (take (length shown - 2) shown).
Proof.
  refine (parse_job_id_after_marker (bytes_of "...") (bytes_of " 12345 queued") _).
  apply contains_false. vm_compute. reflexivity.
Defined.

Lemma parse_job_id_digits_witness :
  parse_job_id (bytes_of "..." ++ marker_bytes ++ [Byte.x20] ++ bytes_of "12345"
                ++ [Byte.x0a])
  = bytes_text (bytes_of "12345").
Proof.
  refine (parse_job_id_digits (bytes_of "...") (bytes_of "12345") _ _).
  - apply contains_false. vm_compute. reflexivity.
  - by_evaluation.
Defined.

Lemma parse_job_id_no_newline_witness :
  parse_job_id (bytes_of "..." ++ marker_bytes ++ [Byte.x20] ++ bytes_of "12345")
  = take (length (bytes_of "12345") - 2) (bytes_text (bytes_of "12345")).
Proof.
  refine (parse_job_id_no_newline (bytes_of "...") (bytes_of "12345") _ _).
  - apply contains_false. vm_compute. reflexivity.
  - by_evaluation.
Defined.

Lemma launch_missing_profile_key_witness :
  let case_dir := bench_simulations // ("run_" +:+ pretty 3) in
  let launch_at (time : float) :=
    launch bench_required ["chi"%string] ["D"%string] unit bench_axis bench_profile
      bench_writer (bench_scheduler 0 []) bench_solps time 3 bench_simulations
      bench_parameters_no_chi in
  launch_at (clock 1000) bench_world = (bench_built_no_chi, Err (KeyError "chi"))
  ∧ launch_at (clock 2000) bench_built_no_chi
    = (bench_built_no_chi, Err (FileExistsError (resolve (cwd bench_world) case_dir))).
Proof.
  refine (launch_missing_profile_key bench_required ["chi"%string] ["D"%string] unit
            bench_axis bench_profile bench_writer (bench_scheduler 0 []) bench_solps 3
            bench_simulations bench_parameters_no_chi (clock 1000) (clock 2000) bench_world
            bench_built_no_chi [] [] "chi" _ _ _ _).
  - vm_compute. reflexivity.
  - reflexivity.
  - intros k' Hk'. by apply elem_of_nil in Hk'.
  - vm_compute. reflexivity.
Defined.

Lemma launch_relative_simulations_directory_witness :
  let a := resolve (cwd bench_relative_prepared) bench_relative_case in
  let back := a ++ parts bench_simulations_relative in
  ∃ e, launch bench_required ["chi"%string] ["D"%string] unit bench_axis bench_profile
         bench_writer (bench_scheduler 0 (bytes_of "..." ++ marker_line)) bench_solps
         (clock 1000) 3 bench_simulations_relative bench_parameters bench_world_tmp
       = (mkWorld (fs bench_relative_prepared) a, Err e)
       ∧ (e = FileNotFoundError back ∨ e = NotADirectoryError back).
Proof.
  refine (launch_relative_simulations_directory bench_required ["chi"%string]
            ["D"%string] unit bench_axis bench_profile bench_writer
            (bench_scheduler 0 (bytes_of "..." ++ marker_line)) bench_solps 3
            bench_simulations_relative bench_parameters (clock 1000) bench_world_tmp
            bench_relative_built bench_relative_prepared (fs bench_relative_prepared)
            0 (bytes_of "..." ++ marker_line) _ _ _ _ _ _).
  - reflexivity.
  - vm_compute. reflexivity.
  - vm_compute. reflexivity.
  - vm_compute. reflexivity.
  - reflexivity.
  - vm_compute. reflexivity.
Defined.

Lemma build_then_cleanup_witness :
  let w := bench_world in
  let r := resolve (cwd w) bench_reference in
  let a := resolve (cwd w) bench_case in
  ∃ w1 w2,
    build_solps_case bench_required bench_reference bench_case
      bench_parameters_required w = (w1, Ok tt)
    ∧ cleanup bench_run w1 = (w2, Ok tt)
    ∧ ∀ n, fs w2 !! (a ++ [n])
           = if bool_decide (n ∈ allowed_files) then case_entry (fs w) r false n
             else None.
Proof.
  refine (build_then_cleanup bench_required bench_reference bench_case
            bench_parameters_required bench_run bench_world _ _ _ _ _ _).
  - reflexivity.
  - by_evaluation.
  - vm_compute. reflexivity.
  - vm_compute. reflexivity.
  - vm_compute. reflexivity.
  - by_evaluation.
Defined.
